(** * bitblock-parser: a shallow embedding of the binary decoders

    The development follows the Python package [blockchain_parser]:
    [utils.py] (byte primitives), [index.py] (the index-db varint),
    [script.py], [address.py], [input.py], [output.py] and
    [transaction.py].

    Conventions.
    - [bytes] objects are lists of [Byte.byte]; Python integers are [Z]
      (they are unbounded in the source, so nothing wraps around).
    - A Python slice [data[a:b]] with non-negative bounds is [slice data a b];
      it clips at the end of the buffer exactly as Python does.
    - A function that may raise returns a [result]; the constructor of
      [exn] names the Python exception class. *)

From Stdlib Require Import ZArith List Bool Lia.
From Stdlib Require Import Strings.String Strings.Ascii Strings.Byte.
Import ListNotations.
Open Scope Z_scope.

(** ** Exceptions and the error monad *)

Inductive exn : Type :=
| ValueError (msg : string)
| StructError
| IndexError
| TypeError
| AttributeError.

Inductive result (A : Type) : Type :=
| Ok (a : A)
| Raise (e : exn).

Arguments Ok {A} a.
Arguments Raise {A} e.

Definition bind {A B : Type} (r : result A) (k : A -> result B) : result B :=
  match r with
  | Ok a => k a
  | Raise e => Raise e
  end.

Notation "x <- r ;; k" := (bind r (fun x => k))
  (at level 61, r at next level, right associativity).
Notation "' pat <- r ;; k" :=
  (bind r (fun x => match x with pat => k end))
  (at level 61, pat pattern, r at next level, right associativity).

(** ** Buffers *)

Definition bytes : Type := list byte.

Definition byte_val (b : byte) : Z := Z.of_N (Byte.to_N b).

Definition len {A : Type} (l : list A) : Z := Z.of_nat (List.length l).

(** [data[a:]] for [0 <= a]. *)
Definition drop {A : Type} (a : Z) (data : list A) : list A :=
  skipn (Z.to_nat a) data.

(** [data[:b]] for [0 <= b]. *)
Definition take {A : Type} (b : Z) (data : list A) : list A :=
  firstn (Z.to_nat b) data.

(** [data[a:b]] for [0 <= a] and [0 <= b]. *)
Definition slice {A : Type} (data : list A) (a b : Z) : list A :=
  take (b - a) (drop a data).

(** [data[-k:]] for [0 < k]: the last [k] items, or everything when the
    buffer is shorter. *)
Definition last_n {A : Type} (k : Z) (data : list A) : list A :=
  drop (Z.max 0 (len data - k)) data.

(** [data[i]] for [0 <= i]; out of range raises [IndexError]. *)
Definition index {A : Type} (data : list A) (i : Z) : result A :=
  if i <? 0 then Raise IndexError
  else match nth_error data (Z.to_nat i) with
       | Some x => Ok x
       | None => Raise IndexError
       end.

(** [data[-k]] for [0 < k]. *)
Definition index_back {A : Type} (data : list A) (k : Z) : result A :=
  index data (len data - k).

(** ** utils.py *)

(** Value of a little-endian byte string, as [struct.unpack] computes it
    for the unsigned formats. *)
Fixpoint le_value (data : bytes) : Z :=
  match data with
  | [] => 0
  | b :: rest => byte_val b + 256 * le_value rest
  end.

(** [struct.unpack(fmt, data)[0]] for an unsigned little-endian format of
    [sz] bytes: the buffer must have exactly [sz] bytes. *)
Definition unpack_le (sz : Z) (data : bytes) : result Z :=
  if len data =? sz then Ok (le_value data) else Raise StructError.

Definition uint32 (data : bytes) : result Z :=
  if negb (len data =? 4)
  then Raise (ValueError "Unable to decode data to uint32. Incorrect size.")
  else unpack_le 4 data.

Definition uint64 (data : bytes) : result Z :=
  if negb (len data =? 8)
  then Raise (ValueError "Unable to decode data to uint64. Incorrect size.")
  else unpack_le 8 data.

(** [struct.calcsize] of the three formats [varint] selects. *)
Inductive format : Type := fmt_H | fmt_I | fmt_Q.

Definition calcsize (f : format) : Z :=
  match f with fmt_H => 2 | fmt_I => 4 | fmt_Q => 8 end.

Definition varint (data : bytes) : result (Z * Z) :=
  match data with
  | [] => Raise (ValueError "Unable to decode empty data.")
  | b :: _ =>
    let _sz := byte_val b in
    if _sz >? 255 then Raise (ValueError "Incorrect data encoding.")
    else if _sz <? 253 then Ok (_sz, 1)
    else
      _format <-
        (if _sz =? 253 then Ok fmt_H
         else if _sz =? 254 then Ok fmt_I
         else if _sz =? 255 then Ok fmt_Q
         else Raise (ValueError "Unknown format value."));;
      let _sz := calcsize _format in
      v <- unpack_le _sz (slice data 1 (_sz + 1));;
      Ok (v, _sz + 1)
  end.

Definition hex_digit (n : N) : ascii :=
  match n with
  | 0%N => "0" | 1%N => "1" | 2%N => "2" | 3%N => "3"
  | 4%N => "4" | 5%N => "5" | 6%N => "6" | 7%N => "7"
  | 8%N => "8" | 9%N => "9" | 10%N => "a" | 11%N => "b"
  | 12%N => "c" | 13%N => "d" | 14%N => "e" | _ => "f"
  end%char.

(** [bytes.hex()]. *)
Fixpoint hex (data : bytes) : string :=
  match data with
  | [] => EmptyString
  | b :: rest =>
    let n := Byte.to_N b in
    String (hex_digit (N.div n 16)) (String (hex_digit (N.modulo n 16)) (hex rest))
  end.

(** Reverses the byte order and returns as a hex-encoded string. *)
Definition hexstring (_hash : bytes) : string := hex (rev _hash).

(** ** index.py *)

(** The loop of [_leveldb_varint], entered with the bytes from position
    [pos] on: [raw_data[pos]] is the head of [rest]; running off the end of
    the buffer is Python's [IndexError]. *)
Fixpoint leveldb_loop (rest : bytes) (idx pos : Z) : result (Z * Z) :=
  match rest with
  | [] => Raise IndexError
  | data :: rest' =>
    let d := byte_val data in
    let pos := pos + 1 in
    let idx := Z.lor (Z.shiftl idx 7) (Z.land d 127) in
    if Z.land d 128 =? 0 then Ok (idx, pos)
    else leveldb_loop rest' (idx + 1) pos
  end.

Definition _leveldb_varint (raw_data : bytes) : result (Z * Z) :=
  leveldb_loop raw_data 0 0.

(** Exceptions beyond those of the byte decoders: [IOError] of the block
    index and the [UnboundLocalError] of the block iterator. *)
Inductive error : Type :=
| Exn (e : exn)
| IOError (msg : string)
| UnboundLocalError.

Inductive outcome (A : Type) : Type :=
| Done (a : A)
| Fail (e : error).

Arguments Done {A} a.
Arguments Fail {A} e.

Definition lift {A : Type} (r : result A) : outcome A :=
  match r with
  | Ok a => Done a
  | Raise e => Fail (Exn e)
  end.

Definition obind {A B : Type} (r : outcome A) (k : A -> outcome B)
  : outcome B :=
  match r with
  | Done a => k a
  | Fail e => Fail e
  end.

Notation "' pat <~ r ;; k" :=
  (obind r (fun x => match x with pat => k end))
  (at level 61, pat pattern, r at next level, right associativity).

Definition BLOCK_HAVE_DATA : Z := 8.
Definition BLOCK_HAVE_UNDO : Z := 16.

(** A Python integer used as a condition. *)
Definition truthy (n : Z) : bool := negb (n =? 0).

Module DBBlockIndex.
Record t : Type := Build {
  hash : string;
  height : Z;
  status : Z;
  n_tx : Z;
  file : Z;
  data_pos : Z;
  (** the attribute is only set when the status has [BLOCK_HAVE_UNDO] *)
  undo_pos : option Z;
  version : Z;
  prev_hash : string;
  merkle_root : string;
  nonce : Z
}.

(** [unpack("<I32s32sIII", header)]: the items used by [__init__], that
    is the version, the two 32-byte strings and the nonce. *)
Definition unpack_header (header : bytes) : result (Z * bytes * bytes * Z) :=
  if len header =? 80
  then Ok (le_value (slice header 0 4), slice header 4 36,
           slice header 36 68, le_value (slice header 76 80))
  else Raise StructError.

Definition init (block_hash : string) (raw_data : bytes) : outcome t :=
  let _pos := 0 in
  '(_, i) <~ lift (_leveldb_varint (drop _pos raw_data));;
  let _pos := _pos + i in
  '(height, i) <~ lift (_leveldb_varint (drop _pos raw_data));;
  let _pos := _pos + i in
  '(status, i) <~ lift (_leveldb_varint (drop _pos raw_data));;
  let _pos := _pos + i in
  '(n_tx, i) <~ lift (_leveldb_varint (drop _pos raw_data));;
  let _pos := _pos + i in
  '(file, _pos) <~
    (if truthy (Z.land status (Z.lor BLOCK_HAVE_DATA BLOCK_HAVE_UNDO))
     then '(file, i) <~ lift (_leveldb_varint (drop _pos raw_data));;
          Done (file, _pos + i)
     else Done (-1, _pos));;
  '(data_pos, _pos) <~
    (if truthy (Z.land status BLOCK_HAVE_DATA)
     then '(data_pos, i) <~ lift (_leveldb_varint (drop _pos raw_data));;
          Done (data_pos, _pos + i)
     else Done (-1, _pos));;
  '(undo_pos, _pos) <~
    (if truthy (Z.land status BLOCK_HAVE_UNDO)
     then '(undo_pos, i) <~ lift (_leveldb_varint (drop _pos raw_data));;
          Done (Some undo_pos, _pos + i)
     else Done (None, _pos));;
  if negb (_pos + 80 =? len raw_data) then Fail (IOError "Invalid block.")
  else
    '(version, _prev, _merkle, nonce) <~
      lift (unpack_header (last_n 80 raw_data));;
    Done (Build block_hash height status n_tx file data_pos undo_pos
                version (hexstring _prev) (hexstring _merkle) nonce).
End DBBlockIndex.

Module DBTransactionIndex.
Record t : Type := Build {
  hash : string;
  blockfile_no : Z;
  file_offset : Z;
  block_offset : Z
}.

Definition init (tx_hash : string) (raw_data : bytes) : result t :=
  let _pos := 0 in
  '(blockfile_no, i) <- _leveldb_varint (drop _pos raw_data);;
  let _pos := _pos + i in
  '(file_offset, i) <- _leveldb_varint (drop _pos raw_data);;
  let _pos := _pos + i in
  '(block_offset, i) <- _leveldb_varint (drop _pos raw_data);;
  Ok (Build tx_hash blockfile_no file_offset block_offset).
End DBTransactionIndex.

(** ** External libraries

    [hashlib] and [python-bitcoinlib] are imported by the package, not part
    of it.  The decoders are parametric in them. *)

(** An item of [list(CScript(raw))]: an integer (a small integer, or an
    opcode: [CScriptOp] is a subclass of [int] and compares as one) or the
    bytes of a data push. *)
Inductive operation : Type :=
| OpInt (n : Z)
| OpBytes (data : bytes).

Class Hashlib : Type := {
  sha256 : bytes -> bytes;
  ripemd160 : bytes -> bytes
}.

Class Bitcoinlib : Type := {
(** [list(script)]; [None] stands for [CScriptInvalidError]. *)
  cscript_iter : bytes -> option (list operation);
  cscript_is_valid : bytes -> bool;
  cscript_is_p2sh : bytes -> bool;
  cscript_is_unspendable : bytes -> bool;
  cscript_is_witness_v0_keyhash : bytes -> bool;
  cscript_is_witness_v0_scripthash : bytes -> bool;
  base58_encode : bytes -> string;
  (** [str(CBech32Data.from_bytes(witver, witprog))]. *)
  bech32_from_bytes : Z -> bytes -> result string
}.

Definition OP_PUSHDATA1 : Z := 76.
Definition OP_PUSHDATA2 : Z := 77.
Definition OP_PUSHDATA4 : Z := 78.
Definition OP_RETURN : Z := 106.
Definition OP_DUP : Z := 118.
Definition OP_EQUAL : Z := 135.
Definition OP_EQUALVERIFY : Z := 136.
Definition OP_HASH160 : Z := 169.
Definition OP_CHECKSIG : Z := 172.
Definition OP_CHECKMULTISIG : Z := 174.

Section Hashes.
Context {H : Hashlib}.

Definition hash160 (data : bytes) : bytes := ripemd160 (sha256 data).

Definition sha256_2 (data : bytes) : bytes := sha256 (sha256 data).
End Hashes.

(** ** script.py *)

(** [op == code] for an opcode constant [code]. *)
Definition op_eq (op : operation) (code : Z) : bool :=
  match op with
  | OpInt n => n =? code
  | OpBytes _ => false
  end.

Definition is_public_key (data : operation) : bool :=
  match data with
  | OpInt _ => false
  | OpBytes d =>
    let _uncompressed :=
      (len d =? 65) && match d with b :: _ => byte_val b =? 4 | [] => false end in
    let _compressed :=
      (len d =? 33) &&
      match d with
      | b :: _ => (byte_val b =? 2) || (byte_val b =? 3)
      | [] => false
      end in
    _uncompressed || _compressed
  end.

Module Script.
Section WithLib.
Context {L : Bitcoinlib}.

Record t : Type := from_bytes { raw : bytes }.

Definition operations (self : t) : list operation :=
  match cscript_iter (raw self) with
  | Some ops => ops
  | None => []
  end.

Definition is_valid (self : t) : bool := cscript_is_valid (raw self).
Definition is_return (self : t) : bool := cscript_is_unspendable (raw self).
Definition is_p2sh (self : t) : bool := cscript_is_p2sh (raw self).
Definition is_p2wsh (self : t) : bool :=
  cscript_is_witness_v0_scripthash (raw self).
Definition is_p2wpkh (self : t) : bool :=
  cscript_is_witness_v0_keyhash (raw self).

Definition is_pubkey_ops (ops : list operation) : result bool :=
  let _length := len ops =? 2 in
  last <- index_back ops 1;;
  let _operation := op_eq last OP_CHECKSIG in
  first <- index ops 0;;
  let _pubkey := is_public_key first in
  Ok (_length && _operation && _pubkey).

Definition is_pubkey (self : t) : result bool :=
  is_pubkey_ops (operations self).

Definition is_pubkeyhash_ops (raw_len : Z) (ops : list operation)
  : result bool :=
  let _length := raw_len =? 25 in
  o0 <- index ops 0;;
  let _op_dup := op_eq o0 OP_DUP in
  o1 <- index ops 1;;
  let _op_hash := op_eq o1 OP_HASH160 in
  o2 <- index_back ops 2;;
  let _op_verify := op_eq o2 OP_EQUALVERIFY in
  o3 <- index_back ops 1;;
  let _op_check := op_eq o3 OP_CHECKSIG in
  Ok (_length && _op_dup && _op_hash && _op_verify && _op_check).

Definition is_pubkeyhash (self : t) : result bool :=
  is_pubkeyhash_ops (len (raw self)) (operations self).

(** The loop [for i in range(_m)] of [is_multisig], with [n] iterations
    left and the loop variable at [i]: [Ok false] is the early
    [return False], [Ok true] is falling out of the loop. *)
Fixpoint multisig_keys (ops : list operation) (n : nat) (i : Z)
  : result bool :=
  match n with
  | O => Ok true
  | S n' =>
    o <- index ops (1 + i);;
    if negb (is_public_key o) then Ok false
    else multisig_keys ops n' (i + 1)
  end.

Definition is_multisig_ops (ops : list operation) : result bool :=
  if len ops <? 4 then Ok false
  else
    _m <- index ops 0;;
    match _m with
    | OpBytes _ => Ok false
    | OpInt m =>
      keys <- multisig_keys ops (Z.to_nat m) 0;;
      if negb keys then Ok false
      else
        _n <- index_back ops 2;;
        let _type := match _n with OpInt _ => true | OpBytes _ => false end in
        _value <- match _n with
                     | OpInt n => Ok (n <? m)
                     | OpBytes _ => Raise TypeError
                     end;;
        last <- index_back ops 1;;
        let _op_multi := negb (op_eq last OP_CHECKMULTISIG) in
        if negb _type || _value || _op_multi then Ok false else Ok true
    end.

Definition is_multisig (self : t) : result bool :=
  is_multisig_ops (operations self).

(** [or] evaluates its right operand only when the left one is false. *)
Definition is_unknown (self : t) : result bool :=
  _pubkeyhash <- is_pubkeyhash self;;
  _pubkey <- (if _pubkeyhash then Ok true else is_pubkey self);;
  let _p2sh := is_p2sh self in
  _multisig <- is_multisig self;;
  let _return := is_return self in
  let _p2w := if is_p2wpkh self then true else is_p2wsh self in
  Ok (_pubkey || _p2sh || _multisig || _return || _p2w).
End WithLib.
End Script.

(** ** address.py *)

Inductive AddressType : Type := normal | p2sh_address | bech32.

Module Address.
Section WithLibs.
Context {H : Hashlib} {L : Bitcoinlib}.

(** The constructors store whatever operation the caller hands over, so
    the fields hold an [operation]. *)
Record t : Type := Build {
  _hash : option operation;
  public_key : option operation;
  _address : option string;
  address_type : AddressType;
  _segwit_version : option Z
}.

Definition from_public_key (public_key : operation) : t :=
  Build None (Some public_key) None normal None.

Definition from_hash160 (_hash : operation) (_type : AddressType) : t :=
  Build (Some _hash) None None _type None.

Definition from_bech32 (_hash : operation) (segwit_version : Z) : t :=
  Build (Some _hash) None None bech32 (Some segwit_version).

(** The [hash] property; hashing something that is not [bytes] is a
    [TypeError]. *)
Definition hash (self : t) : result (option operation) :=
  match public_key self, _hash self with
  | Some (OpBytes pk), None => Ok (Some (OpBytes (hash160 pk)))
  | Some (OpInt _), None => Raise TypeError
  | _, h => Ok h
  end.

(** The [address] property; concatenating [bytes] with anything else is a
    [TypeError]. *)
Definition address (self : t) : result string :=
  match _address self with
  | Some a => Ok a
  | None =>
    match address_type self with
    | bech32 =>
      match _segwit_version self, _hash self with
      | Some v, Some (OpBytes h) => bech32_from_bytes v h
      | _, _ => Raise TypeError
      end
    | ty =>
      let _version :=
        match ty with normal => [x00] | _ => [x05] end in
      h <- hash self;;
      match h with
      | Some (OpBytes h) =>
        let _checksum := sha256_2 (_version ++ h) in
        Ok (base58_encode (_version ++ h ++ take 4 _checksum))
      | _ => Raise TypeError
      end
    end
  end.
End WithLibs.
End Address.

(** ** input.py *)

Module TxInput.
Record t : Type := Build {
  _script_length : Z;
  _script_start : Z;
  raw : bytes;
  _witnesses : list bytes
}.

Definition size (self : t) : Z :=
  _script_start self + _script_length self + 4.

Definition from_bytes (raw_bytes : bytes) : result t :=
  '(script_length, varint_length) <- varint (drop 36 raw_bytes);;
  let script_start := 36 + varint_length in
  Ok (Build script_length script_start
            (take (script_start + script_length + 4) raw_bytes) []).

Definition transaction_hash (self : t) : string :=
  hexstring (take 32 (raw self)).

Definition transaction_index (self : t) : result Z :=
  uint32 (slice (raw self) 32 36).

Definition sequence_number (self : t) : result Z :=
  uint32 (slice (raw self) (size self - 4) (size self)).

Definition script (self : t) : Script.t :=
  let _end := _script_start self + _script_length self in
  Script.from_bytes (slice (raw self) (_script_start self) _end).

Definition witnesses (self : t) : list bytes := _witnesses self.

Definition add_witness (self : t) (witness : bytes) : t :=
  Build (_script_length self) (_script_start self) (raw self)
        (_witnesses self ++ [witness]).
End TxInput.

(** ** output.py *)

Inductive ScriptType : Type :=
| unknown | invalid | pubkeyhash | pubkey | p2sh | multisig
| OP_RETURN_type | p2wpkh | p2wsh.

Module TxOutput.
Record t : Type := Build {
  _script_raw : bytes;
  size : Z;
  _value_raw : bytes
}.

Definition from_bytes (raw_bytes : bytes) : result t :=
  '(script_length, varint_size) <- varint (drop 8 raw_bytes);;
  let script_start := 8 + varint_size in
  Ok (Build (slice raw_bytes script_start (script_start + script_length))
            (script_start + script_length)
            (take 8 raw_bytes)).

Definition value (self : t) : result Z := uint64 (_value_raw self).

Definition script (self : t) : Script.t := Script.from_bytes (_script_raw self).

Section WithLibs.
Context {H : Hashlib} {L : Bitcoinlib}.

Definition script_type (self : t) : result ScriptType :=
  if negb (Script.is_valid (script self)) then Ok invalid
  else
    b1 <- Script.is_pubkeyhash (script self);;
    if b1 then Ok pubkeyhash
    else
      b2 <- Script.is_pubkey (script self);;
      if b2 then Ok pubkey
      else if Script.is_p2sh (script self) then Ok p2sh
      else
        b4 <- Script.is_multisig (script self);;
        if b4 then Ok multisig
        else if Script.is_return (script self) then Ok OP_RETURN_type
        else if Script.is_p2wpkh (script self) then Ok p2wpkh
        else if Script.is_p2wsh (script self) then Ok p2wsh
        else Ok unknown.

(** [operations[a:b]] with the end bound computed from a script integer:
    the general Python slice, where a negative bound counts from the
    end. *)
Definition norm_bound (n i : Z) : Z :=
  if i <? 0 then Z.max 0 (i + n) else Z.min i n.

Definition pyslice {A : Type} (l : list A) (a b : Z) : list A :=
  slice l (norm_bound (len l) a) (norm_bound (len l) b).

Definition addresses (self : t) : result (list Address.t) :=
  let ops := Script.operations (script self) in
  ty <- script_type self;;
  match ty with
  | pubkey =>
    o <- index ops 0;; Ok [Address.from_public_key o]
  | pubkeyhash =>
    o <- index ops 2;; Ok [Address.from_hash160 o normal]
  | p2sh =>
    o <- index ops 1;; Ok [Address.from_hash160 o p2sh_address]
  | multisig =>
    n <- index_back ops 2;;
    match n with
    | OpInt n => Ok (map Address.from_public_key (pyslice ops 1 (1 + n)))
    | OpBytes _ => Raise TypeError
    end
  | p2wpkh =>
    o <- index ops 1;; Ok [Address.from_bech32 o 0]
  | p2wsh =>
    o <- index ops 1;; Ok [Address.from_bech32 o 0]
  | _ => Ok []
  end.
End WithLibs.
End TxOutput.

(** ** transaction.py *)

Fixpoint bytes_eqb (a b : bytes) : bool :=
  match a, b with
  | [], [] => true
  | x :: a', y :: b' => Byte.eqb x y && bytes_eqb a' b'
  | _, _ => false
  end.

(** [s * n] on strings. *)
Fixpoint str_mul (s : string) (n : nat) : string :=
  match n with
  | O => EmptyString
  | S n' => (s ++ str_mul s n')%string
  end.

Module Transaction.
Record t : Type := Build {
  inputs : list TxInput.t;
  outputs : list TxOutput.t;
  size : Z;
  n_inputs : Z;
  n_outputs : Z;
  is_segwit : bool;
(** the attribute is only set for a witness serialization *)
  _offset_before_tx_witnesses : option Z;
  raw : bytes
}.

  (** [for _ in range(n_inputs)]: [n] iterations left, [acc] is
    [self.inputs] so far. *)
Fixpoint read_inputs (n : nat) (raw_data : bytes) (offset : Z)
         (acc : list TxInput.t) : result (list TxInput.t * Z) :=
  match n with
  | O => Ok (acc, offset)
  | S n' =>
    _input <- TxInput.from_bytes (drop offset raw_data);;
    read_inputs n' raw_data (offset + TxInput.size _input) (acc ++ [_input])
  end.

Fixpoint read_outputs (n : nat) (raw_data : bytes) (offset : Z)
         (acc : list TxOutput.t) : result (list TxOutput.t * Z) :=
  match n with
  | O => Ok (acc, offset)
  | S n' =>
    _output <- TxOutput.from_bytes (drop offset raw_data);;
    read_outputs n' raw_data (offset + TxOutput.size _output) (acc ++ [_output])
  end.

(** [for _ in range(tx_witnesses_n)], adding to the input [_in]. *)
Fixpoint read_stack (n : nat) (raw_data : bytes) (offset : Z)
         (_in : TxInput.t) : result (TxInput.t * Z) :=
  match n with
  | O => Ok (_in, offset)
  | S n' =>
    '(component_length, varint_size) <- varint (drop offset raw_data);;
    let offset := offset + varint_size in
    let witness := slice raw_data offset (offset + component_length) in
    read_stack n' raw_data (offset + component_length)
               (TxInput.add_witness _in witness)
  end.

(** [for _in in self.inputs]. *)
Fixpoint read_witnesses (ins : list TxInput.t) (raw_data : bytes)
         (offset : Z) : result (list TxInput.t * Z) :=
  match ins with
  | [] => Ok ([], offset)
  | _in :: rest =>
    '(tx_witnesses_n, varint_size) <- varint (drop offset raw_data);;
    '(_in', offset) <-
      read_stack (Z.to_nat tx_witnesses_n) raw_data (offset + varint_size) _in;;
    '(rest', offset) <- read_witnesses rest raw_data offset;;
    Ok (_in' :: rest', offset)
  end.

(** What [__init__] has established when it reaches
    [self.size = offset + 4]. *)
Record fields : Type := Fields {
  f_is_segwit : bool;
  f_n_inputs : Z;
  f_inputs : list TxInput.t;
  f_n_outputs : Z;
  f_outputs : list TxOutput.t;
  f_offset_before : option Z;
  f_offset : Z
}.

Definition walk (raw_data : bytes) : result fields :=
  let offset := 4 in
  let is_segwit := bytes_eqb [x00; x01] (slice raw_data offset (offset + 2)) in
  let offset := if is_segwit then offset + 2 else offset in
  '(n_inputs, varint_size) <- varint (drop offset raw_data);;
  let offset := offset + varint_size in
  '(inputs, offset) <- read_inputs (Z.to_nat n_inputs) raw_data offset [];;
  '(n_outputs, varint_size) <- varint (drop offset raw_data);;
  let offset := offset + varint_size in
  '(outputs, offset) <- read_outputs (Z.to_nat n_outputs) raw_data offset [];;
  if is_segwit then
    '(inputs', offset') <- read_witnesses inputs raw_data offset;;
    Ok (Fields true n_inputs inputs' n_outputs outputs (Some offset) offset')
  else
    Ok (Fields false n_inputs inputs n_outputs outputs None offset).

Definition from_bytes (raw_data : bytes) : result t :=
  f <- walk raw_data;;
  let size := f_offset f + 4 in
  let raw := take size raw_data in
  if negb (size =? len raw)
  then Raise (ValueError "Incomplete transaction.")
  else Ok (Build (f_inputs f) (f_outputs f) size (f_n_inputs f)
                 (f_n_outputs f) (f_is_segwit f) (f_offset_before f) raw).

Definition version (self : t) : result Z := uint32 (take 4 (raw self)).

Definition locktime (self : t) : result Z := uint32 (last_n 4 (raw self)).

(** [ceil(weight / 4)].  The source divides in floating point; a
    quotient by 4 is exact there for every weight below [2^53], far
    beyond the length of any buffer, so the model is the integer
    ceiling. *)
Definition ceil_quarter (weight : Z) : Z := - ((- weight) / 4).

Definition vsize (self : t) : result Z :=
  if negb (is_segwit self) then Ok (size self)
  else
    match _offset_before_tx_witnesses self with
    | None => Raise AttributeError
    | Some before =>
      let wit_sz := size self - before - 4 in
      let stripped_sz := size self - (2 + wit_sz) in
      let weight := stripped_sz * 3 + size self in
      Ok (ceil_quarter weight)
    end.

Section WithHashes.
Context {H : Hashlib}.

Definition hash (self : t) : string := hexstring (sha256_2 (raw self)).

Definition txid (self : t) : result string :=
  if is_segwit self then
    match _offset_before_tx_witnesses self with
    | None => Raise AttributeError
    | Some before =>
      let txid_data :=
        take 4 (raw self) ++ slice (raw self) 6 before ++ last_n 4 (raw self) in
      Ok (hexstring (sha256_2 txid_data))
    end
  else Ok (hexstring (sha256_2 (raw self))).
End WithHashes.

Definition is_coinbase (self : t) : bool :=
  existsb (fun _input =>
             String.eqb (TxInput.transaction_hash _input) (str_mul "0" 64))
          (inputs self).

(** The loop of [uses_replace_by_fee] over the inputs. *)
Fixpoint rbf_loop (ins : list TxInput.t) : result bool :=
  match ins with
  | [] => Ok false
  | _input :: rest =>
    sequence <- TxInput.sequence_number _input;;
    if sequence <? 4294967294 then Ok true else rbf_loop rest
  end.

Definition uses_replace_by_fee (self : t) : result bool :=
  if is_coinbase self then Ok false else rbf_loop (inputs self).
End Transaction.

(** ** Instances of the external libraries

    [CScript] follows python-bitcoinlib's [bitcoin.core.script.CScript]:
    [raw_iter] walks the push/opcode encoding and [__iter__] cooks each
    item.  It is used to run the decoders on concrete scripts; the general
    results below hold for every instance of [Bitcoinlib]. *)

Module CScript.
(** The item [__iter__] yields for a bare opcode. *)
Definition cook (opcode : Z) : operation :=
  if (81 <=? opcode) && (opcode <=? 96) then OpInt (opcode - 80)
  else OpInt opcode.

(** The data size of a push and the bytes after its length field;
    [None] when the length field is missing. *)
Definition push_size (opcode : Z) (rest : bytes) : option (Z * bytes) :=
  if opcode <? OP_PUSHDATA1 then Some (opcode, rest)
  else if opcode =? OP_PUSHDATA1 then
    match rest with
    | b :: r => Some (byte_val b, r)
    | _ => None
    end
  else if opcode =? OP_PUSHDATA2 then
    match rest with
    | b0 :: b1 :: r => Some (le_value [b0; b1], r)
    | _ => None
    end
  else
    match rest with
    | b0 :: b1 :: b2 :: b3 :: r => Some (le_value [b0; b1; b2; b3], r)
    | _ => None
    end.

(** [while i < len(self)]: every iteration consumes at least one byte, so
    the length of the script bounds the number of iterations. *)
Fixpoint iter_loop (fuel : nat) (script : bytes) : option (list operation) :=
  match script with
  | [] => Some []
  | b :: rest =>
    match fuel with
    | O => None
    | S fuel' =>
      let opcode := byte_val b in
      if opcode >? OP_PUSHDATA4 then
        option_map (cons (cook opcode)) (iter_loop fuel' rest)
      else
        match push_size opcode rest with
        | None => None
        | Some (datasize, rest') =>
          let data := take datasize rest' in
          if len data <? datasize then None
          else
            option_map
              (cons (if opcode =? 0 then OpInt 0 else OpBytes data))
              (iter_loop fuel' (drop datasize rest'))
        end
    end
  end.

Definition iter (script : bytes) : option (list operation) :=
  iter_loop (List.length script) script.

Definition is_valid (script : bytes) : bool :=
  match iter script with Some _ => true | None => false end.

Definition byte_at (script : bytes) (i : nat) : Z :=
  match nth_error script i with Some b => byte_val b | None => -1 end.

Definition is_p2sh (script : bytes) : bool :=
  (len script =? 23) && (byte_at script 0 =? OP_HASH160)
  && (byte_at script 1 =? 20) && (byte_at script 22 =? OP_EQUAL).

Definition is_unspendable (script : bytes) : bool :=
  (0 <? len script) && (byte_at script 0 =? OP_RETURN).

Definition is_witness_v0_keyhash (script : bytes) : bool :=
  (len script =? 22) && bytes_eqb (take 2 script) [x00; x14].

Definition is_witness_v0_scripthash (script : bytes) : bool :=
  (len script =? 34) && bytes_eqb (take 2 script) [x00; x20].
End CScript.

(** The encoders and hash functions are opaque to the decoders.  The two
    instances below let the definitions evaluate: the digests and encodings
    are placeholders that keep their argument visible, and nothing proved
    in general depends on them. *)
Definition plain_hashlib : Hashlib :=
  {| sha256 := fun data => data; ripemd160 := fun data => data |}.

Definition bitcoinlib : Bitcoinlib :=
  {| cscript_iter := CScript.iter;
     cscript_is_valid := CScript.is_valid;
     cscript_is_p2sh := CScript.is_p2sh;
     cscript_is_unspendable := CScript.is_unspendable;
     cscript_is_witness_v0_keyhash := CScript.is_witness_v0_keyhash;
     cscript_is_witness_v0_scripthash := CScript.is_witness_v0_scripthash;
     base58_encode := hex;
     bech32_from_bytes := fun _ data => Ok (hex data) |}.

(** ** Statements of the specification *)

(** §4.1, index-db varint: one step [n := (n << 7) | (d & 0x7f)]. *)
Definition varint_step (n : Z) (d : byte) : Z :=
  Z.lor (Z.shiftl n 7) (Z.land (byte_val d) 127).

Definition high_bit (d : byte) : bool := negb (Z.land (byte_val d) 128 =? 0).

(** The iteration over the bytes whose high bit is set: each is followed by
    [n := n + 1]. *)
Definition varint_continue (n : Z) (ds : bytes) : Z :=
  fold_left (fun n d => varint_step n d + 1) ds n.

(** §4.2: a public-key push is a byte string of 33 bytes with prefix 0x02
    or 0x03, or of 65 bytes with prefix 0x04. *)
Definition public_key_push (op : operation) : Prop :=
  exists (b : byte) (rest : bytes),
    op = OpBytes (b :: rest) /\
    ((len (b :: rest) = 33 /\ (byte_val b = 2 \/ byte_val b = 3)) \/
     (len (b :: rest) = 65 /\ byte_val b = 4)).

(** §4.2, the multisig row of the template table. *)
Definition multisig_rule (ops : list operation) : Prop :=
  4 <= len ops /\
  exists M N : Z,
    index ops 0 = Ok (OpInt M) /\
    (forall i, 0 <= i < M ->
       exists op, index ops (1 + i) = Ok op /\ public_key_push op) /\
    index_back ops 2 = Ok (OpInt N) /\
    M <= N /\
    index_back ops 1 = Ok (OpInt OP_CHECKMULTISIG).

(** §4.4: the sizes that enter the virtual size. *)
Definition witness_bytes (tx : Transaction.t) (before : Z) : Z :=
  Transaction.size tx - before - 4.

Definition stripped (tx : Transaction.t) : Z :=
  match Transaction.is_segwit tx, Transaction._offset_before_tx_witnesses tx with
  | true, Some before => Transaction.size tx - 2 - witness_bytes tx before
  | _, _ => Transaction.size tx
  end.

(** ** Sample outputs *)

Definition key_a : bytes := x02 :: repeat x11 32.
Definition key_b : bytes := x03 :: repeat x22 32.

(** [OP_1 <key_a> <key_b> OP_2 OP_CHECKMULTISIG], a 1-of-2 multisig. *)
Definition one_of_two_script : bytes :=
  [x51; x21] ++ key_a ++ [x21] ++ key_b ++ [x52; xae].

(** An output of 0 satoshis paying to [one_of_two_script] (71 bytes). *)
Definition one_of_two_output : bytes :=
  repeat x00 8 ++ [x47] ++ one_of_two_script.

(** [OP_0 OP_0 OP_0 OP_CHECKMULTISIG], a 0-of-0 multisig. *)
Definition zero_of_zero_output : bytes :=
  repeat x00 8 ++ [x04; x00; x00; x00; xae].

(** An output of 0 satoshis with the empty script. *)
Definition empty_script_output : bytes := repeat x00 8 ++ [x00].

(** The decoded outputs ([TxOutput.from_bytes] of the buffers above). *)
Definition one_of_two : TxOutput.t :=
  TxOutput.Build one_of_two_script 80 (repeat x00 8).

Definition zero_of_zero : TxOutput.t :=
  TxOutput.Build [x00; x00; x00; xae] 13 (repeat x00 8).

(** §4.2 and §8.4 on multisig outputs, as the specification words them:
    one address per public key in slots [1..1+M], M being the integer at
    slot 0, and never an empty list. *)
Definition addresses_per_key_claim {L : Bitcoinlib} (out : TxOutput.t) : Prop :=
  TxOutput.script_type out = Ok multisig ->
  exists (M : Z) (addrs : list Address.t),
    let ops := Script.operations (TxOutput.script out) in
    index ops 0 = Ok (OpInt M) /\
    TxOutput.addresses out = Ok addrs /\
    addrs = map Address.from_public_key (slice ops 1 (1 + M)) /\
    addrs <> [].

(** ** Sample transactions *)

(** A coinbase-like input with an empty script (41 bytes). *)
Definition sample_input : bytes :=
  repeat x00 32 ++ [xff; xff; xff; xff] ++ [x00] ++ [xff; xff; xff; xff].

(** An output of 1 satoshi with the script [OP_RETURN] (10 bytes). *)
Definition sample_output : bytes :=
  [x01; x00; x00; x00; x00; x00; x00; x00] ++ [x01; x6a].

(** Version 1, one input, one output, locktime 0: 61 bytes. *)
Definition legacy_tx : bytes :=
  [x01; x00; x00; x00] ++ [x01] ++ sample_input ++ [x01] ++ sample_output
  ++ [x00; x00; x00; x00].

(** The same with the witness marker and a witness stack of two items,
    [aa] and [bb cc]: 69 bytes, the witnesses start at offset 59. *)
Definition segwit_tx : bytes :=
  [x02; x00; x00; x00] ++ [x00; x01] ++ [x01] ++ sample_input ++ [x01]
  ++ sample_output ++ [x02; x01; xaa; x02; xbb; xcc]
  ++ [x00; x00; x00; x00].

(** An input and an output cut right after the script length, which
    announces 5 bytes of script. *)
Definition cut_input : bytes := repeat x00 36 ++ [x05].
Definition cut_output : bytes := repeat x00 8 ++ [x05].

(** The decoded sample transactions (an empty transaction stands in for a
    failure, which does not occur). *)
Definition decoded (raw_data : bytes) : Transaction.t :=
  match Transaction.from_bytes raw_data with
  | Ok tx => tx
  | Raise _ => Transaction.Build [] [] 0 0 0 false None []
  end.

Definition legacy_parsed : Transaction.t := Eval vm_compute in decoded legacy_tx.
Definition segwit_parsed : Transaction.t := Eval vm_compute in decoded segwit_tx.

(** §4.3 as the specification words it: a buffer shorter than the consumed
    size that the record declares makes the decoder fail. *)
Definition input_truncation_claim (raw_bytes : bytes) : Prop :=
  forall L varint_size : Z,
    varint (drop 36 raw_bytes) = Ok (L, varint_size) ->
    len raw_bytes < 36 + varint_size + L + 4 ->
    exists e, TxInput.from_bytes raw_bytes = Raise e.

Definition output_truncation_claim (raw_bytes : bytes) : Prop :=
  forall L varint_size : Z,
    varint (drop 8 raw_bytes) = Ok (L, varint_size) ->
    len raw_bytes < 8 + varint_size + L ->
    exists e, TxOutput.from_bytes raw_bytes = Raise e.

(** ** Further statements *)

(** The number of bytes that the first byte [b >= 0xfd] of a compact size
    announces. *)
Definition announced_width (b : byte) : Z :=
  if byte_val b =? 253 then 2 else if byte_val b =? 254 then 4 else 8.

(** The value of a lower-case hexadecimal digit, the inverse of
    [hex_digit]. *)
Definition digit_val (c : ascii) : N :=
  match c with
  | "0" => 0 | "1" => 1 | "2" => 2 | "3" => 3 | "4" => 4 | "5" => 5
  | "6" => 6 | "7" => 7 | "8" => 8 | "9" => 9 | "a" => 10 | "b" => 11
  | "c" => 12 | "d" => 13 | "e" => 14 | _ => 15
  end%char%N.

(** ** Sample index records *)

(** Index-db varints for: unused 0, height 5, status 29 (data and undo
    present), 1 transaction, file 0, data position 8, undo position 0. *)
Definition sample_index_varints : bytes :=
  [x00; x05; x1d; x01; x00; x08; x00].

(** An 80-byte header: version 1, zero hashes, nonce [0x1dac2b7c]. *)
Definition sample_header : bytes :=
  [x01; x00; x00; x00] ++ repeat x00 64 ++ [x29; xab; x5f; x49]
  ++ [xff; xff; x00; x1d] ++ [x7c; x2b; xac; x1d].

Definition sample_block_index : bytes := sample_index_varints ++ sample_header.

(** The decoded sample record (an empty record stands in for a failure,
    which does not occur). *)
Definition sample_index : DBBlockIndex.t :=
  Eval vm_compute in
    match DBBlockIndex.init "h" sample_block_index with
    | Done idx => idx
    | Fail _ => DBBlockIndex.Build "" 0 0 0 0 0 None 0 "" "" 0
    end.

(** An input that holds all the bytes it declares. *)
Definition input_complete (inp : TxInput.t) : Prop :=
  0 <= TxInput._script_length inp /\
  37 <= TxInput._script_start inp /\
  len (TxInput.raw inp) = TxInput.size inp.

(** An output that holds the 8 value bytes and the script it declares,
    [k] being the width of its script length. *)
Definition output_complete (out : TxOutput.t) : Prop :=
  len (TxOutput._value_raw out) = 8 /\
  exists k : Z,
    (k = 1 \/ k = 3 \/ k = 5 \/ k = 9) /\
    TxOutput.size out = 8 + k + len (TxOutput._script_raw out).

(** Bytes taken by a list of inputs, and by a list of outputs. *)
Definition inputs_size (ins : list TxInput.t) : Z :=
  fold_right Z.add 0 (map TxInput.size ins).

Definition outputs_size (outs : list TxOutput.t) : Z :=
  fold_right Z.add 0 (map TxOutput.size outs).

(** ** block_header.py *)

Module BlockHeader.
Record t : Type := Build { raw : bytes }.

Definition from_bytes (raw_data : bytes) : t := Build (take 80 raw_data).

Definition version (self : t) : result Z := uint32 (take 4 (raw self)).

Definition previous_block_hash (self : t) : string :=
  hexstring (slice (raw self) 4 36).

Definition merkle_root (self : t) : string :=
  hexstring (slice (raw self) 36 68).

(** The argument of [datetime.utcfromtimestamp] in the [timestamp]
    property: seconds since the epoch, which determine the date. *)
Definition timestamp (self : t) : result Z := uint32 (slice (raw self) 68 72).

Definition bits (self : t) : result Z := uint32 (slice (raw self) 72 76).

Definition nonce (self : t) : result Z := uint32 (slice (raw self) 76 80).
End BlockHeader.

(** ** block.py *)

(** What a generator produces: the items it yields, in order, and the
    exception that ends the iteration, if one does. *)
Definition generated (A : Type) : Type := (list A * option error)%type.

(** [for j in range(0, 20)] of the retry ladder, with [fuel] values of [j]
    left: the first slice width [1024 * 2 ** j] from which the transaction
    parses.  Every exception is caught. *)
Fixpoint ladder (fuel : nat) (j : Z) (transaction_data : bytes) (offset : Z)
  : option Transaction.t :=
  match fuel with
  | O => None
  | S fuel' =>
    let offset_e := offset + 1024 * 2 ^ j in
    match Transaction.from_bytes (slice transaction_data offset offset_e) with
    | Ok transaction => Some transaction
    | Raise _ => ladder fuel' (j + 1) transaction_data offset
    end
  end.

(** [for _ in range(n_transactions)]: [transaction] is the variable of
    that name, unbound until a first transaction has parsed and stale
    when the ladder finds nothing. *)
Fixpoint block_loop (n : nat) (transaction_data : bytes) (offset : Z)
         (transaction : option Transaction.t) : generated Transaction.t :=
  match n with
  | O => ([], None)
  | S n' =>
    let found := ladder 20 0 transaction_data offset in
    let transaction :=
      match found with Some tx => Some tx | None => transaction end in
    match transaction with
    | None => ([], Some UnboundLocalError)
    | Some tx =>
      let '(rest, e) :=
        block_loop n' transaction_data (offset + Transaction.size tx)
                   transaction in
      (match found with Some tx' => tx' :: rest | None => rest end, e)
    end
  end.

Definition get_block_transactions (raw_data : bytes)
  : generated Transaction.t :=
  let transaction_data := drop 80 raw_data in
  match varint transaction_data with
  | Raise e => ([], Some (Exn e))
  | Ok (n_transactions, offset) =>
    block_loop (Z.to_nat n_transactions) transaction_data offset None
  end.

Module Block.
Record t : Type := Build {
  raw : bytes;
  size : Z;
  height : option Z;
  blk_file : option string
}.

Definition init (raw_data : bytes) (height : option Z)
           (blk_file : option string) : t :=
  Build raw_data (len raw_data) height blk_file.

Definition from_bytes (raw_data : bytes) : t := init raw_data None None.

Definition hash {H : Hashlib} (self : t) : string :=
  hexstring (sha256_2 (take 80 (raw self))).

Definition n_transactions (self : t) : result Z :=
  '(n, _) <- varint (drop 80 (raw self));; Ok n.

(** [list(get_block_transactions(self.raw))]. *)
Definition transactions (self : t) : outcome (list Transaction.t) :=
  match get_block_transactions (raw self) with
  | (txs, None) => Done txs
  | (_, Some e) => Fail e
  end.

Definition header (self : t) : BlockHeader.t :=
  BlockHeader.from_bytes (take 80 (raw self)).
End Block.

(** Parsing [n] transactions one after the other, each from the whole
    remaining buffer. *)
Fixpoint sequential (n : nat) (transaction_data : bytes) (offset : Z)
  : result (list Transaction.t) :=
  match n with
  | O => Ok []
  | S n' =>
    tx <- Transaction.from_bytes (drop offset transaction_data);;
    rest <- sequential n' transaction_data (offset + Transaction.size tx);;
    Ok (tx :: rest)
  end.

(** The widest slice of the retry ladder: 512 MiB. *)
Definition widest_slice : Z := 1024 * 2 ^ 19.

(** A block with the two sample transactions. *)
Definition sample_block : bytes :=
  sample_header ++ [x02] ++ legacy_tx ++ segwit_tx.

(** Blocks that announce more transactions than they hold: one without
    any transaction, one with the first of two. *)
Definition sample_block_empty : bytes := sample_header ++ [x01].
Definition sample_block_short : bytes := sample_header ++ [x02] ++ legacy_tx.

(** ** blockchain.py *)

(** Constant separating blocks in the .blk files. *)
Definition BITCOIN_CONSTANT : bytes := [xf9; xbe; xb4; xd9].

(** The [while offset < (length - 4)] loop of [get_blocks] over the mapped
    file.  Every turn advances [offset] by at least one, so that
    [len raw_data] turns of [fuel] are never used up. *)
Fixpoint get_blocks_loop (fuel : nat) (raw_data : bytes) (offset : Z)
  : generated bytes :=
  match fuel with
  | O => ([], None)
  | S fuel' =>
    if offset <? len raw_data - 4 then
      if bytes_eqb (slice raw_data offset (offset + 4)) BITCOIN_CONSTANT then
        let offset := offset + 4 in
        match unpack_le 4 (slice raw_data offset (offset + 4)) with
        | Raise e => ([], Some (Exn e))
        | Ok size =>
          let offset := offset + (4 + size) in
          let '(rest, e) := get_blocks_loop fuel' raw_data offset in
          (slice raw_data (offset - size) offset :: rest, e)
        end
      else get_blocks_loop fuel' raw_data (offset + 1)
    else ([], None)
  end.

(** [get_blocks] on the content of the block file; [mmap.mmap] refuses an
    empty file. *)
Definition get_blocks (file : bytes) : generated bytes :=
  if len file =? 0
  then ([], Some (Exn (ValueError "cannot mmap an empty file")))
  else get_blocks_loop (Z.to_nat (len file)) file 0.

(** [get_block] on the content of the block file: [seek] refuses a negative
    position, [read] returns the bytes that are left, at most as many as
    asked for. *)
Definition get_block (file : bytes) (offset : Z) : outcome bytes :=
  if offset - 4 <? 0 then Fail (IOError "[Errno 22] Invalid argument")
  else
    obind (lift (unpack_le 4 (slice file (offset - 4) offset)))
          (fun size => Done (slice file offset (offset + size))).

(** The byte of value [n mod 256], and the little-endian encoding of [n] in
    [k] bytes. *)
Definition byte_of (n : Z) : byte :=
  match Byte.of_N (Z.to_N (n mod 256)) with
  | Some b => b
  | None => x00
  end.

Fixpoint le_bytes (k : nat) (n : Z) : bytes :=
  match k with
  | O => []
  | S k' => byte_of n :: le_bytes k' (n / 256)
  end.

(** A block as a block file stores it, and a file of such blocks. *)
Definition frame (block : bytes) : bytes :=
  BITCOIN_CONSTANT ++ le_bytes 4 (len block) ++ block.

Definition framed (blocks : list bytes) : bytes :=
  List.concat (map frame blocks).

(** The position of block number [i] in a file of [blocks]: 8 bytes after
    the start of its frame. *)
Definition data_pos (blocks : list bytes) (i : nat) : Z :=
  len (framed (firstn i blocks)) + 8.

Definition sample_blocks : list bytes := [sample_block; sample_block_short].

(** Whether a script type names one of the templates. *)
Definition is_template (ty : ScriptType) : bool :=
  match ty with
  | unknown | invalid => false
  | _ => true
  end.

(** An output of 0 satoshis paying to the hash [33..33] with the script
    [OP_DUP OP_HASH160 <hash> OP_EQUALVERIFY OP_CHECKSIG]. *)
Definition pay_to_key_hash : TxOutput.t :=
  TxOutput.Build ([x76; xa9; x14] ++ repeat x33 20 ++ [x88; xac]) 34
                 (repeat x00 8).

(** * Results *)

(** ** Lists and slices *)

Lemma len_nonneg {A : Type} (l : list A) : 0 <= len l.
Proof. unfold len. lia. Qed.

Lemma len_nil {A : Type} : len (@nil A) = 0.
Proof. reflexivity. Qed.

Lemma len_cons {A : Type} (x : A) (l : list A) : len (x :: l) = len l + 1.
Proof. unfold len. simpl List.length. lia. Qed.

Lemma len_app {A : Type} (l1 l2 : list A) : len (l1 ++ l2) = len l1 + len l2.
Proof. unfold len. rewrite length_app. lia. Qed.

Lemma len_take {A : Type} (n : Z) (l : list A) :
  0 <= n -> len (take n l) = Z.min n (len l).
Proof. intros Hn. unfold len, take. rewrite length_firstn. lia. Qed.

Lemma len_drop {A : Type} (n : Z) (l : list A) :
  0 <= n -> len (drop n l) = Z.max 0 (len l - n).
Proof. intros Hn. unfold len, drop. rewrite length_skipn. lia. Qed.

Lemma len_slice {A : Type} (l : list A) (a b : Z) :
  0 <= a <= b -> b <= len l -> len (slice l a b) = b - a.
Proof.
  intros Hab Hb. unfold slice.
  rewrite len_take by lia. rewrite len_drop by lia. lia.
Qed.

Lemma byte_val_range (b : byte) : 0 <= byte_val b < 256.
Proof. destruct b; vm_compute; split; congruence. Qed.

Lemma le_value_nonneg (data : bytes) : 0 <= le_value data.
Proof.
  induction data as [|b rest IH]; cbn [le_value]; [lia|].
  pose proof (byte_val_range b). lia.
Qed.

Lemma index_0_inv {A : Type} (l : list A) (x : A) :
  index l 0 = Ok x -> exists rest, l = x :: rest.
Proof.
  destruct l as [|y rest]; cbn; [discriminate|].
  intros [= ->]. now exists rest.
Qed.

(** ** utils.py: the compact-size varint *)

Lemma varint_small (b : byte) (rest : bytes) :
  byte_val b < 253 -> varint (b :: rest) = Ok (byte_val b, 1).
Proof.
  intros Hb. pose proof (byte_val_range b) as Hr. unfold varint.
  destruct (Z.gtb_spec (byte_val b) 255); [lia|].
  destruct (Z.ltb_spec (byte_val b) 253); [reflexivity|lia].
Qed.

Lemma varint_wide (b : byte) (rest : bytes) (f : format) :
  byte_val b = match f with fmt_H => 253 | fmt_I => 254 | fmt_Q => 255 end ->
  calcsize f + 1 <= len (b :: rest) ->
  varint (b :: rest)
  = Ok (le_value (slice (b :: rest) 1 (calcsize f + 1)), calcsize f + 1).
Proof.
  intros Hb Hlen.
  assert (Hs : (len (slice (b :: rest) 1 (calcsize f + 1)) =? calcsize f) = true).
  { apply Z.eqb_eq. rewrite len_slice; destruct f; cbn [calcsize] in *; lia. }
  unfold varint. rewrite Hb.
  destruct f; cbn [calcsize] in Hs |- *.
  - change (253 >? 255) with false. change (253 <? 253) with false.
    change (253 =? 253) with true. cbn [bind calcsize].
    unfold unpack_le. rewrite Hs. reflexivity.
  - change (254 >? 255) with false. change (254 <? 253) with false.
    change (254 =? 253) with false. change (254 =? 254) with true.
    cbn [bind calcsize]. unfold unpack_le. rewrite Hs. reflexivity.
  - change (255 >? 255) with false. change (255 <? 253) with false.
    change (255 =? 253) with false. change (255 =? 254) with false.
    change (255 =? 255) with true.
    cbn [bind calcsize]. unfold unpack_le. rewrite Hs. reflexivity.
Qed.

(** C3. The compact-size decoder: a first byte [b < 0xfd] is the value,
    one byte consumed; [0xfd], [0xfe] and [0xff] announce the next 2, 4 and
    8 bytes, read little-endian, with 3, 5 and 9 bytes consumed; the four
    boundary inputs of scenario S3 decode as listed. *)
Theorem varint_compact_size :
  (forall (data : bytes) (b : byte),
      index data 0 = Ok b ->
      (byte_val b < 253 -> varint data = Ok (byte_val b, 1)) /\
      (byte_val b = 253 -> 3 <= len data ->
       varint data = Ok (le_value (slice data 1 3), 3)) /\
      (byte_val b = 254 -> 5 <= len data ->
       varint data = Ok (le_value (slice data 1 5), 5)) /\
      (byte_val b = 255 -> 9 <= len data ->
       varint data = Ok (le_value (slice data 1 9), 9))) /\
  varint [xfc] = Ok (252, 1) /\
  varint [xfd; xfd; x00] = Ok (253, 3) /\
  varint [xfe; x00; x00; x01; x00] = Ok (65536, 5) /\
  varint [xff; x00; x00; x00; x00; x01; x00; x00; x00] = Ok (2 ^ 32, 9).
Proof.
  split; [|repeat split; reflexivity].
  intros data b Hidx. apply index_0_inv in Hidx as [rest ->].
  repeat split.
  - apply varint_small.
  - intros Hb Hlen. exact (varint_wide b rest fmt_H Hb Hlen).
  - intros Hb Hlen. exact (varint_wide b rest fmt_I Hb Hlen).
  - intros Hb Hlen. exact (varint_wide b rest fmt_Q Hb Hlen).
Qed.

Lemma varint_compact_size_witness :
  index [xfd; x34; x12; xaa] 0 = Ok xfd /\
  varint [xfd; x34; x12; xaa] = Ok (4660, 3).
Proof.
  split; [reflexivity|].
  destruct (proj1 varint_compact_size [xfd; x34; x12; xaa] xfd eq_refl)
    as (_ & H253 & _).
  apply H253; [reflexivity | vm_compute; discriminate].
Defined.

(** ** index.py: the index-db varint *)

Lemma leveldb_loop_terminated (cont : bytes) :
  forall (last : byte) (rest : bytes) (idx pos : Z),
    forallb high_bit cont = true ->
    high_bit last = false ->
    leveldb_loop (cont ++ last :: rest) idx pos
    = Ok (varint_step (varint_continue idx cont) last, pos + len cont + 1).
Proof.
  induction cont as [|d cont IH]; intros last rest idx pos Hcont Hlast.
  - cbn [app leveldb_loop varint_continue fold_left].
    unfold high_bit in Hlast. apply negb_false_iff in Hlast.
    rewrite Hlast. rewrite len_nil. unfold varint_step. f_equal. f_equal. lia.
  - cbn [forallb] in Hcont. apply andb_true_iff in Hcont as [Hd Hcont].
    cbn [app leveldb_loop].
    unfold high_bit in Hd. apply negb_true_iff in Hd. rewrite Hd.
    rewrite IH by assumption.
    rewrite len_cons. cbn [varint_continue fold_left]. unfold varint_step.
    f_equal. f_equal. lia.
Qed.

(** C4. On a buffer that starts with a terminated index-db varint (bytes
    with the high bit set, then one with it clear), the decoder returns the
    value of the iteration [n := (n << 7) | (d & 0x7f)], with [n := n + 1]
    after every byte whose high bit is set, together with the number of
    bytes read; [b9 40] decodes to [(7488, 2)]. *)
Theorem leveldb_varint_terminated :
  (forall (cont : bytes) (last : byte) (rest : bytes),
      forallb high_bit cont = true ->
      high_bit last = false ->
      _leveldb_varint (cont ++ last :: rest)
      = Ok (varint_step (varint_continue 0 cont) last, len cont + 1)) /\
  _leveldb_varint [xb9; x40] = Ok (7488, 2).
Proof.
  split; [|reflexivity].
  intros cont last rest Hcont Hlast. unfold _leveldb_varint.
  rewrite leveldb_loop_terminated by assumption. f_equal.
Qed.

Lemma leveldb_varint_terminated_witness :
  _leveldb_varint ([x80; xff] ++ x7f :: [x01])
  = Ok (varint_step (varint_continue 0 [x80; xff]) x7f, 3).
Proof.
  apply (proj1 leveldb_varint_terminated [x80; xff] x7f [x01]); reflexivity.
Defined.

(** ** script.py: the multisig recognizer *)

Lemma op_eq_true (op : operation) (code : Z) :
  op_eq op code = true <-> op = OpInt code.
Proof.
  destruct op as [n|d]; cbn [op_eq].
  - rewrite Z.eqb_eq. split; [now intros ->|now intros [= ->]].
  - split; discriminate.
Qed.

Lemma is_public_key_spec (op : operation) :
  is_public_key op = true <-> public_key_push op.
Proof.
  unfold public_key_push. split.
  - destruct op as [n|[|b rest]]; try discriminate.
    intros Hpk. exists b, rest. split; [reflexivity|].
    cbn [is_public_key] in Hpk.
    apply orb_true_iff in Hpk as [Hpk|Hpk];
      apply andb_true_iff in Hpk as [Hlen Hb]; apply Z.eqb_eq in Hlen.
    + right. apply Z.eqb_eq in Hb. now split.
    + left. split; [exact Hlen|].
      apply orb_true_iff in Hb as [Hb|Hb]; apply Z.eqb_eq in Hb; auto.
  - intros (b & rest & -> & [[Hlen Hb]|[Hlen Hb]]); cbn [is_public_key];
      rewrite Hlen.
    + apply orb_true_iff. right. apply andb_true_iff. split; [reflexivity|].
      apply orb_true_iff. destruct Hb as [->| ->]; auto.
    + rewrite Hb. reflexivity.
Qed.

Lemma multisig_keys_true (ops : list operation) (n : nat) :
  forall i : Z,
    Script.multisig_keys ops n i = Ok true <->
    (forall j, 0 <= j < Z.of_nat n ->
       exists op, index ops (1 + (i + j)) = Ok op /\ public_key_push op).
Proof.
  induction n as [|n IH]; intros i.
  - cbn [Script.multisig_keys]. split; [intros _ j Hj; lia|reflexivity].
  - cbn [Script.multisig_keys]. split.
    + intros Hrun j Hj.
      destruct (index ops (1 + i)) as [o|e] eqn:Ho; [|discriminate].
      cbn [bind] in Hrun.
      destruct (is_public_key o) eqn:Hpk; [|discriminate].
      cbn [negb] in Hrun.
      destruct (Z.eq_dec j 0) as [->|Hne].
      * exists o. rewrite Z.add_0_r. split; [exact Ho|].
        now apply is_public_key_spec.
      * apply IH with (j := j - 1) in Hrun; [|lia].
        replace (1 + (i + 1 + (j - 1))) with (1 + (i + j)) in Hrun by lia.
        exact Hrun.
    + intros Hall.
      destruct (Hall 0 ltac:(lia)) as (o & Hidx & Hpk).
      rewrite Z.add_0_r in Hidx. rewrite Hidx. cbn [bind].
      apply is_public_key_spec in Hpk. rewrite Hpk. cbn [negb].
      apply IH. intros j Hj.
      destruct (Hall (j + 1) ltac:(lia)) as (o' & Hidx' & Hpk').
      exists o'.
      replace (1 + (i + 1 + j)) with (1 + (i + (j + 1))) by lia.
      now split.
Qed.

Lemma is_multisig_ops_true (ops : list operation) :
  Script.is_multisig_ops ops = Ok true <-> multisig_rule ops.
Proof.
  unfold Script.is_multisig_ops, multisig_rule. split.
  - intros Hrun.
    destruct (Z.ltb_spec (len ops) 4) as [|Hlen]; [discriminate|].
    split; [exact Hlen|].
    destruct (index ops 0) as [[m|d]|e] eqn:H0; cbn [bind] in Hrun;
      try discriminate.
    destruct (Script.multisig_keys ops (Z.to_nat m) 0) as [[|]|e] eqn:Hkeys;
      cbn [bind negb] in Hrun; try discriminate.
    destruct (index_back ops 2) as [[n|d]|e] eqn:H2; cbn [bind] in Hrun;
      try discriminate.
    destruct (index_back ops 1) as [last|e] eqn:H1; cbn [bind] in Hrun;
      try discriminate.
    destruct (Z.ltb_spec n m) as [|Hnm]; cbn [negb orb] in Hrun;
      try discriminate.
    destruct (op_eq last OP_CHECKMULTISIG) eqn:Hlast; cbn [negb] in Hrun;
      try discriminate.
    apply op_eq_true in Hlast. subst last.
    exists m, n. repeat split; try assumption.
    intros i Hi.
    apply (proj1 (multisig_keys_true ops (Z.to_nat m) 0) Hkeys i). lia.
  - intros (Hlen & m & n & H0 & Hkeys & H2 & Hmn & H1).
    destruct (Z.ltb_spec (len ops) 4) as [|_]; [lia|].
    rewrite H0. cbn [bind].
    assert (Hk : Script.multisig_keys ops (Z.to_nat m) 0 = Ok true).
    { apply multisig_keys_true. intros j Hj. apply Hkeys. lia. }
    rewrite Hk. cbn [bind negb]. rewrite H2. cbn [bind]. rewrite H1.
    cbn [bind].
    destruct (Z.ltb_spec n m) as [|_]; [lia|].
    cbn [negb orb op_eq]. rewrite Z.eqb_refl. reflexivity.
Qed.

(** C7. [is_multisig] returns true exactly when the operations list has at
    least 4 items, [op[0]] is an integer M, the M items [op[1..1+M]] are
    public-key pushes (33 bytes with prefix 0x02/0x03, or 65 bytes with
    prefix 0x04), [op[-2]] is an integer N with N >= M, and [op[-1]] is
    OP_CHECKMULTISIG.  (When the rule fails the call returns false or
    raises; it never returns true.) *)
Theorem is_multisig_rule :
  forall (L : Bitcoinlib) (script : Script.t),
    Script.is_multisig script = Ok true
    <-> multisig_rule (Script.operations script).
Proof.
  intros L script. unfold Script.is_multisig. apply is_multisig_ops_true.
Qed.

(** The 1-of-2 script satisfies the rule, and [is_multisig] accepts it. *)
Lemma is_multisig_rule_witness :
  @Script.is_multisig bitcoinlib (TxOutput.script one_of_two) = Ok true /\
  multisig_rule (@Script.operations bitcoinlib (TxOutput.script one_of_two)).
Proof.
  split; [reflexivity|].
  apply (proj1 (is_multisig_rule bitcoinlib (TxOutput.script one_of_two))).
  reflexivity.
Defined.

(** ** output.py: classification and addresses *)

Lemma index_short {A : Type} (l : list A) (i : Z) :
  len l <= i -> index l i = Raise IndexError.
Proof.
  intros Hi. unfold index.
  destruct (Z.ltb_spec i 0); [reflexivity|].
  destruct (nth_error l (Z.to_nat i)) eqn:Hnth; [|reflexivity].
  assert (Hn : nth_error l (Z.to_nat i) <> None) by congruence.
  apply nth_error_Some in Hn. unfold len in Hi. lia.
Qed.

Lemma is_pubkeyhash_short (raw_len : Z) (ops : list operation) :
  len ops < 2 -> Script.is_pubkeyhash_ops raw_len ops = Raise IndexError.
Proof.
  intros Hlen. unfold Script.is_pubkeyhash_ops.
  destruct ops as [|o0 [|o1 ops]].
  - reflexivity.
  - reflexivity.
  - rewrite !len_cons in Hlen. pose proof (len_nonneg ops). lia.
Qed.

(** C9. [script_type] is not total: on an output whose script is valid and
    decodes to fewer than 2 operations, [is_pubkeyhash] indexes
    [operations[0]] and [operations[1]] without a length guard, so
    [script_type] raises [IndexError] and returns no type; on the empty
    list [is_pubkey] raises as well. *)
Theorem script_type_short_script :
  forall (L : Bitcoinlib) (out : TxOutput.t) (ops : list operation),
    Script.is_valid (TxOutput.script out) = true ->
    cscript_iter (TxOutput._script_raw out) = Some ops ->
    len ops < 2 ->
    Script.is_pubkeyhash (TxOutput.script out) = Raise IndexError /\
    TxOutput.script_type out = Raise IndexError /\
    (ops = [] -> Script.is_pubkey (TxOutput.script out) = Raise IndexError).
Proof.
  intros L out ops Hvalid Hiter Hlen.
  assert (Hops : Script.operations (TxOutput.script out) = ops).
  { unfold Script.operations, TxOutput.script. cbn [Script.raw].
    now rewrite Hiter. }
  assert (Hpkh : Script.is_pubkeyhash (TxOutput.script out) = Raise IndexError).
  { unfold Script.is_pubkeyhash. rewrite Hops.
    now apply is_pubkeyhash_short. }
  repeat split.
  - exact Hpkh.
  - unfold TxOutput.script_type. rewrite Hvalid, Hpkh. reflexivity.
  - intros ->. unfold Script.is_pubkey. rewrite Hops. reflexivity.
Qed.

Lemma script_type_short_script_witness :
  exists out : TxOutput.t,
    TxOutput.from_bytes empty_script_output = Ok out /\
    @TxOutput.script_type bitcoinlib out = Raise IndexError.
Proof.
  eexists. split; [reflexivity|].
  apply (script_type_short_script bitcoinlib _ []);
    [reflexivity | reflexivity | vm_compute; reflexivity].
Defined.

Lemma index_Ok {A : Type} (l : list A) (i : Z) (x : A) :
  index l i = Ok x <-> 0 <= i /\ nth_error l (Z.to_nat i) = Some x.
Proof.
  unfold index. destruct (Z.ltb_spec i 0) as [Hneg|Hpos].
  - split; [discriminate|lia].
  - destruct (nth_error l (Z.to_nat i)) as [y|]; split.
    + intros [= ->]. now split.
    + intros [_ [= ->]]. reflexivity.
    + discriminate.
    + intros [_ ?]. discriminate.
Qed.

Lemma index_in_range {A : Type} (l : list A) (i : Z) (x : A) :
  index l i = Ok x -> 0 <= i < len l.
Proof.
  intros Hidx. apply index_Ok in Hidx as [Hpos Hnth].
  assert (Hn : nth_error l (Z.to_nat i) <> None) by congruence.
  apply nth_error_Some in Hn. unfold len. lia.
Qed.

Lemma pyslice_from_1 {A : Type} (l : list A) (n : Z) :
  1 <= len l -> 0 <= n ->
  TxOutput.pyslice l 1 (1 + n) = firstn (Z.to_nat n) (skipn 1 l).
Proof.
  intros Hlen Hn. unfold TxOutput.pyslice, TxOutput.norm_bound, slice, take, drop.
  destruct (Z.ltb_spec 1 0); [lia|].
  destruct (Z.ltb_spec (1 + n) 0); [lia|].
  replace (Z.min 1 (len l)) with 1 by lia.
  change (Z.to_nat 1) with 1%nat.
  destruct (Z.le_gt_cases (1 + n) (len l)) as [Hin|Hout].
  - rewrite Z.min_l by lia. f_equal. lia.
  - rewrite Z.min_r by lia.
    rewrite !firstn_all2; [reflexivity| |];
      rewrite length_skipn; unfold len in *; lia.
Qed.

Lemma index_pyslice {A : Type} (l : list A) (n i : Z) (x : A) :
  0 <= i < n ->
  index l (1 + i) = Ok x ->
  index (TxOutput.pyslice l 1 (1 + n)) i = Ok x.
Proof.
  intros Hi Hidx. pose proof (index_in_range _ _ _ Hidx) as Hr.
  rewrite pyslice_from_1 by lia.
  apply index_Ok in Hidx as [_ Hnth]. apply index_Ok. split; [lia|].
  rewrite nth_error_firstn.
  destruct (Nat.ltb_spec (Z.to_nat i) (Z.to_nat n)); [|lia].
  rewrite nth_error_skipn.
  replace (1 + Z.to_nat i)%nat with (Z.to_nat (1 + i)) by lia.
  exact Hnth.
Qed.

Lemma index_map {A B : Type} (f : A -> B) (l : list A) (i : Z) (x : A) :
  index l i = Ok x -> index (map f l) i = Ok (f x).
Proof.
  intros Hidx. apply index_Ok in Hidx as [Hpos Hnth]. apply index_Ok.
  split; [exact Hpos|]. rewrite nth_error_map, Hnth. reflexivity.
Qed.

Lemma script_type_multisig {L : Bitcoinlib} (out : TxOutput.t) :
  TxOutput.script_type out = Ok multisig ->
  Script.is_multisig (TxOutput.script out) = Ok true.
Proof.
  unfold TxOutput.script_type. intros Hty.
  destruct (Script.is_valid (TxOutput.script out)); cbn [negb] in Hty;
    [|discriminate].
  destruct (Script.is_pubkeyhash (TxOutput.script out)) as [[|]|e];
    cbn [bind] in Hty; try discriminate.
  destruct (Script.is_pubkey (TxOutput.script out)) as [[|]|e];
    cbn [bind] in Hty; try discriminate.
  destruct (Script.is_p2sh (TxOutput.script out)); try discriminate.
  destruct (Script.is_multisig (TxOutput.script out)) as [[|]|e];
    cbn [bind] in Hty; try discriminate; [reflexivity|].
  destruct (Script.is_return (TxOutput.script out)); try discriminate.
  destruct (Script.is_p2wpkh (TxOutput.script out)); try discriminate.
  destruct (Script.is_p2wsh (TxOutput.script out)); discriminate.
Qed.

Lemma pubkey_address {H : Hashlib} {L : Bitcoinlib} (key : bytes) :
  Address.address (Address.from_public_key (OpBytes key))
  = Ok (base58_encode
          ([x00] ++ hash160 key ++ take 4 (sha256_2 ([x00] ++ hash160 key)))).
Proof. reflexivity. Qed.

(** C8, as the code has it.  For an output classified as multisig,
    [addresses] holds one address per operation of the slice
    [operations[1:1+N]], where N is the integer at [operations[-2]], each
    built by [Address.from_public_key].  With M the integer at
    [operations[0]] (M <= N), the first M of them come from public-key
    pushes and encode as base58-check of HASH160(key) with version byte
    0x00.  The list is non-empty as soon as N >= 1. *)
Theorem multisig_addresses :
  forall (H : Hashlib) (L : Bitcoinlib) (out : TxOutput.t),
    TxOutput.script_type out = Ok multisig ->
    exists (M N : Z) (addrs : list Address.t),
      let ops := Script.operations (TxOutput.script out) in
      index ops 0 = Ok (OpInt M) /\
      index_back ops 2 = Ok (OpInt N) /\
      M <= N /\
      TxOutput.addresses out = Ok addrs /\
      addrs = map Address.from_public_key (TxOutput.pyslice ops 1 (1 + N)) /\
      (forall i, 0 <= i < M ->
         exists key : bytes,
           index ops (1 + i) = Ok (OpBytes key) /\
           public_key_push (OpBytes key) /\
           index addrs i = Ok (Address.from_public_key (OpBytes key)) /\
           Address.address (Address.from_public_key (OpBytes key))
           = Ok (base58_encode
                   ([x00] ++ hash160 key
                    ++ take 4 (sha256_2 ([x00] ++ hash160 key))))) /\
      (1 <= N -> addrs <> []).
Proof.
  intros H L out Hty.
  pose proof (script_type_multisig out Hty) as Hms.
  unfold Script.is_multisig in Hms. apply is_multisig_ops_true in Hms.
  destruct Hms as (Hlen & M & N & H0 & Hkeys & H2 & HMN & H1).
  exists M, N,
    (map Address.from_public_key
         (TxOutput.pyslice (Script.operations (TxOutput.script out)) 1 (1 + N))).
  cbv zeta. repeat split; try assumption.
  - unfold TxOutput.addresses. rewrite Hty. cbn [bind]. rewrite H2.
    reflexivity.
  - intros i Hi. destruct (Hkeys i Hi) as (op & Hidx & Hpk).
    destruct Hpk as (b & rest & -> & Hshape).
    exists (b :: rest). repeat split.
    + exact Hidx.
    + exists b, rest. now split.
    + apply index_map. apply index_pyslice; [lia|exact Hidx].
  - intros HN Hnil.
    apply (f_equal (@List.length _)) in Hnil.
    rewrite length_map, pyslice_from_1 in Hnil by lia.
    rewrite length_firstn, length_skipn in Hnil.
    unfold len in Hlen. cbn [List.length] in Hnil. lia.
Qed.

Lemma multisig_addresses_witness :
  TxOutput.from_bytes one_of_two_output = Ok one_of_two /\
  exists (M N : Z) (addrs : list Address.t),
    let ops := @Script.operations bitcoinlib (TxOutput.script one_of_two) in
    index ops 0 = Ok (OpInt M) /\
    index_back ops 2 = Ok (OpInt N) /\
    M <= N /\
    @TxOutput.addresses bitcoinlib one_of_two = Ok addrs /\
    addrs = map Address.from_public_key (TxOutput.pyslice ops 1 (1 + N)) /\
    (forall i, 0 <= i < M ->
       exists key : bytes,
         index ops (1 + i) = Ok (OpBytes key) /\
         public_key_push (OpBytes key) /\
         index addrs i = Ok (Address.from_public_key (OpBytes key)) /\
         @Address.address plain_hashlib bitcoinlib
           (Address.from_public_key (OpBytes key))
         = Ok (@base58_encode bitcoinlib
                 ([x00] ++ @hash160 plain_hashlib key
                  ++ take 4 (@sha256_2 plain_hashlib
                               ([x00] ++ @hash160 plain_hashlib key))))) /\
    (1 <= N -> addrs <> []).
Proof.
  split; [reflexivity|].
  apply (multisig_addresses plain_hashlib bitcoinlib one_of_two).
  reflexivity.
Defined.

(** The 1-of-2 output is classified as multisig and has two addresses, one
    per key up to N = 2, not the single address of slots [1..1+M]. *)
Lemma addresses_per_key_counterexample :
  TxOutput.from_bytes one_of_two_output = Ok one_of_two /\
  ~ @addresses_per_key_claim bitcoinlib one_of_two.
Proof.
  split; [reflexivity|].
  intros Hclaim. destruct (Hclaim eq_refl) as (M & addrs & H0 & Haddrs & Heq & _).
  cbv zeta in H0, Haddrs, Heq.
  vm_compute in H0. injection H0 as <-.
  vm_compute in Haddrs. injection Haddrs as <-.
  vm_compute in Heq. discriminate Heq.
Qed.

(** A 0-of-0 script is classified as multisig and has no address at all. *)
Lemma multisig_addresses_may_be_empty :
  TxOutput.from_bytes zero_of_zero_output = Ok zero_of_zero /\
  @TxOutput.script_type bitcoinlib zero_of_zero = Ok multisig /\
  @TxOutput.addresses bitcoinlib zero_of_zero = Ok [].
Proof. repeat split; reflexivity. Qed.

(** ** Reading from an extended buffer *)

Lemma drop_app {A : Type} (d t : list A) (o : Z) :
  o <= len d -> drop o (d ++ t) = drop o d ++ t.
Proof.
  intros Ho. unfold drop. rewrite skipn_app.
  replace (Z.to_nat o - List.length d)%nat with 0%nat
    by (unfold len in Ho; lia).
  reflexivity.
Qed.

Lemma take_app {A : Type} (d t : list A) (n : Z) :
  n <= len d -> take n (d ++ t) = take n d.
Proof.
  intros Hn. unfold take. rewrite firstn_app.
  replace (Z.to_nat n - List.length d)%nat with 0%nat
    by (unfold len in Hn; lia).
  cbn [firstn]. apply app_nil_r.
Qed.

Lemma slice_app {A : Type} (d t : list A) (a b : Z) :
  0 <= a -> b <= len d -> slice (d ++ t) a b = slice d a b.
Proof.
  intros Ha Hb. unfold slice.
  destruct (Z.le_gt_cases a (len d)) as [Hin|Hout].
  - rewrite drop_app by exact Hin. apply take_app.
    rewrite len_drop by exact Ha. lia.
  - unfold take. replace (Z.to_nat (b - a)) with 0%nat by lia.
    reflexivity.
Qed.

Lemma drop_drop {A : Type} (d : list A) (a b : Z) :
  0 <= a -> 0 <= b -> drop a (drop b d) = drop (b + a) d.
Proof.
  intros Ha Hb. unfold drop. rewrite skipn_skipn. f_equal. lia.
Qed.

Lemma varint_bounds (d : bytes) (v k : Z) :
  varint d = Ok (v, k) -> 0 <= v /\ 1 <= k <= len d.
Proof.
  destruct d as [|b rest]; [discriminate|].
  unfold varint. pose proof (byte_val_range b) as Hr.
  destruct (Z.gtb_spec (byte_val b) 255); [discriminate|].
  destruct (Z.ltb_spec (byte_val b) 253).
  - intros [= <- <-]. rewrite len_cons. pose proof (len_nonneg rest). lia.
  - intros Hrun.
    assert (Hw : forall f,
               (v0 <- unpack_le (calcsize f) (slice (b :: rest) 1 (calcsize f + 1));;
                Ok (v0, calcsize f + 1)) = Ok (v, k) ->
               0 <= v /\ 1 <= k <= len (b :: rest)).
    { intros f. unfold unpack_le.
      destruct (Z.eqb_spec (len (slice (b :: rest) 1 (calcsize f + 1)))
                           (calcsize f)) as [Hs|]; [|discriminate].
      cbn [bind]. intros [= <- <-]. split; [apply le_value_nonneg|].
      unfold slice in Hs. rewrite len_take, len_drop in Hs
        by (destruct f; cbn [calcsize]; lia).
      destruct f; cbn [calcsize] in *; lia. }
    destruct (byte_val b =? 253); [exact (Hw fmt_H Hrun)|].
    destruct (byte_val b =? 254); [exact (Hw fmt_I Hrun)|].
    destruct (byte_val b =? 255); [exact (Hw fmt_Q Hrun)|discriminate].
Qed.

Lemma varint_app (d t : bytes) (r : Z * Z) :
  varint d = Ok r -> varint (d ++ t) = Ok r.
Proof.
  destruct r as [v k]. intros Hrun.
  pose proof (varint_bounds _ _ _ Hrun) as [_ Hk].
  destruct d as [|b rest]; [discriminate|].
  revert Hrun. cbn [app]. unfold varint.
  destruct (byte_val b >? 255); [discriminate|].
  destruct (byte_val b <? 253); [trivial|].
  destruct (if byte_val b =? 253 then Ok fmt_H
            else if byte_val b =? 254 then Ok fmt_I
            else if byte_val b =? 255 then Ok fmt_Q
            else Raise (ValueError "Unknown format value.")) as [f|e];
    [|discriminate].
  cbn [bind]. intros Hrun.
  assert (Hlen : calcsize f + 1 <= len (b :: rest)).
  { unfold unpack_le in Hrun.
    destruct (Z.eqb_spec (len (slice (b :: rest) 1 (calcsize f + 1)))
                         (calcsize f)) as [Hs|]; [|discriminate].
    unfold slice in Hs. rewrite len_take, len_drop in Hs
      by (destruct f; cbn [calcsize]; lia).
    destruct f; cbn [calcsize] in *; lia. }
  change (b :: rest ++ t) with ((b :: rest) ++ t).
  rewrite slice_app by lia. exact Hrun.
Qed.

(** A compact-size read at offset [o] stays inside the buffer and reads
    the same from any extension. *)
Lemma varint_at (d t : bytes) (o v k : Z) :
  0 <= o ->
  varint (drop o d) = Ok (v, k) ->
  0 <= v /\ 1 <= k /\ o + k <= len d /\
  varint (drop o (d ++ t)) = Ok (v, k).
Proof.
  intros Ho Hrun. pose proof (varint_bounds _ _ _ Hrun) as (Hv & Hk1 & Hk2).
  rewrite len_drop in Hk2 by exact Ho.
  repeat split; try lia.
  rewrite drop_app by lia. now apply varint_app.
Qed.

Lemma Ok_inj {A : Type} (a b : A) : Ok a = Ok b -> a = b.
Proof. now intros [= ->]. Qed.

Lemma input_at (d t : bytes) (o : Z) (inp : TxInput.t) :
  0 <= o ->
  TxInput.from_bytes (drop o d) = Ok inp ->
  41 <= TxInput.size inp /\
  (o + TxInput.size inp <= len d ->
   TxInput.from_bytes (drop o (d ++ t)) = Ok inp).
Proof.
  intros Ho. unfold TxInput.from_bytes.
  rewrite !drop_drop by lia.
  destruct (varint (drop (o + 36) d)) as [[L k]|e] eqn:Hv; [|discriminate].
  cbn [bind]. intros Heq. apply Ok_inj in Heq. subst inp.
  unfold TxInput.size. cbn [TxInput._script_start TxInput._script_length].
  destruct (varint_at d t (o + 36) L k ltac:(lia) Hv) as (HL & Hk & Hin & Hext).
  split; [lia|]. intros Hsize.
  rewrite Hext. cbn [bind]. do 2 f_equal.
  rewrite drop_app by lia. apply take_app. rewrite len_drop by lia. lia.
Qed.

Lemma output_at (d t : bytes) (o : Z) (out : TxOutput.t) :
  0 <= o ->
  TxOutput.from_bytes (drop o d) = Ok out ->
  9 <= TxOutput.size out /\
  (o + TxOutput.size out <= len d ->
   TxOutput.from_bytes (drop o (d ++ t)) = Ok out).
Proof.
  intros Ho. unfold TxOutput.from_bytes.
  rewrite !drop_drop by lia.
  destruct (varint (drop (o + 8) d)) as [[L k]|e] eqn:Hv; [|discriminate].
  cbn [bind]. intros Heq. apply Ok_inj in Heq. subst out. cbn [TxOutput.size].
  destruct (varint_at d t (o + 8) L k ltac:(lia) Hv) as (HL & Hk & Hin & Hext).
  split; [lia|]. intros Hsize.
  rewrite Hext. cbn [bind]. f_equal.
  rewrite drop_app by lia.
  rewrite slice_app by (try rewrite len_drop by lia; lia).
  rewrite take_app by (rewrite len_drop by lia; lia).
  reflexivity.
Qed.

Lemma read_inputs_at (d t : bytes) (n : nat) :
  forall (o : Z) (acc ins : list TxInput.t) (o' : Z),
    0 <= o ->
    Transaction.read_inputs n d o acc = Ok (ins, o') ->
    o <= o' /\
    (o' <= len d -> Transaction.read_inputs n (d ++ t) o acc = Ok (ins, o')).
Proof.
  induction n as [|n IH]; intros o acc ins o' Ho; cbn [Transaction.read_inputs].
  - intros [= <- <-]. split; [lia|reflexivity].
  - destruct (TxInput.from_bytes (drop o d)) as [inp|e] eqn:Hin; [|discriminate].
    cbn [bind]. intros Hrest.
    destruct (input_at d t o inp Ho Hin) as [Hsz Hext].
    assert (Ho' : 0 <= o + TxInput.size inp) by lia.
    destruct (IH _ _ _ _ Ho' Hrest) as [Hmono Hrest'].
    split; [lia|]. intros Hend.
    rewrite Hext by lia. cbn [bind]. now apply Hrest'.
Qed.

Lemma read_outputs_at (d t : bytes) (n : nat) :
  forall (o : Z) (acc outs : list TxOutput.t) (o' : Z),
    0 <= o ->
    Transaction.read_outputs n d o acc = Ok (outs, o') ->
    o <= o' /\
    (o' <= len d -> Transaction.read_outputs n (d ++ t) o acc = Ok (outs, o')).
Proof.
  induction n as [|n IH]; intros o acc outs o' Ho; cbn [Transaction.read_outputs].
  - intros [= <- <-]. split; [lia|reflexivity].
  - destruct (TxOutput.from_bytes (drop o d)) as [out|e] eqn:Hout; [|discriminate].
    cbn [bind]. intros Hrest.
    destruct (output_at d t o out Ho Hout) as [Hsz Hext].
    assert (Ho' : 0 <= o + TxOutput.size out) by lia.
    destruct (IH _ _ _ _ Ho' Hrest) as [Hmono Hrest'].
    split; [lia|]. intros Hend.
    rewrite Hext by lia. cbn [bind]. now apply Hrest'.
Qed.

Lemma read_stack_at (d t : bytes) (n : nat) :
  forall (o : Z) (_in _in' : TxInput.t) (o' : Z),
    0 <= o ->
    Transaction.read_stack n d o _in = Ok (_in', o') ->
    o <= o' /\
    (o' <= len d -> Transaction.read_stack n (d ++ t) o _in = Ok (_in', o')).
Proof.
  induction n as [|n IH]; intros o _in _in' o' Ho; cbn [Transaction.read_stack].
  - intros [= <- <-]. split; [lia|reflexivity].
  - destruct (varint (drop o d)) as [[cl k]|e] eqn:Hv; [|discriminate].
    cbn [bind]. intros Hrest.
    destruct (varint_at d t o cl k Ho Hv) as (Hcl & Hk & Hin & Hext).
    assert (Ho' : 0 <= o + k + cl) by lia.
    destruct (IH _ _ _ _ Ho' Hrest) as [Hmono Hrest'].
    split; [lia|]. intros Hend.
    rewrite Hext. cbn [bind]. rewrite slice_app by lia. now apply Hrest'.
Qed.

Lemma read_witnesses_at (d t : bytes) (ins : list TxInput.t) :
  forall (o : Z) (ins' : list TxInput.t) (o' : Z),
    0 <= o ->
    Transaction.read_witnesses ins d o = Ok (ins', o') ->
    o <= o' /\
    (o' <= len d -> Transaction.read_witnesses ins (d ++ t) o = Ok (ins', o')).
Proof.
  induction ins as [|_in rest IH]; intros o ins' o' Ho;
    cbn [Transaction.read_witnesses].
  - intros [= <- <-]. split; [lia|reflexivity].
  - destruct (varint (drop o d)) as [[wn k]|e] eqn:Hv; [|discriminate].
    cbn [bind].
    destruct (Transaction.read_stack (Z.to_nat wn) d (o + k) _in)
      as [[_in' o1]|e] eqn:Hstack; [|discriminate].
    cbn [bind].
    destruct (Transaction.read_witnesses rest d o1) as [[rest' o2]|e] eqn:Hrest;
      [|discriminate].
    cbn [bind]. intros [= <- <-].
    destruct (varint_at d t o wn k Ho Hv) as (Hwn & Hk & Hin & Hext).
    assert (Ho1 : 0 <= o + k) by lia.
    destruct (read_stack_at d t _ _ _ _ _ Ho1 Hstack) as [Hm1 Hstack'].
    assert (Ho2 : 0 <= o1) by lia.
    destruct (IH _ _ _ Ho2 Hrest) as [Hm2 Hrest'].
    split; [lia|]. intros Hend.
    rewrite Hext. cbn [bind]. rewrite Hstack' by lia. cbn [bind].
    rewrite Hrest' by lia. reflexivity.
Qed.

(** ** transaction.py *)

(** The walk over the fields only moves forward, records the offset before
    the witnesses exactly for a witness serialization, and reads the same
    from any extension of a buffer that holds the whole transaction. *)
Lemma walk_at (d t : bytes) (f : Transaction.fields) :
  Transaction.walk d = Ok f ->
  6 <= Transaction.f_offset f /\
  (if Transaction.f_is_segwit f
   then exists before,
       Transaction.f_offset_before f = Some before
       /\ 8 <= before <= Transaction.f_offset f
   else Transaction.f_offset_before f = None) /\
  (Transaction.f_offset f + 4 <= len d -> Transaction.walk (d ++ t) = Ok f).
Proof.
  unfold Transaction.walk. cbv zeta.
  remember (bytes_eqb [x00; x01] (slice d 4 (4 + 2))) as seg eqn:Hsegdef.
  set (o0 := if seg then 4 + 2 else 4).
  assert (Ho0 : 4 <= o0 /\ (seg = true -> o0 = 6)).
  { subst o0. destruct seg; split; intros; lia. }
  destruct Ho0 as [Ho0 Hseg6].
  destruct (varint (drop o0 d)) as [[n_in k1]|e] eqn:Hv1; [|discriminate].
  cbn [bind].
  destruct (Transaction.read_inputs (Z.to_nat n_in) d (o0 + k1) [])
    as [[ins o1]|e] eqn:Hins; [|discriminate].
  cbn [bind].
  destruct (varint (drop o1 d)) as [[n_out k2]|e] eqn:Hv2; [|discriminate].
  cbn [bind].
  destruct (Transaction.read_outputs (Z.to_nat n_out) d (o1 + k2) [])
    as [[outs o2]|e] eqn:Houts; [|discriminate].
  cbn [bind].
  destruct (varint_at d t o0 n_in k1 ltac:(lia) Hv1) as (_ & Hk1 & _ & Hv1').
  assert (Hp1 : 0 <= o0 + k1) by lia.
  destruct (read_inputs_at d t _ _ _ _ _ Hp1 Hins) as [Hm1 Hins'].
  assert (Hp2 : 0 <= o1) by lia.
  destruct (varint_at d t o1 n_out k2 Hp2 Hv2) as (_ & Hk2 & _ & Hv2').
  assert (Hp3 : 0 <= o1 + k2) by lia.
  destruct (read_outputs_at d t _ _ _ _ _ Hp3 Houts) as [Hm2 Houts'].
  assert (Hext : forall o3, o2 <= o3 -> o3 + 4 <= len d ->
            bytes_eqb [x00; x01] (slice (d ++ t) 4 (4 + 2)) = seg /\
            varint (drop o0 (d ++ t)) = Ok (n_in, k1) /\
            Transaction.read_inputs (Z.to_nat n_in) (d ++ t) (o0 + k1) []
            = Ok (ins, o1) /\
            varint (drop o1 (d ++ t)) = Ok (n_out, k2) /\
            Transaction.read_outputs (Z.to_nat n_out) (d ++ t) (o1 + k2) []
            = Ok (outs, o2)).
  { intros o3 Ho3 Hend. repeat split.
    - rewrite slice_app by lia. now rewrite Hsegdef.
    - exact Hv1'.
    - apply Hins'. lia.
    - exact Hv2'.
    - apply Houts'. lia. }
  destruct seg eqn:Hseg.
  - destruct (Transaction.read_witnesses ins d o2) as [[ins' o3]|e] eqn:Hwit;
      [|discriminate].
    cbn [bind]. intros Heq. apply Ok_inj in Heq. subst f.
    cbn [Transaction.f_offset Transaction.f_is_segwit
         Transaction.f_offset_before].
    assert (Hp4 : 0 <= o2) by lia.
    destruct (read_witnesses_at d t _ _ _ _ Hp4 Hwit) as [Hm3 Hwit'].
    specialize (Hseg6 eq_refl).
    split; [lia|]. split; [exists o2; split; [reflexivity|lia]|].
    intros Hend.
    destruct (Hext o3 Hm3 Hend) as (-> & He2 & He3 & He4 & He5).
    unfold o0 in He2, He3. cbv iota in He2, He3.
    rewrite He2. cbn [bind]. rewrite He3. cbn [bind]. rewrite He4. cbn [bind].
    rewrite He5. cbn [bind]. rewrite Hwit' by lia. reflexivity.
  - intros Heq. apply Ok_inj in Heq. subst f.
    cbn [Transaction.f_offset Transaction.f_is_segwit
         Transaction.f_offset_before].
    split; [lia|]. split; [reflexivity|].
    intros Hend.
    destruct (Hext o2 (Z.le_refl _) Hend) as (-> & He2 & He3 & He4 & He5).
    unfold o0 in He2, He3. cbv iota in He2, He3.
    rewrite He2. cbn [bind]. rewrite He3. cbn [bind]. rewrite He4. cbn [bind].
    rewrite He5. reflexivity.
Qed.

Lemma from_bytes_inv (d : bytes) (tx : Transaction.t) :
  Transaction.from_bytes d = Ok tx ->
  exists f : Transaction.fields,
    Transaction.walk d = Ok f /\
    Transaction.f_offset f + 4 <= len d /\
    tx = Transaction.Build
           (Transaction.f_inputs f) (Transaction.f_outputs f)
           (Transaction.f_offset f + 4) (Transaction.f_n_inputs f)
           (Transaction.f_n_outputs f) (Transaction.f_is_segwit f)
           (Transaction.f_offset_before f)
           (take (Transaction.f_offset f + 4) d).
Proof.
  unfold Transaction.from_bytes.
  destruct (Transaction.walk d) as [f|e] eqn:Hwalk; [|discriminate].
  cbn [bind]. cbv zeta.
  destruct (walk_at d [] f Hwalk) as (Hoff & _ & _).
  destruct (Z.eqb_spec (Transaction.f_offset f + 4)
                       (len (take (Transaction.f_offset f + 4) d)))
    as [Hsize|]; [|discriminate].
  cbn [negb]. intros Heq. apply Ok_inj in Heq.
  exists f. repeat split; [|now symmetry].
  rewrite len_take in Hsize by lia. lia.
Qed.

Lemma from_bytes_raw_len (d : bytes) (tx : Transaction.t) :
  Transaction.from_bytes d = Ok tx ->
  len (Transaction.raw tx) = Transaction.size tx.
Proof.
  intros Hrun.
  destruct (from_bytes_inv d tx Hrun) as (f & Hwalk & Hend & ->).
  destruct (walk_at d [] f Hwalk) as (Hoff & _ & _).
  cbn [Transaction.raw Transaction.size]. rewrite len_take by lia. lia.
Qed.

(** C6. When the walk over the declared field lengths ends at a size larger
    than the buffer, [Transaction.from_bytes] raises "Incomplete
    transaction."; when it returns, [raw] is exactly the first [size] bytes
    of the buffer, [size] of them, so the declared size is the number of
    bytes consumed. *)
Theorem transaction_size_check :
  forall raw_data : bytes,
    (forall f : Transaction.fields,
        Transaction.walk raw_data = Ok f ->
        len raw_data < Transaction.f_offset f + 4 ->
        Transaction.from_bytes raw_data
        = Raise (ValueError "Incomplete transaction.")) /\
    (forall tx : Transaction.t,
        Transaction.from_bytes raw_data = Ok tx ->
        Transaction.raw tx = take (Transaction.size tx) raw_data /\
        len (Transaction.raw tx) = Transaction.size tx /\
        Transaction.size tx <= len raw_data /\
        exists f, Transaction.walk raw_data = Ok f
                  /\ Transaction.size tx = Transaction.f_offset f + 4).
Proof.
  intros raw_data. split.
  - intros f Hwalk Hshort. unfold Transaction.from_bytes.
    rewrite Hwalk. cbn [bind]. cbv zeta.
    destruct (Z.eqb_spec (Transaction.f_offset f + 4)
                         (len (take (Transaction.f_offset f + 4) raw_data)))
      as [Hsize|]; [|reflexivity].
    pose proof (len_nonneg raw_data).
    rewrite len_take in Hsize by lia. lia.
  - intros tx Hrun.
    destruct (from_bytes_inv raw_data tx Hrun) as (f & Hwalk & Hend & ->).
    cbn [Transaction.raw Transaction.size].
    destruct (walk_at raw_data [] f Hwalk) as (Hoff & _ & _).
    repeat split.
    + rewrite len_take by lia. lia.
    + exact Hend.
    + now exists f.
Qed.

Lemma transaction_size_check_witness :
  Transaction.from_bytes (removelast legacy_tx)
  = Raise (ValueError "Incomplete transaction.") /\
  exists tx : Transaction.t,
    Transaction.from_bytes legacy_tx = Ok tx /\
    Transaction.raw tx = take (Transaction.size tx) legacy_tx /\
    len (Transaction.raw tx) = Transaction.size tx /\
    Transaction.size tx <= len legacy_tx /\
    exists f, Transaction.walk legacy_tx = Ok f
              /\ Transaction.size tx = Transaction.f_offset f + 4.
Proof.
  split.
  - eapply (proj1 (transaction_size_check (removelast legacy_tx)));
      vm_compute; reflexivity.
  - eexists. split; [vm_compute; reflexivity|].
    apply (proj2 (transaction_size_check legacy_tx)).
    vm_compute; reflexivity.
Defined.

(** C10. Parsing depends only on the bytes consumed: when a buffer parses
    as a transaction, every extension of it parses as well, to the same
    transaction: same size, raw bytes, version, locktime, txid, hash,
    vsize, inputs (with their witnesses) and outputs. *)
Theorem from_bytes_extension :
  forall (H : Hashlib) (b t : bytes) (tx : Transaction.t),
    Transaction.from_bytes b = Ok tx ->
    exists tx' : Transaction.t,
      Transaction.from_bytes (b ++ t) = Ok tx' /\
      Transaction.size tx' = Transaction.size tx /\
      Transaction.raw tx' = Transaction.raw tx /\
      Transaction.version tx' = Transaction.version tx /\
      Transaction.locktime tx' = Transaction.locktime tx /\
      Transaction.txid tx' = Transaction.txid tx /\
      Transaction.hash tx' = Transaction.hash tx /\
      Transaction.vsize tx' = Transaction.vsize tx /\
      Transaction.inputs tx' = Transaction.inputs tx /\
      Transaction.outputs tx' = Transaction.outputs tx /\
      map TxInput.witnesses (Transaction.inputs tx')
      = map TxInput.witnesses (Transaction.inputs tx).
Proof.
  intros H b t tx Hrun.
  destruct (from_bytes_inv b tx Hrun) as (f & Hwalk & Hend & Htx).
  destruct (walk_at b t f Hwalk) as (_ & _ & Hext).
  assert (Hrun' : Transaction.from_bytes (b ++ t) = Ok tx).
  { unfold Transaction.from_bytes. rewrite (Hext Hend). cbn [bind]. cbv zeta.
    rewrite take_app by exact Hend.
    unfold Transaction.from_bytes in Hrun. rewrite Hwalk in Hrun.
    exact Hrun. }
  exists tx. split; [exact Hrun'|]. repeat split.
Qed.

Lemma from_bytes_extension_witness :
  Transaction.from_bytes segwit_tx = Ok segwit_parsed /\
  exists tx' : Transaction.t,
    Transaction.from_bytes (segwit_tx ++ [xde; xad; xbe; xef]) = Ok tx' /\
    Transaction.size tx' = Transaction.size segwit_parsed /\
    Transaction.raw tx' = Transaction.raw segwit_parsed /\
    Transaction.version tx' = Transaction.version segwit_parsed /\
    Transaction.locktime tx' = Transaction.locktime segwit_parsed /\
    @Transaction.txid plain_hashlib tx'
    = @Transaction.txid plain_hashlib segwit_parsed /\
    @Transaction.hash plain_hashlib tx'
    = @Transaction.hash plain_hashlib segwit_parsed /\
    Transaction.vsize tx' = Transaction.vsize segwit_parsed /\
    Transaction.inputs tx' = Transaction.inputs segwit_parsed /\
    Transaction.outputs tx' = Transaction.outputs segwit_parsed /\
    map TxInput.witnesses (Transaction.inputs tx')
    = map TxInput.witnesses (Transaction.inputs segwit_parsed).
Proof.
  split; [vm_compute; reflexivity|].
  apply (from_bytes_extension plain_hashlib segwit_tx [xde; xad; xbe; xef]
                              segwit_parsed).
  vm_compute; reflexivity.
Defined.

Lemma last_n_slice {A : Type} (l : list A) (n : Z) :
  len l = n -> 4 <= n -> last_n 4 l = slice l (n - 4) n.
Proof.
  intros Hlen Hn. unfold last_n, slice. rewrite Hlen.
  rewrite Z.max_r by lia.
  unfold take. symmetry. apply firstn_all2.
  unfold drop. rewrite length_skipn. unfold len in Hlen. lia.
Qed.

(** C1. For a transaction parsed from a witness serialization, [txid] is
    the reversed hex of the double SHA-256 of [raw[0..4]], then
    [raw[6..offset_before_witnesses]], then the last 4 bytes of [raw]; for
    any other transaction [txid] is [hash], the digest of the whole
    serialization. *)
Theorem txid_spec :
  forall (H : Hashlib) (raw_data : bytes) (tx : Transaction.t),
    Transaction.from_bytes raw_data = Ok tx ->
    (Transaction.is_segwit tx = true ->
     exists before : Z,
       Transaction._offset_before_tx_witnesses tx = Some before /\
       8 <= before <= Transaction.size tx - 4 /\
       Transaction.txid tx
       = Ok (hexstring
               (sha256_2
                  (slice (Transaction.raw tx) 0 4
                   ++ slice (Transaction.raw tx) 6 before
                   ++ slice (Transaction.raw tx) (Transaction.size tx - 4)
                            (Transaction.size tx))))) /\
    (Transaction.is_segwit tx = false ->
     Transaction.txid tx = Ok (Transaction.hash tx) /\
     Transaction.hash tx = hexstring (sha256_2 (Transaction.raw tx))).
Proof.
  intros H raw_data tx Hrun.
  pose proof (from_bytes_raw_len raw_data tx Hrun) as Hlen.
  destruct (from_bytes_inv raw_data tx Hrun) as (f & Hwalk & Hend & Htx).
  destruct (walk_at raw_data [] f Hwalk) as (Hoff & Hbefore & _).
  subst tx. unfold Transaction.txid, Transaction.hash.
  cbn [Transaction.is_segwit Transaction._offset_before_tx_witnesses
       Transaction.raw Transaction.size] in *.
  split; intros Hseg; rewrite Hseg in *.
  - destruct Hbefore as (before & -> & Hb). exists before.
    split; [reflexivity|]. split; [lia|].
    rewrite (last_n_slice _ _ Hlen) by lia. reflexivity.
  - split; reflexivity.
Qed.

Lemma txid_spec_witness :
  Transaction.from_bytes segwit_tx = Ok segwit_parsed /\
  Transaction.is_segwit segwit_parsed = true /\
  @Transaction.txid plain_hashlib segwit_parsed
  = Ok (hexstring
          (@sha256_2 plain_hashlib
             (slice segwit_tx 0 4 ++ slice segwit_tx 6 59
              ++ slice segwit_tx 65 69))) /\
  Transaction.from_bytes legacy_tx = Ok legacy_parsed /\
  Transaction.is_segwit legacy_parsed = false /\
  @Transaction.txid plain_hashlib legacy_parsed
  = Ok (@Transaction.hash plain_hashlib legacy_parsed).
Proof.
  assert (Hs : Transaction.from_bytes segwit_tx = Ok segwit_parsed)
    by (vm_compute; reflexivity).
  assert (Hl : Transaction.from_bytes legacy_tx = Ok legacy_parsed)
    by (vm_compute; reflexivity).
  destruct (txid_spec plain_hashlib segwit_tx segwit_parsed Hs) as [Hseg _].
  destruct (Hseg eq_refl) as (before & Hb & _ & Htxid).
  injection Hb as <-.
  destruct (txid_spec plain_hashlib legacy_tx legacy_parsed Hl) as [_ Hleg].
  destruct (Hleg eq_refl) as [Hhash _].
  split; [exact Hs|]. split; [reflexivity|]. split; [exact Htxid|].
  split; [exact Hl|]. split; [reflexivity|exact Hhash].
Defined.

Lemma ceil_quarter_spec (w : Z) :
  4 * (Transaction.ceil_quarter w - 1) < w <= 4 * Transaction.ceil_quarter w.
Proof.
  unfold Transaction.ceil_quarter.
  pose proof (Z.div_mod (- w) 4 ltac:(lia)) as Hdm.
  pose proof (Z.mod_pos_bound (- w) 4 ltac:(lia)) as Hm.
  lia.
Qed.

(** C2. For a parsed transaction [vsize] is the ceiling of
    [(stripped * 3 + size) / 4]; for a witness serialization
    [stripped = size - 2 - witness_bytes] with
    [witness_bytes = size - offset_before_witnesses - 4], otherwise
    [stripped = size] and [vsize = size]. *)
Theorem vsize_spec :
  forall (raw_data : bytes) (tx : Transaction.t),
    Transaction.from_bytes raw_data = Ok tx ->
    exists v : Z,
      Transaction.vsize tx = Ok v /\
      v = Transaction.ceil_quarter (stripped tx * 3 + Transaction.size tx) /\
      4 * (v - 1) < stripped tx * 3 + Transaction.size tx <= 4 * v /\
      (Transaction.is_segwit tx = true ->
       exists before : Z,
         Transaction._offset_before_tx_witnesses tx = Some before /\
         stripped tx = Transaction.size tx - 2 - witness_bytes tx before /\
         witness_bytes tx before = Transaction.size tx - before - 4) /\
      (Transaction.is_segwit tx = false ->
       stripped tx = Transaction.size tx /\ v = Transaction.size tx).
Proof.
  intros raw_data tx Hrun.
  destruct (from_bytes_inv raw_data tx Hrun) as (f & Hwalk & Hend & Htx).
  destruct (walk_at raw_data [] f Hwalk) as (Hoff & Hbefore & _).
  subst tx. unfold Transaction.vsize, stripped, witness_bytes.
  cbn [Transaction.is_segwit Transaction._offset_before_tx_witnesses
       Transaction.size].
  destruct (Transaction.f_is_segwit f).
  - destruct Hbefore as (before & -> & Hb). cbn [negb].
    eexists. split; [reflexivity|].
    split; [f_equal; lia|]. split.
    + match goal with |- context [Transaction.ceil_quarter ?w] =>
        pose proof (ceil_quarter_spec w) end. lia.
    + split; [|discriminate]. intros _. exists before. repeat split.
  - cbn [negb]. rewrite Hbefore.
    exists (Transaction.f_offset f + 4). split; [reflexivity|].
    pose proof (ceil_quarter_spec
                  ((Transaction.f_offset f + 4) * 3 + (Transaction.f_offset f + 4))).
    repeat split; try lia; discriminate.
Qed.

Lemma vsize_spec_witness :
  Transaction.from_bytes segwit_tx = Ok segwit_parsed /\
  Transaction.vsize segwit_parsed = Ok 63 /\
  stripped segwit_parsed = 61 /\
  63 = Transaction.ceil_quarter (61 * 3 + 69).
Proof.
  assert (Hs : Transaction.from_bytes segwit_tx = Ok segwit_parsed)
    by (vm_compute; reflexivity).
  destruct (vsize_spec segwit_tx segwit_parsed Hs) as (v & Hv & Hceil & _).
  split; [exact Hs|]. split; [|split; reflexivity].
  rewrite Hv, Hceil. reflexivity.
Defined.

(** ** input.py and output.py: no length check *)

Lemma drop_short {A : Type} (l : list A) (n : Z) :
  len l <= n -> drop n l = [].
Proof.
  intros Hn. unfold drop. apply skipn_all2. unfold len in Hn. lia.
Qed.

(** C5, as the code has it.  The input and output decoders fail exactly
    when the compact-size script length (at offset 36, resp. 8) cannot be
    decoded, with that decoder's error; a buffer of at most 36 (resp. 8)
    bytes is such a case.  Whenever the length decodes they return a value
    whose size is [36 + varint_size + L + 4] (resp. [8 + varint_size + L])
    and which holds the bytes available up to that size, whether or not the
    buffer reaches it. *)
Theorem decoders_without_length_check :
  forall raw_bytes : bytes,
    (forall L varint_size : Z,
        varint (drop 36 raw_bytes) = Ok (L, varint_size) ->
        exists inp : TxInput.t,
          TxInput.from_bytes raw_bytes = Ok inp /\
          TxInput.size inp = 36 + varint_size + L + 4 /\
          TxInput.raw inp = take (TxInput.size inp) raw_bytes /\
          TxInput.witnesses inp = []) /\
    (forall e : exn,
        varint (drop 36 raw_bytes) = Raise e ->
        TxInput.from_bytes raw_bytes = Raise e) /\
    (len raw_bytes <= 36 ->
     TxInput.from_bytes raw_bytes
     = Raise (ValueError "Unable to decode empty data.")) /\
    (forall L varint_size : Z,
        varint (drop 8 raw_bytes) = Ok (L, varint_size) ->
        exists out : TxOutput.t,
          TxOutput.from_bytes raw_bytes = Ok out /\
          TxOutput.size out = 8 + varint_size + L /\
          TxOutput._script_raw out
          = slice raw_bytes (8 + varint_size) (TxOutput.size out) /\
          TxOutput._value_raw out = take 8 raw_bytes) /\
    (forall e : exn,
        varint (drop 8 raw_bytes) = Raise e ->
        TxOutput.from_bytes raw_bytes = Raise e) /\
    (len raw_bytes <= 8 ->
     TxOutput.from_bytes raw_bytes
     = Raise (ValueError "Unable to decode empty data.")).
Proof.
  intros raw_bytes. unfold TxInput.from_bytes, TxOutput.from_bytes.
  repeat split.
  - intros L k Hv. rewrite Hv. cbn [bind]. eexists. split; [reflexivity|].
    unfold TxInput.size.
    cbn [TxInput._script_start TxInput._script_length TxInput.raw
         TxInput.witnesses TxInput._witnesses].
    repeat split.
  - intros e Hv. rewrite Hv. reflexivity.
  - intros Hlen. rewrite drop_short by exact Hlen. reflexivity.
  - intros L k Hv. rewrite Hv. cbn [bind]. eexists. split; [reflexivity|].
    cbn [TxOutput.size TxOutput._script_raw TxOutput._value_raw].
    repeat split.
  - intros e Hv. rewrite Hv. reflexivity.
  - intros Hlen. rewrite drop_short by exact Hlen. reflexivity.
Qed.

Lemma decoders_without_length_check_witness :
  (exists inp : TxInput.t,
      TxInput.from_bytes cut_input = Ok inp /\
      TxInput.size inp = 36 + 1 + 5 + 4 /\
      TxInput.raw inp = take (TxInput.size inp) cut_input /\
      TxInput.witnesses inp = []) /\
  TxInput.from_bytes (repeat x00 36)
  = Raise (ValueError "Unable to decode empty data.").
Proof.
  destruct (decoders_without_length_check cut_input) as (Hin & _).
  destruct (decoders_without_length_check (repeat x00 36))
    as (_ & _ & Hshort & _).
  split.
  - apply (Hin 5 1). reflexivity.
  - apply Hshort. vm_compute. discriminate.
Defined.

(** An input and an output cut right after a script length of 5 are
    shorter than the size they declare, and both decoders return a
    value. *)
Lemma truncation_counterexample :
  ~ input_truncation_claim cut_input /\ ~ output_truncation_claim cut_output.
Proof.
  split; intros Hclaim.
  - destruct (Hclaim 5 1 eq_refl) as [e He]; [reflexivity|].
    vm_compute in He. discriminate He.
  - destruct (Hclaim 5 1 eq_refl) as [e He]; [reflexivity|].
    vm_compute in He. discriminate He.
Qed.

(** ** The script walk does not depend on its fuel *)

Lemma push_size_length (opcode : Z) (rest rest' : bytes) (n : Z) :
  CScript.push_size opcode rest = Some (n, rest') ->
  (List.length rest' <= List.length rest)%nat.
Proof.
  unfold CScript.push_size.
  destruct (opcode <? OP_PUSHDATA1); [intros [= _ <-]; lia|].
  destruct (opcode =? OP_PUSHDATA1).
  { destruct rest as [|b r]; [discriminate|]. intros [= _ <-].
    cbn [List.length]. lia. }
  destruct (opcode =? OP_PUSHDATA2).
  { destruct rest as [|b0 [|b1 r]]; try discriminate. intros [= _ <-].
    cbn [List.length]. lia. }
  destruct rest as [|b0 [|b1 [|b2 [|b3 r]]]]; try discriminate.
  intros [= _ <-]. cbn [List.length]. lia.
Qed.

Lemma iter_loop_fuel (fuel : nat) :
  forall script : bytes,
    (List.length script <= fuel)%nat ->
    CScript.iter_loop (S fuel) script = CScript.iter_loop fuel script.
Proof.
  induction fuel as [|fuel IH]; intros script Hlen.
  - destruct script; [reflexivity|cbn [List.length] in Hlen; lia].
  - destruct script as [|b rest]; [reflexivity|].
    cbn [List.length] in Hlen.
    change (CScript.iter_loop (S (S fuel)) (b :: rest))
      with (let opcode := byte_val b in
            if opcode >? OP_PUSHDATA4 then
              option_map (cons (CScript.cook opcode))
                         (CScript.iter_loop (S fuel) rest)
            else
              match CScript.push_size opcode rest with
              | None => None
              | Some (datasize, rest') =>
                let data := take datasize rest' in
                if len data <? datasize then None
                else
                  option_map
                    (cons (if opcode =? 0 then OpInt 0 else OpBytes data))
                    (CScript.iter_loop (S fuel) (drop datasize rest'))
              end).
    change (CScript.iter_loop (S fuel) (b :: rest))
      with (let opcode := byte_val b in
            if opcode >? OP_PUSHDATA4 then
              option_map (cons (CScript.cook opcode))
                         (CScript.iter_loop fuel rest)
            else
              match CScript.push_size opcode rest with
              | None => None
              | Some (datasize, rest') =>
                let data := take datasize rest' in
                if len data <? datasize then None
                else
                  option_map
                    (cons (if opcode =? 0 then OpInt 0 else OpBytes data))
                    (CScript.iter_loop fuel (drop datasize rest'))
              end).
    cbv zeta. rewrite (IH rest) by lia.
    destruct (byte_val b >? OP_PUSHDATA4); [reflexivity|].
    destruct (CScript.push_size (byte_val b) rest) as [[datasize rest']|] eqn:Hp;
      [|reflexivity].
    apply push_size_length in Hp.
    rewrite (IH (drop datasize rest')); [reflexivity|].
    unfold drop. rewrite length_skipn. lia.
Qed.

(** Any fuel from the length of the script on gives the result of
    [CScript.iter]: the walk never stops for lack of fuel. *)
Lemma iter_fuel_enough (script : bytes) (extra : nat) :
  CScript.iter_loop (List.length script + extra) script = CScript.iter script.
Proof.
  unfold CScript.iter. induction extra as [|extra IH].
  - now rewrite Nat.add_0_r.
  - rewrite Nat.add_succ_r, iter_loop_fuel by lia. exact IH.
Qed.

(** * Further properties of the decoders *)

(** ** utils.py: fixed-width integers *)

Lemma le_value_bound (data : bytes) :
  0 <= le_value data < 256 ^ len data.
Proof.
  induction data as [|b rest IH]; cbn [le_value].
  - change (0 <= 0 < 1). lia.
  - rewrite len_cons. pose proof (byte_val_range b) as Hb.
    pose proof (len_nonneg rest) as Hn.
    rewrite Z.pow_add_r by lia. change (256 ^ 1) with 256. lia.
Qed.

(** X1. [uint32] (resp. [uint64]) returns the little-endian value, below
    [2^32] (resp. [2^64]), of a buffer of exactly 4 (resp. 8) bytes, and
    raises [ValueError] on a buffer of any other length. *)
Theorem fixed_width_decoders :
  forall data : bytes,
    (len data = 4 ->
     uint32 data = Ok (le_value data) /\ 0 <= le_value data < 2 ^ 32) /\
    (len data <> 4 ->
     uint32 data
     = Raise (ValueError "Unable to decode data to uint32. Incorrect size.")) /\
    (len data = 8 ->
     uint64 data = Ok (le_value data) /\ 0 <= le_value data < 2 ^ 64) /\
    (len data <> 8 ->
     uint64 data
     = Raise (ValueError "Unable to decode data to uint64. Incorrect size.")).
Proof.
  intros data. pose proof (le_value_bound data) as Hb.
  unfold uint32, uint64, unpack_le.
  split; [|split; [|split]].
  - intros H4. rewrite H4 in Hb |- *. split; [reflexivity|exact Hb].
  - intros Hn. destruct (Z.eqb_spec (len data) 4); [contradiction|reflexivity].
  - intros H8. rewrite H8 in Hb |- *. split; [reflexivity|exact Hb].
  - intros Hn. destruct (Z.eqb_spec (len data) 8); [contradiction|reflexivity].
Qed.

Lemma fixed_width_decoders_witness :
  uint32 [x78; x56; x34; x12] = Ok 305419896 /\
  uint32 [x78; x56; x34]
  = Raise (ValueError "Unable to decode data to uint32. Incorrect size.") /\
  uint64 [x01; x00; x00; x00; x00; x00; x00; x80] = Ok (2 ^ 63 + 1).
Proof.
  destruct (fixed_width_decoders [x78; x56; x34; x12]) as (H4 & _).
  destruct (fixed_width_decoders [x78; x56; x34]) as (_ & Hn4 & _).
  destruct (fixed_width_decoders [x01; x00; x00; x00; x00; x00; x00; x80])
    as (_ & _ & H8 & _).
  split; [exact (proj1 (H4 eq_refl))|].
  split; [apply Hn4; vm_compute; discriminate|].
  exact (proj1 (H8 eq_refl)).
Defined.

(** ** utils.py: the compact-size varint, in full *)

Lemma varint_cases (b : byte) (rest : bytes) :
  (byte_val b < 253 /\ varint (b :: rest) = Ok (byte_val b, 1)) \/
  (253 <= byte_val b /\ announced_width b <= len rest /\
   varint (b :: rest)
   = Ok (le_value (take (announced_width b) rest), announced_width b + 1)) \/
  (253 <= byte_val b /\ len rest < announced_width b /\
   varint (b :: rest) = Raise StructError).
Proof.
  pose proof (byte_val_range b) as Hr. pose proof (len_nonneg rest) as Hn.
  destruct (Z.lt_ge_cases (byte_val b) 253) as [Hsmall|Hwide].
  { left. split; [exact Hsmall|now apply varint_small]. }
  right.
  assert (Hf : exists f, byte_val b
                         = match f with fmt_H => 253 | fmt_I => 254 | fmt_Q => 255 end
                         /\ announced_width b = calcsize f).
  { unfold announced_width.
    destruct (Z.eqb_spec (byte_val b) 253) as [->|]; [now exists fmt_H|].
    destruct (Z.eqb_spec (byte_val b) 254) as [->|]; [now exists fmt_I|].
    exists fmt_Q. split; [lia|reflexivity]. }
  destruct Hf as (f & Hb & Hw). rewrite Hw.
  assert (Hpos : 0 < calcsize f) by (destruct f; cbn; lia).
  assert (Hslice : slice (b :: rest) 1 (calcsize f + 1) = take (calcsize f) rest).
  { unfold slice. replace (calcsize f + 1 - 1) with (calcsize f) by lia.
    reflexivity. }
  destruct (Z.le_gt_cases (calcsize f) (len rest)) as [Hin|Hout].
  - left. split; [exact Hwide|]. split; [exact Hin|].
    rewrite <- Hslice. apply varint_wide; [exact Hb|]. rewrite len_cons. lia.
  - right. split; [exact Hwide|]. split; [exact Hout|].
    unfold varint. rewrite Hb.
    assert (Hs : (len (slice (b :: rest) 1 (calcsize f + 1)) =? calcsize f) = false).
    { apply Z.eqb_neq. rewrite Hslice, len_take by lia. lia. }
    destruct f; cbn [calcsize] in Hs |- *.
    + change (253 >? 255) with false. change (253 <? 253) with false.
      change (253 =? 253) with true. cbn [bind calcsize].
      unfold unpack_le. rewrite Hs. reflexivity.
    + change (254 >? 255) with false. change (254 <? 253) with false.
      change (254 =? 253) with false. change (254 =? 254) with true.
      cbn [bind calcsize]. unfold unpack_le. rewrite Hs. reflexivity.
    + change (255 >? 255) with false. change (255 <? 253) with false.
      change (255 =? 253) with false. change (255 =? 254) with false.
      change (255 =? 255) with true.
      cbn [bind calcsize]. unfold unpack_le. rewrite Hs. reflexivity.
Qed.

Lemma announced_width_values (b : byte) :
  announced_width b = 2 \/ announced_width b = 4 \/ announced_width b = 8.
Proof.
  unfold announced_width.
  destruct (byte_val b =? 253); [auto|].
  destruct (byte_val b =? 254); auto.
Qed.

(** X2. Whatever [varint] returns fits the width it consumed: 1 byte and a
    value below 253, or 3, 5 or 9 bytes and a value below [2^16], [2^32]
    or [2^64]; the bytes consumed are in the buffer.  The decoder accepts
    non-minimal encodings: nothing forces a 3-byte value to be >= 253. *)
Theorem varint_result_bounds :
  forall (data : bytes) (v k : Z),
    varint data = Ok (v, k) ->
    k <= len data /\
    ((k = 1 /\ 0 <= v < 253) \/
     (k = 3 /\ 0 <= v < 2 ^ 16) \/
     (k = 5 /\ 0 <= v < 2 ^ 32) \/
     (k = 9 /\ 0 <= v < 2 ^ 64)).
Proof.
  intros data v k Hrun. destruct data as [|b rest]; [discriminate|].
  pose proof (byte_val_range b) as Hr. rewrite len_cons.
  destruct (varint_cases b rest)
    as [(Hsmall & Heq)|[(Hwide & Hin & Heq)|(_ & _ & Heq)]];
    rewrite Heq in Hrun; try discriminate; apply Ok_inj in Hrun.
  - injection Hrun as <- <-. pose proof (len_nonneg rest). split; [lia|].
    left. lia.
  - injection Hrun as <- <-. split; [lia|].
    pose proof (le_value_bound (take (announced_width b) rest)) as Hb.
    destruct (announced_width_values b) as [Hw|[Hw|Hw]]; rewrite Hw in *;
      rewrite len_take, Z.min_l in Hb by lia; right.
    + left. split; [reflexivity|exact Hb].
    + right. left. split; [reflexivity|exact Hb].
    + right. right. split; [reflexivity|exact Hb].
Qed.

Lemma varint_result_bounds_witness :
  varint [xfd; x05; x00; xaa] = Ok (5, 3) /\
  3 <= len [xfd; x05; x00; xaa] /\
  ((3 = 1 /\ 0 <= 5 < 253) \/
   (3 = 3 /\ 0 <= 5 < 2 ^ 16) \/
   (3 = 5 /\ 0 <= 5 < 2 ^ 32) \/
   (3 = 9 /\ 0 <= 5 < 2 ^ 64)).
Proof.
  split; [reflexivity|].
  apply (varint_result_bounds [xfd; x05; x00; xaa] 5 3). reflexivity.
Defined.

(** X3. [varint] fails in exactly two ways: [ValueError] on the empty
    buffer, and [struct.error] when the first byte is 0xfd, 0xfe or 0xff and
    fewer than 2, 4 or 8 bytes follow it. *)
Theorem varint_failures :
  forall (data : bytes) (e : exn),
    varint data = Raise e <->
    (data = [] /\ e = ValueError "Unable to decode empty data.") \/
    (exists (b : byte) (rest : bytes),
        data = b :: rest /\ 253 <= byte_val b /\
        len rest < announced_width b /\ e = StructError).
Proof.
  intros data e. split.
  - destruct data as [|b rest].
    + intros [= <-]. left. now split.
    + intros Hrun. right. exists b, rest.
      destruct (varint_cases b rest)
        as [(_ & Heq)|[(_ & _ & Heq)|(Hwide & Hout & Heq)]];
        rewrite Heq in Hrun; try discriminate.
      injection Hrun as <-. repeat split; assumption.
  - intros [[-> ->]|(b & rest & -> & Hwide & Hout & ->)]; [reflexivity|].
    destruct (varint_cases b rest)
      as [(Hsmall & _)|[(_ & Hin & _)|(_ & _ & Heq)]]; [lia|lia|exact Heq].
Qed.

(** ** utils.py: the display form of a hash *)

Lemma hex_digits_of_byte (b : byte) :
  (16 * digit_val (hex_digit (N.div (Byte.to_N b) 16))
   + digit_val (hex_digit (N.modulo (Byte.to_N b) 16)))%N = Byte.to_N b.
Proof. destruct b; reflexivity. Qed.

Lemma to_N_inj (a b : byte) : Byte.to_N a = Byte.to_N b -> a = b.
Proof.
  intros Heq. pose proof (Byte.of_to_N a) as Ha.
  rewrite Heq, Byte.of_to_N in Ha. now injection Ha as <-.
Qed.

Lemma hex_inj (a : bytes) : forall b : bytes, hex a = hex b -> a = b.
Proof.
  induction a as [|x a IH]; intros [|y b]; cbn [hex]; try discriminate.
  - reflexivity.
  - intros Heq. injection Heq as Hhi Hlo Hrest.
    f_equal; [|now apply IH].
    apply to_N_inj. rewrite <- (hex_digits_of_byte x), <- (hex_digits_of_byte y).
    now rewrite Hhi, Hlo.
Qed.

Lemma hex_length (a : bytes) :
  String.length (hex a) = (2 * List.length a)%nat.
Proof.
  induction a as [|x a IH]; cbn [hex String.length List.length]; [reflexivity|].
  rewrite IH. lia.
Qed.

Lemma hex_app (a b : bytes) : hex (a ++ b) = (hex a ++ hex b)%string.
Proof.
  induction a as [|x a IH]; cbn [hex app String.append]; [reflexivity|].
  now rewrite IH.
Qed.

(** X4. [hexstring] shows two characters per byte, shows a concatenation
    back to front ([hexstring (a + b) = hexstring b + hexstring a]), and is
    injective: different byte strings never share a display form. *)
Theorem hexstring_display :
  forall a b : bytes,
    String.length (hexstring a) = (2 * List.length a)%nat /\
    hexstring (a ++ b) = (hexstring b ++ hexstring a)%string /\
    (hexstring a = hexstring b -> a = b).
Proof.
  intros a b. unfold hexstring. repeat split.
  - rewrite hex_length, length_rev. reflexivity.
  - rewrite rev_app_distr. apply hex_app.
  - intros Heq. apply hex_inj in Heq.
    rewrite <- (rev_involutive a), <- (rev_involutive b). now rewrite Heq.
Qed.

Lemma hexstring_display_witness :
  hexstring [x01; xab] = "ab01"%string /\
  (hexstring [x01; xab] = hexstring [x01; xab] -> [x01; xab] = [x01; xab]).
Proof.
  split; [reflexivity|].
  exact (proj2 (proj2 (hexstring_display [x01; xab] [x01; xab]))).
Defined.

(** ** index.py: the index-db varint, in full *)

Lemma high_bit_spec (d : byte) : high_bit d = (128 <=? byte_val d).
Proof. destruct d; reflexivity. Qed.

Lemma byte_val_inj (a b : byte) : byte_val a = byte_val b -> a = b.
Proof.
  unfold byte_val. intros Heq. apply to_N_inj. lia.
Qed.

Lemma lor_shift_low (n d : Z) :
  0 <= d < 128 -> Z.lor (Z.shiftl n 7) d = 128 * n + d.
Proof.
  intros Hd.
  assert (Hland : Z.land (Z.shiftl n 7) d = 0).
  { apply Z.bits_inj'. intros i Hi. rewrite Z.land_spec, Z.bits_0.
    destruct (Z.lt_ge_cases i 7).
    - rewrite Z.shiftl_spec_low by lia. reflexivity.
    - rewrite (Z.bits_above_log2 d i); [apply andb_false_r|lia|].
      destruct (Z.eq_dec d 0) as [->|]; [cbn; lia|].
      apply Z.log2_lt_pow2; [lia|].
      apply Z.lt_le_trans with (2 ^ 7); [cbn; lia|].
      apply Z.pow_le_mono_r; lia. }
  rewrite <- Z.lxor_lor by exact Hland.
  rewrite <- Z.add_nocarry_lxor by exact Hland.
  rewrite Z.shiftl_mul_pow2 by lia. change (2 ^ 7) with 128. lia.
Qed.

(** One step of the accumulation is [128 * n + (d mod 128)]. *)
Lemma varint_step_arith (n : Z) (d : byte) :
  varint_step n d = 128 * n + byte_val d mod 128.
Proof.
  unfold varint_step. pose proof (byte_val_range d) as Hr.
  change 127 with (Z.ones 7). rewrite Z.land_ones by lia.
  change (2 ^ 7) with 128.
  apply lor_shift_low. apply Z.mod_pos_bound. lia.
Qed.

Lemma varint_continue_snoc (n : Z) (ds : bytes) (d : byte) :
  varint_continue n (ds ++ [d]) = varint_step (varint_continue n ds) d + 1.
Proof. unfold varint_continue. now rewrite fold_left_app. Qed.

Lemma varint_continue_nonneg (ds : bytes) :
  forall n, 0 <= n ->
    0 <= varint_continue n ds /\ (ds <> [] -> 1 <= varint_continue n ds).
Proof.
  induction ds as [|d ds IH] using rev_ind; intros n Hn.
  - split; [exact Hn|congruence].
  - rewrite varint_continue_snoc, varint_step_arith.
    destruct (IH n Hn) as [Hpos _].
    pose proof (Z.mod_pos_bound (byte_val d) 128 ltac:(lia)). lia.
Qed.

Lemma varint_continue_inj (c1 : bytes) :
  forall c2 : bytes,
    forallb high_bit c1 = true -> forallb high_bit c2 = true ->
    varint_continue 0 c1 = varint_continue 0 c2 -> c1 = c2.
Proof.
  induction c1 as [|x c1 IH] using rev_ind; intros c2 H1 H2 Heq.
  - destruct c2 as [|y c2]; [reflexivity|].
    destruct (varint_continue_nonneg (y :: c2) 0 ltac:(lia)) as [_ Hge].
    specialize (Hge ltac:(discriminate)).
    change (varint_continue 0 []) with 0 in Heq. lia.
  - destruct c2 as [|y c2 _] using rev_ind.
    + destruct (varint_continue_nonneg (c1 ++ [x]) 0 ltac:(lia)) as [_ Hge].
      specialize (Hge ltac:(now destruct c1)).
      change (varint_continue 0 []) with 0 in Heq. lia.
    + rewrite !varint_continue_snoc, !varint_step_arith in Heq.
      rewrite forallb_app in H1, H2. cbn [forallb] in H1, H2.
      apply andb_true_iff in H1 as [H1 Hx], H2 as [H2 Hy].
      rewrite andb_true_r, high_bit_spec in Hx, Hy.
      apply Z.leb_le in Hx, Hy.
      pose proof (byte_val_range x) as Hrx. pose proof (byte_val_range y) as Hry.
      pose proof (Z.mod_pos_bound (byte_val x) 128 ltac:(lia)) as Hmx.
      pose proof (Z.mod_pos_bound (byte_val y) 128 ltac:(lia)) as Hmy.
      pose proof (Z.div_mod (byte_val x) 128 ltac:(lia)) as Hdx.
      pose proof (Z.div_mod (byte_val y) 128 ltac:(lia)) as Hdy.
      assert (Hqx : byte_val x / 128 = 1) by lia.
      assert (Hqy : byte_val y / 128 = 1) by lia.
      assert (Hacc : varint_continue 0 c1 = varint_continue 0 c2) by lia.
      assert (Hxy : x = y) by (apply byte_val_inj; lia).
      rewrite (IH c2 H1 H2 Hacc), Hxy. reflexivity.
Qed.

Lemma terminated_or_not (data : bytes) :
  (exists (cont : bytes) (last : byte) (rest : bytes),
      data = cont ++ last :: rest /\
      forallb high_bit cont = true /\ high_bit last = false) \/
  forallb high_bit data = true.
Proof.
  induction data as [|d data IH].
  - right. reflexivity.
  - destruct (high_bit d) eqn:Hd.
    + destruct IH as [(cont & last & rest & -> & Hc & Hl)|Hall].
      * left. exists (d :: cont), last, rest. repeat split; [|exact Hl].
        cbn [forallb]. now rewrite Hd.
      * right. cbn [forallb]. now rewrite Hd.
    + left. exists [], d, data. repeat split. exact Hd.
Qed.

Lemma leveldb_loop_unterminated (data : bytes) :
  forall idx pos : Z,
    forallb high_bit data = true ->
    leveldb_loop data idx pos = Raise IndexError.
Proof.
  induction data as [|d data IH]; intros idx pos Hall; [reflexivity|].
  cbn [forallb] in Hall. apply andb_true_iff in Hall as [Hd Hall].
  cbn [leveldb_loop]. unfold high_bit in Hd. apply negb_true_iff in Hd.
  rewrite Hd. now apply IH.
Qed.

Lemma leveldb_decode_inv (data : bytes) (v k : Z) :
  _leveldb_varint data = Ok (v, k) ->
  exists (cont : bytes) (last : byte) (rest : bytes),
    data = cont ++ last :: rest /\
    forallb high_bit cont = true /\ high_bit last = false /\
    v = varint_step (varint_continue 0 cont) last /\ k = len cont + 1.
Proof.
  intros Hrun.
  destruct (terminated_or_not data) as [(cont & last & rest & -> & Hc & Hl)|Hall].
  - exists cont, last, rest. unfold _leveldb_varint in Hrun.
    rewrite leveldb_loop_terminated in Hrun by assumption.
    apply Ok_inj in Hrun. injection Hrun as <- <-.
    repeat split; assumption.
  - unfold _leveldb_varint in Hrun.
    rewrite leveldb_loop_unterminated in Hrun by exact Hall. discriminate.
Qed.

Lemma take_terminated (cont : bytes) (last : byte) (rest : bytes) :
  take (len cont + 1) (cont ++ last :: rest) = cont ++ [last].
Proof.
  unfold take, len.
  replace (Z.to_nat (Z.of_nat (List.length cont) + 1))
    with (List.length cont + 1)%nat by lia.
  change (last :: rest) with ([last] ++ rest). rewrite app_assoc.
  rewrite firstn_app. rewrite firstn_all2 by (rewrite length_app; cbn; lia).
  rewrite length_app. cbn [List.length].
  replace (List.length cont + 1 - (List.length cont + 1))%nat with 0%nat by lia.
  cbn [firstn]. apply app_nil_r.
Qed.

(** X5. [_leveldb_varint] either finds a terminating byte (high bit clear)
    after a run of continuation bytes, and then returns a non-negative
    value and the position just after that byte, whatever follows it; or
    every byte of the buffer has its high bit set (the empty buffer
    included) and it raises [IndexError].  It fails in no other way. *)
Theorem leveldb_varint_total :
  forall data : bytes,
    (exists (cont : bytes) (last : byte) (rest : bytes) (v : Z),
        data = cont ++ last :: rest /\
        forallb high_bit cont = true /\ high_bit last = false /\
        _leveldb_varint data = Ok (v, len cont + 1) /\
        0 <= v /\
        forall rest' : bytes,
          _leveldb_varint (cont ++ last :: rest') = Ok (v, len cont + 1)) \/
    (forallb high_bit data = true /\ _leveldb_varint data = Raise IndexError).
Proof.
  intros data.
  destruct (terminated_or_not data) as [(cont & last & rest & -> & Hc & Hl)|Hall].
  - left. exists cont, last, rest, (varint_step (varint_continue 0 cont) last).
    assert (Hdec : forall r, _leveldb_varint (cont ++ last :: r)
                             = Ok (varint_step (varint_continue 0 cont) last,
                                   len cont + 1)).
    { intros r. unfold _leveldb_varint.
      rewrite leveldb_loop_terminated by assumption. f_equal. }
    repeat split; try assumption; try apply Hdec.
    rewrite varint_step_arith.
    destruct (varint_continue_nonneg cont 0 ltac:(lia)) as [Hpos _].
    pose proof (byte_val_range last).
    pose proof (Z.mod_pos_bound (byte_val last) 128 ltac:(lia)). lia.
  - right. split; [exact Hall|]. now apply leveldb_loop_unterminated.
Qed.

(** X6. The index-db encoding is unambiguous: two buffers that decode to
    the same value start with the same encoding, byte for byte (the
    [n := n + 1] after each continuation byte is what rules out a second
    encoding of a value). *)
Theorem leveldb_varint_injective :
  forall (d1 d2 : bytes) (v k1 k2 : Z),
    _leveldb_varint d1 = Ok (v, k1) ->
    _leveldb_varint d2 = Ok (v, k2) ->
    k1 = k2 /\ take k1 d1 = take k2 d2.
Proof.
  intros d1 d2 v k1 k2 H1 H2.
  destruct (leveldb_decode_inv d1 v k1 H1)
    as (c1 & l1 & r1 & -> & Hc1 & Hl1 & Hv1 & ->).
  destruct (leveldb_decode_inv d2 v k2 H2)
    as (c2 & l2 & r2 & -> & Hc2 & Hl2 & Hv2 & ->).
  rewrite Hv1, !varint_step_arith in Hv2.
  rewrite high_bit_spec in Hl1, Hl2. apply Z.leb_gt in Hl1, Hl2.
  pose proof (byte_val_range l1) as Hr1. pose proof (byte_val_range l2) as Hr2.
  rewrite !Z.mod_small in Hv2 by lia.
  assert (Hacc : varint_continue 0 c1 = varint_continue 0 c2) by lia.
  assert (Hlast : l1 = l2) by (apply byte_val_inj; lia).
  pose proof (varint_continue_inj c1 c2 Hc1 Hc2 Hacc) as Hcont.
  subst c2 l2. split; [reflexivity|]. now rewrite !take_terminated.
Qed.

Lemma leveldb_varint_injective_witness :
  3 = 3 /\ take 3 [x80; x80; x00; xaa] = take 3 [x80; x80; x00; xbb; xcc].
Proof.
  apply (leveldb_varint_injective
           [x80; x80; x00; xaa] [x80; x80; x00; xbb; xcc] 16512 3 3);
    reflexivity.
Defined.

(** ** index.py: index records *)

Lemma leveldb_at (d : bytes) (o v k : Z) :
  0 <= o ->
  _leveldb_varint (drop o d) = Ok (v, k) ->
  0 <= v /\ 1 <= k /\ o + k <= len d /\
  forall t : bytes, _leveldb_varint (drop o (d ++ t)) = Ok (v, k).
Proof.
  intros Ho Hrun.
  destruct (leveldb_decode_inv _ _ _ Hrun)
    as (cont & last & rest & Hsplit & Hc & Hl & -> & ->).
  pose proof (len_nonneg cont) as Hn.
  assert (Hlen : len (drop o d) = len cont + 1 + len rest).
  { rewrite Hsplit, len_app, len_cons. lia. }
  rewrite len_drop in Hlen by exact Ho. pose proof (len_nonneg rest).
  repeat split; try lia.
  - rewrite varint_step_arith.
    destruct (varint_continue_nonneg cont 0 ltac:(lia)) as [Hpos _].
    pose proof (Z.mod_pos_bound (byte_val last) 128 ltac:(lia)). lia.
  - intros t. rewrite drop_app by lia. rewrite Hsplit, <- app_assoc.
    cbn [app]. unfold _leveldb_varint.
    rewrite leveldb_loop_terminated by assumption. f_equal.
Qed.

Lemma land_8_of_24 (s : Z) : Z.land s 24 = 0 -> Z.land s 8 = 0.
Proof.
  intros H24. change 8 with (Z.land 24 8). now rewrite Z.land_assoc, H24.
Qed.

Lemma land_16_of_24 (s : Z) : Z.land s 24 = 0 -> Z.land s 16 = 0.
Proof.
  intros H24. change 16 with (Z.land 24 16). now rewrite Z.land_assoc, H24.
Qed.

Lemma truthy_false (n : Z) : truthy n = false <-> n = 0.
Proof. unfold truthy. rewrite negb_false_iff. apply Z.eqb_eq. Qed.

Lemma truthy_true (n : Z) : truthy n = true <-> n <> 0.
Proof. unfold truthy. rewrite negb_true_iff. apply Z.eqb_neq. Qed.

(** Runs [DBBlockIndex.init] in a hypothesis [H] up to the length check,
    naming each decoded varint. *)
Ltac read_varint H v k Hv :=
  match type of H with
  | context [_leveldb_varint (drop ?o ?d)] =>
    destruct (_leveldb_varint (drop o d)) as [[v k]|?] eqn:Hv;
    cbn [lift obind] in H; [|discriminate H]
  end.

Ltac read_index H :=
  let v0 := fresh "v0" in let k0 := fresh "k0" in let H0 := fresh "Hv0" in
  let v1 := fresh "hgt" in let k1 := fresh "k1" in let H1 := fresh "Hv1" in
  let v2 := fresh "st" in let k2 := fresh "k2" in let H2 := fresh "Hv2" in
  let v3 := fresh "ntx" in let k3 := fresh "k3" in let H3 := fresh "Hv3" in
  let v4 := fresh "fil" in let k4 := fresh "k4" in let H4 := fresh "Hv4" in
  let v5 := fresh "dpos" in let k5 := fresh "k5" in let H5 := fresh "Hv5" in
  let v6 := fresh "upos" in let k6 := fresh "k6" in let H6 := fresh "Hv6" in
  let Tf := fresh "Tfile" in let Td := fresh "Tdata" in let Tu := fresh "Tundo" in
  unfold DBBlockIndex.init in H; cbv zeta in H;
  read_varint H v0 k0 H0; read_varint H v1 k1 H1;
  read_varint H v2 k2 H2; read_varint H v3 k3 H3;
  destruct (truthy (Z.land v2 (Z.lor BLOCK_HAVE_DATA BLOCK_HAVE_UNDO))) eqn:Tf;
  [read_varint H v4 k4 H4|cbn [obind] in H];
  (destruct (truthy (Z.land v2 BLOCK_HAVE_DATA)) eqn:Td;
   [read_varint H v5 k5 H5|cbn [obind] in H]);
  (destruct (truthy (Z.land v2 BLOCK_HAVE_UNDO)) eqn:Tu;
   [read_varint H v6 k6 H6|cbn [obind] in H]).

(** X7. In a decoded block-index record the height, status and count are
    non-negative, and the sentinels are exact: [file] is [-1] exactly when
    the status has neither BLOCK_HAVE_DATA nor BLOCK_HAVE_UNDO, [data_pos]
    is [-1] exactly when it lacks BLOCK_HAVE_DATA, and [undo_pos] is set
    exactly when it has BLOCK_HAVE_UNDO; so a record with a data position
    always has a file number. *)
Theorem block_index_sentinels :
  forall (block_hash : string) (raw_data : bytes) (idx : DBBlockIndex.t),
    DBBlockIndex.init block_hash raw_data = Done idx ->
    DBBlockIndex.hash idx = block_hash /\
    0 <= DBBlockIndex.height idx /\
    0 <= DBBlockIndex.status idx /\
    0 <= DBBlockIndex.n_tx idx /\
    (DBBlockIndex.file idx = -1 <-> Z.land (DBBlockIndex.status idx) 24 = 0) /\
    (DBBlockIndex.data_pos idx = -1
     <-> Z.land (DBBlockIndex.status idx) BLOCK_HAVE_DATA = 0) /\
    (DBBlockIndex.undo_pos idx = None
     <-> Z.land (DBBlockIndex.status idx) BLOCK_HAVE_UNDO = 0) /\
    (DBBlockIndex.data_pos idx <> -1 -> 0 <= DBBlockIndex.file idx).
Proof.
  intros block_hash raw_data idx Hrun.
  read_index Hrun;
    (destruct (negb (_ =? len raw_data)) in Hrun; [discriminate Hrun|]);
    (destruct (DBBlockIndex.unpack_header (last_n 80 raw_data))
      as [[[[ver prv] mrk] non]|?]; cbn [lift obind] in Hrun;
     [|discriminate Hrun]);
    injection Hrun as <-;
    cbn [DBBlockIndex.hash DBBlockIndex.height DBBlockIndex.status
         DBBlockIndex.n_tx DBBlockIndex.file DBBlockIndex.data_pos
         DBBlockIndex.undo_pos];
    repeat match goal with
           | H : _leveldb_varint (drop ?o _) = Ok _ |- _ =>
             let F := fresh "F" in
             assert (F : 0 <= o) by lia;
             apply (leveldb_at _ _ _ _ F) in H;
             destruct H as (? & ? & ? & _); clear F
           end;
    change (Z.lor BLOCK_HAVE_DATA BLOCK_HAVE_UNDO) with 24 in *;
    repeat match goal with
           | H : truthy _ = true |- _ => apply truthy_true in H
           | H : truthy _ = false |- _ => apply truthy_false in H
           end;
    repeat split; try lia; try congruence; try discriminate;
    try (intros; exfalso; lia);
    try (intros; now apply land_8_of_24);
    try (intros; now apply land_16_of_24);
    match goal with
    | H24 : Z.land ?s 24 = 0, H8 : Z.land ?s BLOCK_HAVE_DATA <> 0 |- _ =>
      exfalso; apply H8; now apply land_8_of_24
    end.
Qed.

Lemma slice_drop {A : Type} (d : list A) (p a b : Z) :
  0 <= p -> 0 <= a -> slice (drop p d) a b = slice d (p + a) (p + b).
Proof.
  intros Hp Ha. unfold slice. rewrite drop_drop by lia.
  f_equal. lia.
Qed.

Ltac varint_facts :=
  repeat match goal with
         | H : _leveldb_varint (drop ?o _) = Ok _ |- _ =>
           let F := fresh "F" in
           assert (F : 0 <= o) by lia;
           apply (leveldb_at _ _ _ _ F) in H;
           destruct H as (? & ? & ? & ?); clear F
         end.

Lemma length_slice {A : Type} (l : list A) (a b : Z) :
  0 <= a <= b -> b <= len l ->
  List.length (slice l a b) = Z.to_nat (b - a).
Proof.
  intros Hab Hb. pose proof (len_slice l a b Hab Hb) as Hlen.
  unfold len in Hlen. lia.
Qed.

Lemma unpack_header_at (raw_data : bytes) (p : Z) :
  0 <= p -> len raw_data = p + 80 ->
  DBBlockIndex.unpack_header (last_n 80 raw_data)
  = Ok (le_value (slice raw_data p (p + 4)), slice raw_data (p + 4) (p + 36),
        slice raw_data (p + 36) (p + 68),
        le_value (slice raw_data (p + 76) (p + 80))).
Proof.
  intros Hp Hlen. unfold last_n. rewrite Hlen.
  replace (Z.max 0 (p + 80 - 80)) with p by lia.
  unfold DBBlockIndex.unpack_header.
  rewrite len_drop, Hlen by exact Hp.
  replace (Z.max 0 (p + 80 - p)) with 80 by lia.
  change (80 =? 80) with true. cbv iota.
  rewrite !slice_drop by lia. rewrite Z.add_0_r. reflexivity.
Qed.



Lemma block_index_sentinels_witness :
  DBBlockIndex.init "h" sample_block_index = Done sample_index /\
  DBBlockIndex.status sample_index = 29 /\
  (DBBlockIndex.data_pos sample_index <> -1 ->
   0 <= DBBlockIndex.file sample_index).
Proof.
  assert (Hrun : DBBlockIndex.init "h" sample_block_index = Done sample_index)
    by (vm_compute; reflexivity).
  split; [exact Hrun|]. split; [reflexivity|].
  exact (proj2 (proj2 (proj2 (proj2 (proj2 (proj2 (proj2
           (block_index_sentinels "h" sample_block_index sample_index
                                  Hrun)))))))).
Defined.

Lemma leveldb_raise (d : bytes) (e : exn) :
  _leveldb_varint d = Raise e -> e = IndexError.
Proof.
  intros Hrun.
  destruct (terminated_or_not d) as [(cont & last & rest & -> & Hc & Hl)|Hall];
    unfold _leveldb_varint in Hrun.
  - rewrite leveldb_loop_terminated in Hrun by assumption. discriminate.
  - rewrite leveldb_loop_unterminated in Hrun by exact Hall.
    now injection Hrun as <-.
Qed.

(** A status without BLOCK_HAVE_DATA and BLOCK_HAVE_UNDO together has
    neither of them. *)
Ltac status_absurd :=
  match goal with
  | Hf : truthy (Z.land ?s (Z.lor BLOCK_HAVE_DATA BLOCK_HAVE_UNDO)) = false,
    Hd : truthy (Z.land ?s _) = true |- _ =>
    exfalso; apply truthy_false in Hf; apply truthy_true in Hd; apply Hd;
    (apply land_8_of_24 || apply land_16_of_24); exact Hf
  end.

Ltac read_varint_or_fail H :=
  match type of H with
  | context [_leveldb_varint (drop ?o ?d)] =>
    let Hv := fresh "Hv" in
    destruct (_leveldb_varint (drop o d)) as [[? ?]|?] eqn:Hv;
    cbn [lift obind] in H;
    [|apply leveldb_raise in Hv; subst; injection H as <-; left; reflexivity]
  end.

(** X9. Decoding a block-index record fails in two ways only: with
    [IndexError] when a varint runs off the end of the value, and with
    [IOError("Invalid block.")] when the varints are not followed by
    exactly 80 bytes.  In particular a valid record followed by any extra
    byte is rejected. *)
Theorem block_index_errors :
  forall (block_hash : string) (raw_data : bytes),
    (forall e : error,
        DBBlockIndex.init block_hash raw_data = Fail e ->
        e = Exn IndexError \/ e = IOError "Invalid block.") /\
    (forall (idx : DBBlockIndex.t) (t : bytes),
        DBBlockIndex.init block_hash raw_data = Done idx ->
        t <> [] ->
        DBBlockIndex.init block_hash (raw_data ++ t)
        = Fail (IOError "Invalid block.")).
Proof.
  intros block_hash raw_data. split.
  - intros e Hrun. unfold DBBlockIndex.init in Hrun. cbv zeta in Hrun.
    do 4 read_varint_or_fail Hrun.
    destruct (truthy (Z.land _ (Z.lor BLOCK_HAVE_DATA BLOCK_HAVE_UNDO)));
      [read_varint_or_fail Hrun|cbn [obind] in Hrun];
      (destruct (truthy (Z.land _ BLOCK_HAVE_DATA));
       [read_varint_or_fail Hrun|cbn [obind] in Hrun]);
      (destruct (truthy (Z.land _ BLOCK_HAVE_UNDO));
       [read_varint_or_fail Hrun|cbn [obind] in Hrun]);
      (match type of Hrun with
       | context [?P + 80 =? len raw_data] =>
         destruct (Z.eqb_spec (P + 80) (len raw_data)) as [Hlen|];
         cbn [negb] in Hrun;
         [|injection Hrun as <-; right; reflexivity]
       end);
      varint_facts;
      rewrite unpack_header_at with (p := len raw_data - 80) in Hrun by lia;
      discriminate Hrun.
  - intros idx t Hrun Ht.
    assert (Hlt : 0 < len t).
    { destruct t; [congruence|]. rewrite len_cons.
      pose proof (len_nonneg t). lia. }
    read_index Hrun; try status_absurd;
      (match type of Hrun with
       | context [?P + 80 =? len raw_data] =>
         destruct (Z.eqb_spec (P + 80) (len raw_data)) as [Hlen|];
         cbn [negb] in Hrun; [|discriminate Hrun]
       end);
      clear Hrun; varint_facts;
      unfold DBBlockIndex.init; cbv zeta;
      repeat (match goal with
              | H : forall t, _leveldb_varint (drop ?o (_ ++ t)) = _ |- _ =>
                rewrite H; clear H; cbn [lift obind]
              | H : truthy _ = _ |- _ => rewrite H; clear H; cbn [obind]
              end);
      rewrite len_app;
      (match goal with
       | |- context [?a =? ?b] =>
         destruct (Z.eqb_spec a b) as [Heq|]; [exfalso; lia|reflexivity]
       end).
Qed.

Lemma block_index_errors_witness :
  DBBlockIndex.init "h" sample_block_index = Done sample_index /\
  DBBlockIndex.init "h" (sample_block_index ++ [x00])
  = Fail (IOError "Invalid block.") /\
  (DBBlockIndex.init "h" [x80; x80] = Fail (Exn IndexError) ->
   Exn IndexError = Exn IndexError \/ Exn IndexError = IOError "Invalid block.").
Proof.
  assert (Hrun : DBBlockIndex.init "h" sample_block_index = Done sample_index)
    by (vm_compute; reflexivity).
  split; [exact Hrun|]. split.
  - apply (proj2 (block_index_errors "h" sample_block_index) sample_index);
      [exact Hrun|discriminate].
  - apply (proj1 (block_index_errors "h" [x80; x80])).
Defined.

(** X10. A transaction-index record is three consecutive index-db
    varints: the decoded file number and offsets are non-negative,
    whatever follows the third varint is ignored (there is no length
    check, unlike for a block-index record), and the only failure is the
    [IndexError] of a varint that runs off the end. *)
Theorem transaction_index_decode :
  forall (tx_hash : string) (raw_data : bytes),
    (forall idx : DBTransactionIndex.t,
        DBTransactionIndex.init tx_hash raw_data = Ok idx ->
        DBTransactionIndex.hash idx = tx_hash /\
        0 <= DBTransactionIndex.blockfile_no idx /\
        0 <= DBTransactionIndex.file_offset idx /\
        0 <= DBTransactionIndex.block_offset idx /\
        forall t : bytes,
          DBTransactionIndex.init tx_hash (raw_data ++ t) = Ok idx) /\
    (forall e : exn,
        DBTransactionIndex.init tx_hash raw_data = Raise e -> e = IndexError).
Proof.
  intros tx_hash raw_data. unfold DBTransactionIndex.init. cbv zeta. split.
  - intros idx Hrun.
    destruct (_leveldb_varint (drop 0 raw_data)) as [[v1 k1]|?] eqn:H1;
      cbn [bind] in Hrun; [|discriminate Hrun].
    destruct (_leveldb_varint (drop (0 + k1) raw_data)) as [[v2 k2]|?] eqn:H2;
      cbn [bind] in Hrun; [|discriminate Hrun].
    destruct (_leveldb_varint (drop (0 + k1 + k2) raw_data))
      as [[v3 k3]|?] eqn:H3; cbn [bind] in Hrun; [|discriminate Hrun].
    apply Ok_inj in Hrun. subst idx.
    cbn [DBTransactionIndex.hash DBTransactionIndex.blockfile_no
         DBTransactionIndex.file_offset DBTransactionIndex.block_offset].
    apply (leveldb_at _ _ _ _ (Z.le_refl 0)) in H1 as (P1 & K1 & _ & E1).
    assert (F2 : 0 <= 0 + k1) by lia.
    apply (leveldb_at _ _ _ _ F2) in H2 as (P2 & K2 & _ & E2).
    assert (F3 : 0 <= 0 + k1 + k2) by lia.
    apply (leveldb_at _ _ _ _ F3) in H3 as (P3 & K3 & _ & E3).
    repeat split; try assumption.
    intros t. rewrite E1. cbn [bind]. rewrite E2. cbn [bind]. rewrite E3.
    reflexivity.
  - intros e Hrun.
    destruct (_leveldb_varint (drop 0 raw_data)) as [[v1 k1]|?] eqn:H1;
      cbn [bind] in Hrun;
      [|injection Hrun as <-; now apply leveldb_raise in H1].
    destruct (_leveldb_varint (drop (0 + k1) raw_data)) as [[v2 k2]|?] eqn:H2;
      cbn [bind] in Hrun;
      [|injection Hrun as <-; now apply leveldb_raise in H2].
    destruct (_leveldb_varint (drop (0 + k1 + k2) raw_data))
      as [[v3 k3]|?] eqn:H3; cbn [bind] in Hrun;
      [discriminate Hrun|injection Hrun as <-; now apply leveldb_raise in H3].
Qed.

Lemma transaction_index_decode_witness :
  DBTransactionIndex.init "t" [x00; x08; x81; x00]
  = Ok (DBTransactionIndex.Build "t" 0 8 256) /\
  DBTransactionIndex.init "t" ([x00; x08; x81; x00] ++ [xff; xff])
  = Ok (DBTransactionIndex.Build "t" 0 8 256) /\
  (DBTransactionIndex.init "t" [x00; x08; x81] = Raise IndexError ->
   IndexError = IndexError).
Proof.
  split; [reflexivity|]. split.
  - apply (proj1 (transaction_index_decode "t" [x00; x08; x81; x00])).
    reflexivity.
  - apply (proj2 (transaction_index_decode "t" [x00; x08; x81])).
Defined.

(** ** transaction.py: reading from a shorter buffer *)

Lemma varint_restrict (d t : bytes) (v k : Z) :
  varint (d ++ t) = Ok (v, k) -> k <= len d -> varint d = Ok (v, k).
Proof.
  intros Hrun Hk. pose proof (varint_bounds _ _ _ Hrun) as (_ & Hk1 & _).
  destruct d as [|b rest]; [rewrite len_nil in Hk; lia|].
  rewrite len_cons in Hk. cbn [app] in Hrun.
  destruct (varint_cases b (rest ++ t))
    as [(Hsmall & Heq)|[(Hwide & Hin & Heq)|(_ & _ & Heq)]];
    rewrite Heq in Hrun; try discriminate; apply Ok_inj in Hrun.
  - rewrite <- Hrun. now apply varint_small.
  - injection Hrun as <- <-.
    destruct (varint_cases b rest)
      as [(Hsmall & _)|[(_ & _ & Heq')|(_ & Hout & _)]]; try lia.
    rewrite Heq'. rewrite take_app by lia. reflexivity.
Qed.

Lemma varint_at_restrict (d t : bytes) (o v k : Z) :
  0 <= o ->
  varint (drop o (d ++ t)) = Ok (v, k) ->
  o + k <= len d ->
  varint (drop o d) = Ok (v, k).
Proof.
  intros Ho Hrun Hend. pose proof (varint_bounds _ _ _ Hrun) as (_ & Hk1 & _).
  rewrite drop_app in Hrun by lia.
  apply varint_restrict in Hrun; [exact Hrun|].
  rewrite len_drop by exact Ho. lia.
Qed.

Lemma input_restrict (d t : bytes) (o : Z) (inp : TxInput.t) :
  0 <= o ->
  TxInput.from_bytes (drop o (d ++ t)) = Ok inp ->
  o + TxInput.size inp <= len d ->
  TxInput.from_bytes (drop o d) = Ok inp.
Proof.
  intros Ho. unfold TxInput.from_bytes. rewrite !drop_drop by lia.
  destruct (varint (drop (o + 36) (d ++ t))) as [[L k]|e] eqn:Hv;
    [|discriminate].
  cbn [bind]. intros Heq. apply Ok_inj in Heq. subst inp.
  unfold TxInput.size. cbn [TxInput._script_start TxInput._script_length].
  intros Hend.
  pose proof (varint_bounds _ _ _ Hv) as (HL & Hk1 & _).
  rewrite (varint_at_restrict d t (o + 36) L k) by (assumption || lia).
  cbn [bind]. do 2 f_equal.
  rewrite drop_app by lia. symmetry. apply take_app.
  rewrite len_drop by lia. lia.
Qed.

Lemma output_restrict (d t : bytes) (o : Z) (out : TxOutput.t) :
  0 <= o ->
  TxOutput.from_bytes (drop o (d ++ t)) = Ok out ->
  o + TxOutput.size out <= len d ->
  TxOutput.from_bytes (drop o d) = Ok out.
Proof.
  intros Ho. unfold TxOutput.from_bytes. rewrite !drop_drop by lia.
  destruct (varint (drop (o + 8) (d ++ t))) as [[L k]|e] eqn:Hv;
    [|discriminate].
  cbn [bind]. intros Heq. apply Ok_inj in Heq. subst out.
  cbn [TxOutput.size]. intros Hend.
  pose proof (varint_bounds _ _ _ Hv) as (HL & Hk1 & _).
  rewrite (varint_at_restrict d t (o + 8) L k) by (assumption || lia).
  cbn [bind]. f_equal.
  rewrite drop_app by lia.
  rewrite slice_app by (try rewrite len_drop by lia; lia).
  rewrite take_app by (rewrite len_drop by lia; lia).
  reflexivity.
Qed.

Lemma read_inputs_restrict (d t : bytes) (n : nat) :
  forall (o : Z) (acc ins : list TxInput.t) (o' : Z),
    0 <= o ->
    Transaction.read_inputs n (d ++ t) o acc = Ok (ins, o') ->
    o' <= len d ->
    Transaction.read_inputs n d o acc = Ok (ins, o').
Proof.
  induction n as [|n IH]; intros o acc ins o' Ho; cbn [Transaction.read_inputs].
  - trivial.
  - destruct (TxInput.from_bytes (drop o (d ++ t))) as [inp|e] eqn:Hin;
      [|discriminate].
    cbn [bind]. intros Hrest Hend.
    destruct (input_at (d ++ t) [] o inp Ho Hin) as [Hsz _].
    assert (Ho' : 0 <= o + TxInput.size inp) by lia.
    destruct (read_inputs_at (d ++ t) [] _ _ _ _ _ Ho' Hrest) as [Hmono _].
    rewrite (input_restrict d t o inp Ho Hin) by lia. cbn [bind].
    now apply IH.
Qed.

Lemma read_outputs_restrict (d t : bytes) (n : nat) :
  forall (o : Z) (acc outs : list TxOutput.t) (o' : Z),
    0 <= o ->
    Transaction.read_outputs n (d ++ t) o acc = Ok (outs, o') ->
    o' <= len d ->
    Transaction.read_outputs n d o acc = Ok (outs, o').
Proof.
  induction n as [|n IH]; intros o acc outs o' Ho;
    cbn [Transaction.read_outputs].
  - trivial.
  - destruct (TxOutput.from_bytes (drop o (d ++ t))) as [out|e] eqn:Hout;
      [|discriminate].
    cbn [bind]. intros Hrest Hend.
    destruct (output_at (d ++ t) [] o out Ho Hout) as [Hsz _].
    assert (Ho' : 0 <= o + TxOutput.size out) by lia.
    destruct (read_outputs_at (d ++ t) [] _ _ _ _ _ Ho' Hrest) as [Hmono _].
    rewrite (output_restrict d t o out Ho Hout) by lia. cbn [bind].
    now apply IH.
Qed.

Lemma read_stack_restrict (d t : bytes) (n : nat) :
  forall (o : Z) (_in _in' : TxInput.t) (o' : Z),
    0 <= o ->
    Transaction.read_stack n (d ++ t) o _in = Ok (_in', o') ->
    o' <= len d ->
    Transaction.read_stack n d o _in = Ok (_in', o').
Proof.
  induction n as [|n IH]; intros o _in _in' o' Ho; cbn [Transaction.read_stack].
  - trivial.
  - destruct (varint (drop o (d ++ t))) as [[cl k]|e] eqn:Hv; [|discriminate].
    cbn [bind]. intros Hrest Hend.
    pose proof (varint_bounds _ _ _ Hv) as (Hcl & Hk1 & _).
    assert (Ho' : 0 <= o + k + cl) by lia.
    destruct (read_stack_at (d ++ t) [] _ _ _ _ _ Ho' Hrest) as [Hmono _].
    rewrite (varint_at_restrict d t o cl k) by (assumption || lia).
    cbn [bind]. rewrite slice_app in Hrest by lia. now apply IH.
Qed.

Lemma read_witnesses_restrict (d t : bytes) (ins : list TxInput.t) :
  forall (o : Z) (ins' : list TxInput.t) (o' : Z),
    0 <= o ->
    Transaction.read_witnesses ins (d ++ t) o = Ok (ins', o') ->
    o' <= len d ->
    Transaction.read_witnesses ins d o = Ok (ins', o').
Proof.
  induction ins as [|_in rest IH]; intros o ins' o' Ho;
    cbn [Transaction.read_witnesses].
  - trivial.
  - destruct (varint (drop o (d ++ t))) as [[wn k]|e] eqn:Hv; [|discriminate].
    cbn [bind].
    destruct (Transaction.read_stack (Z.to_nat wn) (d ++ t) (o + k) _in)
      as [[_in' o1]|e] eqn:Hstack; [|discriminate].
    cbn [bind].
    destruct (Transaction.read_witnesses rest (d ++ t) o1)
      as [[rest' o2]|e] eqn:Hrest; [|discriminate].
    cbn [bind]. intros Heq Hend. apply Ok_inj in Heq.
    injection Heq as <- <-.
    pose proof (varint_bounds _ _ _ Hv) as (Hwn & Hk1 & _).
    assert (Ho1 : 0 <= o + k) by lia.
    destruct (read_stack_at (d ++ t) [] _ _ _ _ _ Ho1 Hstack) as [Hm1 _].
    assert (Ho2 : 0 <= o1) by lia.
    destruct (read_witnesses_at (d ++ t) [] _ _ _ _ Ho2 Hrest) as [Hm2 _].
    rewrite (varint_at_restrict d t o wn k) by (assumption || lia).
    cbn [bind].
    rewrite (read_stack_restrict d t _ _ _ _ _ Ho1 Hstack) by lia.
    cbn [bind]. rewrite (IH _ _ _ Ho2 Hrest) by lia. reflexivity.
Qed.

Lemma walk_restrict (d t : bytes) (f : Transaction.fields) :
  Transaction.walk (d ++ t) = Ok f ->
  Transaction.f_offset f + 4 <= len d ->
  Transaction.walk d = Ok f.
Proof.
  intros Hwalk Hend.
  destruct (walk_at (d ++ t) [] f Hwalk) as (Hoff & _ & _).
  revert Hwalk. unfold Transaction.walk. cbv zeta.
  rewrite slice_app by lia.
  remember (bytes_eqb [x00; x01] (slice d 4 (4 + 2))) as seg eqn:Hsegdef.
  set (o0 := if seg then 4 + 2 else 4).
  assert (Ho0 : 4 <= o0) by (subst o0; destruct seg; lia).
  destruct (varint (drop o0 (d ++ t))) as [[n_in k1]|e] eqn:Hv1; [|discriminate].
  cbn [bind].
  destruct (Transaction.read_inputs (Z.to_nat n_in) (d ++ t) (o0 + k1) [])
    as [[ins o1]|e] eqn:Hins; [|discriminate].
  cbn [bind].
  destruct (varint (drop o1 (d ++ t))) as [[n_out k2]|e] eqn:Hv2; [|discriminate].
  cbn [bind].
  destruct (Transaction.read_outputs (Z.to_nat n_out) (d ++ t) (o1 + k2) [])
    as [[outs o2]|e] eqn:Houts; [|discriminate].
  cbn [bind].
  pose proof (varint_bounds _ _ _ Hv1) as (_ & Hk1 & _).
  assert (Hp1 : 0 <= o0 + k1) by lia.
  destruct (read_inputs_at (d ++ t) [] _ _ _ _ _ Hp1 Hins) as [Hm1 _].
  pose proof (varint_bounds _ _ _ Hv2) as (_ & Hk2 & _).
  assert (Hp2 : 0 <= o1) by lia.
  assert (Hp3 : 0 <= o1 + k2) by lia.
  destruct (read_outputs_at (d ++ t) [] _ _ _ _ _ Hp3 Houts) as [Hm2 _].
  assert (Hp4 : 0 <= o2) by lia.
  assert (Hres : forall o3, o2 <= o3 -> o3 + 4 <= len d ->
            varint (drop o0 d) = Ok (n_in, k1) /\
            Transaction.read_inputs (Z.to_nat n_in) d (o0 + k1) [] = Ok (ins, o1) /\
            varint (drop o1 d) = Ok (n_out, k2) /\
            Transaction.read_outputs (Z.to_nat n_out) d (o1 + k2) []
            = Ok (outs, o2)).
  { intros o3 Ho3 Hlen. repeat split.
    - apply (varint_at_restrict d t); [lia|exact Hv1|lia].
    - apply (read_inputs_restrict d t); [exact Hp1|exact Hins|lia].
    - apply (varint_at_restrict d t); [lia|exact Hv2|lia].
    - apply (read_outputs_restrict d t); [exact Hp3|exact Houts|lia]. }
  destruct seg.
  - destruct (Transaction.read_witnesses ins (d ++ t) o2)
      as [[ins' o3]|e] eqn:Hwit; [|discriminate].
    cbn [bind]. intros Heq. apply Ok_inj in Heq. subst f.
    cbn [Transaction.f_offset] in Hend.
    destruct (read_witnesses_at (d ++ t) [] _ _ _ _ Hp4 Hwit) as [Hm3 _].
    destruct (Hres o3 Hm3 Hend) as (R1 & R2 & R3 & R4).
    rewrite R1. cbn [bind]. rewrite R2. cbn [bind]. rewrite R3. cbn [bind].
    rewrite R4. cbn [bind].
    rewrite (read_witnesses_restrict d t _ _ _ _ Hp4 Hwit) by lia.
    reflexivity.
  - intros Heq. apply Ok_inj in Heq. subst f.
    cbn [Transaction.f_offset] in Hend.
    destruct (Hres o2 (Z.le_refl _) Hend) as (R1 & R2 & R3 & R4).
    rewrite R1. cbn [bind]. rewrite R2. cbn [bind]. rewrite R3. cbn [bind].
    rewrite R4. reflexivity.
Qed.

Lemma from_bytes_restrict (b t : bytes) (tx : Transaction.t) :
  Transaction.from_bytes (b ++ t) = Ok tx ->
  Transaction.size tx <= len b ->
  Transaction.from_bytes b = Ok tx.
Proof.
  intros Hrun Hsize.
  destruct (from_bytes_inv (b ++ t) tx Hrun) as (f & Hwalk & _ & ->).
  cbn [Transaction.size] in Hsize.
  unfold Transaction.from_bytes.
  rewrite (walk_restrict b t f Hwalk Hsize). cbn [bind]. cbv zeta.
  destruct (walk_at (b ++ t) [] f Hwalk) as (Hoff & _ & _).
  rewrite len_take by lia.
  destruct (Z.eqb_spec (Transaction.f_offset f + 4)
                       (Z.min (Transaction.f_offset f + 4) (len b)));
    [|lia].
  cbn [negb]. rewrite take_app by exact Hsize. reflexivity.
Qed.

(** X11. A transaction re-parses from its own bytes: when a buffer parses
    as [tx], parsing [tx.raw] (the first [size] bytes of the buffer)
    returns the same transaction, and so does parsing any prefix of the
    buffer that still holds [size] bytes. *)
Theorem from_bytes_own_bytes :
  forall (raw_data : bytes) (tx : Transaction.t),
    Transaction.from_bytes raw_data = Ok tx ->
    Transaction.from_bytes (Transaction.raw tx) = Ok tx /\
    forall n : Z,
      Transaction.size tx <= n ->
      Transaction.from_bytes (take n raw_data) = Ok tx.
Proof.
  intros raw_data tx Hrun.
  destruct (from_bytes_inv raw_data tx Hrun) as (f & Hwalk & Hend & Htx).
  assert (Hsize : Transaction.size tx = Transaction.f_offset f + 4)
    by (subst tx; reflexivity).
  assert (Hraw : Transaction.raw tx = take (Transaction.size tx) raw_data)
    by (subst tx; reflexivity).
  destruct (walk_at raw_data [] f Hwalk) as (Hoff & _ & _).
  assert (Hprefix : forall n, Transaction.size tx <= n ->
                              Transaction.from_bytes (take n raw_data) = Ok tx).
  { intros n Hn. apply from_bytes_restrict with (t := drop n raw_data).
    - unfold take, drop. rewrite firstn_skipn. exact Hrun.
    - rewrite len_take by lia. lia. }
  split; [|exact Hprefix].
  rewrite Hraw. apply Hprefix. lia.
Qed.

Lemma from_bytes_own_bytes_witness :
  Transaction.from_bytes (segwit_tx ++ [xde; xad]) = Ok segwit_parsed /\
  Transaction.from_bytes (Transaction.raw segwit_parsed) = Ok segwit_parsed /\
  forall n : Z,
    Transaction.size segwit_parsed <= n ->
    Transaction.from_bytes (take n (segwit_tx ++ [xde; xad])) = Ok segwit_parsed.
Proof.
  assert (Hrun : Transaction.from_bytes (segwit_tx ++ [xde; xad])
                 = Ok segwit_parsed) by (vm_compute; reflexivity).
  split; [exact Hrun|].
  exact (from_bytes_own_bytes (segwit_tx ++ [xde; xad]) segwit_parsed Hrun).
Defined.

(** ** transaction.py: what a parsed transaction holds *)

Lemma varint_width (d : bytes) (v k : Z) :
  varint d = Ok (v, k) -> k = 1 \/ k = 3 \/ k = 5 \/ k = 9.
Proof.
  intros Hrun. destruct d as [|b rest]; [discriminate|].
  destruct (varint_cases b rest)
    as [(_ & Heq)|[(_ & _ & Heq)|(_ & _ & Heq)]];
    rewrite Heq in Hrun; try discriminate; apply Ok_inj in Hrun;
    injection Hrun as _ <-; [auto|].
  destruct (announced_width_values b) as [->|[->| ->]]; auto.
Qed.

Lemma input_parsed_complete (d : bytes) (o : Z) (inp : TxInput.t) :
  0 <= o ->
  TxInput.from_bytes (drop o d) = Ok inp ->
  o + TxInput.size inp <= len d ->
  input_complete inp /\ TxInput._witnesses inp = [].
Proof.
  intros Ho. unfold TxInput.from_bytes. rewrite drop_drop by lia.
  destruct (varint (drop (o + 36) d)) as [[L k]|e] eqn:Hv; [|discriminate].
  cbn [bind]. intros Heq. apply Ok_inj in Heq. subst inp.
  unfold input_complete, TxInput.size.
  cbn [TxInput._script_start TxInput._script_length TxInput.raw
       TxInput._witnesses].
  intros Hend. pose proof (varint_bounds _ _ _ Hv) as (HL & Hk & _).
  repeat split; try lia.
  rewrite len_take, len_drop by lia. lia.
Qed.

Lemma output_parsed_complete (d : bytes) (o : Z) (out : TxOutput.t) :
  0 <= o ->
  TxOutput.from_bytes (drop o d) = Ok out ->
  o + TxOutput.size out <= len d ->
  output_complete out.
Proof.
  intros Ho. unfold TxOutput.from_bytes. rewrite drop_drop by lia.
  destruct (varint (drop (o + 8) d)) as [[L k]|e] eqn:Hv; [|discriminate].
  cbn [bind]. intros Heq. apply Ok_inj in Heq. subst out.
  unfold output_complete.
  cbn [TxOutput.size TxOutput._script_raw TxOutput._value_raw].
  intros Hend. pose proof (varint_bounds _ _ _ Hv) as (HL & Hk & _).
  split.
  - rewrite len_take, len_drop by lia. lia.
  - exists k. split; [exact (varint_width _ _ _ Hv)|].
    rewrite len_slice; [lia|lia|]. rewrite len_drop by lia. lia.
Qed.

Lemma inputs_size_app (a b : list TxInput.t) :
  inputs_size (a ++ b) = inputs_size a + inputs_size b.
Proof.
  unfold inputs_size. induction a as [|x a IH]; cbn [app map fold_right]; lia.
Qed.

Lemma outputs_size_app (a b : list TxOutput.t) :
  outputs_size (a ++ b) = outputs_size a + outputs_size b.
Proof.
  unfold outputs_size. induction a as [|x a IH]; cbn [app map fold_right]; lia.
Qed.

Lemma read_inputs_complete (d : bytes) (n : nat) :
  forall (o : Z) (acc ins : list TxInput.t) (o' : Z),
    0 <= o ->
    Transaction.read_inputs n d o acc = Ok (ins, o') ->
    o' <= len d ->
    Forall (fun i => input_complete i /\ TxInput._witnesses i = []) acc ->
    Forall (fun i => input_complete i /\ TxInput._witnesses i = []) ins /\
    List.length ins = (List.length acc + n)%nat /\
    o' - o = inputs_size ins - inputs_size acc.
Proof.
  induction n as [|n IH]; intros o acc ins o' Ho; cbn [Transaction.read_inputs].
  - intros Heq _ Hacc. apply Ok_inj in Heq. injection Heq as <- <-.
    repeat split; [exact Hacc|lia|lia].
  - destruct (TxInput.from_bytes (drop o d)) as [inp|e] eqn:Hin; [|discriminate].
    cbn [bind]. intros Hrest Hend Hacc.
    destruct (input_at d [] o inp Ho Hin) as [Hsz _].
    assert (Ho' : 0 <= o + TxInput.size inp) by lia.
    destruct (read_inputs_at d [] _ _ _ _ _ Ho' Hrest) as [Hmono _].
    assert (Hc : input_complete inp /\ TxInput._witnesses inp = [])
      by (apply (input_parsed_complete d o); [exact Ho|exact Hin|lia]).
    destruct (IH _ _ _ _ Ho' Hrest Hend) as (Hall & Hlen & Hsum).
    { apply Forall_app. split; [exact Hacc|]. constructor; [exact Hc|constructor]. }
    rewrite length_app in Hlen. cbn [List.length] in Hlen.
    rewrite inputs_size_app in Hsum. unfold inputs_size at 3 in Hsum.
    cbn [map fold_right] in Hsum.
    repeat split; [exact Hall|lia|lia].
Qed.

Lemma read_outputs_complete (d : bytes) (n : nat) :
  forall (o : Z) (acc outs : list TxOutput.t) (o' : Z),
    0 <= o ->
    Transaction.read_outputs n d o acc = Ok (outs, o') ->
    o' <= len d ->
    Forall output_complete acc ->
    Forall output_complete outs /\
    List.length outs = (List.length acc + n)%nat /\
    o' - o = outputs_size outs - outputs_size acc.
Proof.
  induction n as [|n IH]; intros o acc outs o' Ho;
    cbn [Transaction.read_outputs].
  - intros Heq _ Hacc. apply Ok_inj in Heq. injection Heq as <- <-.
    repeat split; [exact Hacc|lia|lia].
  - destruct (TxOutput.from_bytes (drop o d)) as [out|e] eqn:Hout;
      [|discriminate].
    cbn [bind]. intros Hrest Hend Hacc.
    destruct (output_at d [] o out Ho Hout) as [Hsz _].
    assert (Ho' : 0 <= o + TxOutput.size out) by lia.
    destruct (read_outputs_at d [] _ _ _ _ _ Ho' Hrest) as [Hmono _].
    assert (Hc : output_complete out)
      by (apply (output_parsed_complete d o); [exact Ho|exact Hout|lia]).
    destruct (IH _ _ _ _ Ho' Hrest Hend) as (Hall & Hlen & Hsum).
    { apply Forall_app. split; [exact Hacc|]. constructor; [exact Hc|constructor]. }
    rewrite length_app in Hlen. cbn [List.length] in Hlen.
    rewrite outputs_size_app in Hsum. unfold outputs_size at 3 in Hsum.
    cbn [map fold_right] in Hsum.
    repeat split; [exact Hall|lia|lia].
Qed.

Lemma read_stack_fields (d : bytes) (n : nat) :
  forall (o : Z) (_in _in' : TxInput.t) (o' : Z),
    Transaction.read_stack n d o _in = Ok (_in', o') ->
    TxInput._script_length _in' = TxInput._script_length _in /\
    TxInput._script_start _in' = TxInput._script_start _in /\
    TxInput.raw _in' = TxInput.raw _in /\
    exists items : list bytes,
      TxInput._witnesses _in' = TxInput._witnesses _in ++ items /\
      List.length items = n.
Proof.
  induction n as [|n IH]; intros o _in _in' o'; cbn [Transaction.read_stack].
  - intros Heq. apply Ok_inj in Heq. injection Heq as <- <-.
    repeat split. exists []. split; [now rewrite app_nil_r|reflexivity].
  - destruct (varint (drop o d)) as [[cl k]|e]; [|discriminate].
    cbn [bind]. intros Hrest.
    destruct (IH _ _ _ _ Hrest) as (HL & Hs & Hr & items & Hw & Hn).
    cbn [TxInput.add_witness TxInput._script_length TxInput._script_start
         TxInput.raw TxInput._witnesses] in HL, Hs, Hr, Hw.
    repeat split; try assumption.
    exists (slice d (o + k) (o + k + cl) :: items). split.
    + rewrite Hw, <- app_assoc. reflexivity.
    + cbn [List.length]. now rewrite Hn.
Qed.

Lemma read_witnesses_fields (d : bytes) (ins : list TxInput.t) :
  forall (o : Z) (ins' : list TxInput.t) (o' : Z),
    Transaction.read_witnesses ins d o = Ok (ins', o') ->
    Forall2 (fun a b =>
               TxInput._script_length b = TxInput._script_length a /\
               TxInput._script_start b = TxInput._script_start a /\
               TxInput.raw b = TxInput.raw a) ins ins'.
Proof.
  induction ins as [|_in rest IH]; intros o ins' o';
    cbn [Transaction.read_witnesses].
  - intros Heq. apply Ok_inj in Heq. injection Heq as <- <-. constructor.
  - destruct (varint (drop o d)) as [[wn k]|e]; [|discriminate].
    cbn [bind].
    destruct (Transaction.read_stack (Z.to_nat wn) d (o + k) _in)
      as [[_in' o1]|e] eqn:Hstack; [|discriminate].
    cbn [bind].
    destruct (Transaction.read_witnesses rest d o1) as [[rest' o2]|e] eqn:Hrest;
      [|discriminate].
    cbn [bind]. intros Heq. apply Ok_inj in Heq. injection Heq as <- <-.
    constructor; [|now apply (IH _ _ _ Hrest)].
    destruct (read_stack_fields _ _ _ _ _ _ Hstack) as (HL & Hs & Hr & _).
    now repeat split.
Qed.

Lemma same_fields_complete (ins ins' : list TxInput.t) :
  Forall2 (fun a b =>
             TxInput._script_length b = TxInput._script_length a /\
             TxInput._script_start b = TxInput._script_start a /\
             TxInput.raw b = TxInput.raw a) ins ins' ->
  Forall (fun i => input_complete i /\ TxInput._witnesses i = []) ins ->
  Forall input_complete ins' /\
  List.length ins' = List.length ins /\
  inputs_size ins' = inputs_size ins.
Proof.
  induction 1 as [|a b ins ins' (HL & Hs & Hr) _ IH]; intros Hall.
  - repeat split. constructor.
  - inversion Hall as [|? ? [Hc _] Hall']; subst.
    destruct (IH Hall') as (Hf & Hlen & Hsum).
    repeat split.
    + constructor; [|exact Hf].
      unfold input_complete, TxInput.size in *. rewrite HL, Hs, Hr. exact Hc.
    + cbn [List.length]. now rewrite Hlen.
    + unfold inputs_size in *. cbn [map fold_right]. rewrite Hsum.
      unfold TxInput.size. now rewrite HL, Hs.
Qed.

(** What the walk has established for a buffer that holds the whole
    transaction: [k_in] and [k_out] are the widths of the two counts. *)
Lemma walk_structure (d : bytes) (f : Transaction.fields) :
  Transaction.walk d = Ok f ->
  Transaction.f_offset f + 4 <= len d ->
  exists k_in k_out : Z,
    (k_in = 1 \/ k_in = 3 \/ k_in = 5 \/ k_in = 9) /\
    (k_out = 1 \/ k_out = 3 \/ k_out = 5 \/ k_out = 9) /\
    len (Transaction.f_inputs f) = Transaction.f_n_inputs f /\
    len (Transaction.f_outputs f) = Transaction.f_n_outputs f /\
    Forall input_complete (Transaction.f_inputs f) /\
    Forall output_complete (Transaction.f_outputs f) /\
    (let body := 4 + (if Transaction.f_is_segwit f then 2 else 0) + k_in
                 + inputs_size (Transaction.f_inputs f) + k_out
                 + outputs_size (Transaction.f_outputs f) in
     if Transaction.f_is_segwit f
     then Transaction.f_offset_before f = Some body
     else Transaction.f_offset f = body
          /\ Forall (fun i => TxInput._witnesses i = [])
                    (Transaction.f_inputs f)).
Proof.
  intros Hwalk Hend.
  destruct (walk_at d [] f Hwalk) as (Hoff & Hbefore & _).
  revert Hwalk. unfold Transaction.walk. cbv zeta.
  destruct (bytes_eqb [x00; x01] (slice d 4 (4 + 2))) eqn:Hseg.
  - destruct (varint (drop (4 + 2) d)) as [[n_in k1]|e] eqn:Hv1; [|discriminate].
    cbn [bind].
    destruct (Transaction.read_inputs (Z.to_nat n_in) d (4 + 2 + k1) [])
      as [[ins o1]|e] eqn:Hins; [|discriminate].
    cbn [bind].
    destruct (varint (drop o1 d)) as [[n_out k2]|e] eqn:Hv2; [|discriminate].
    cbn [bind].
    destruct (Transaction.read_outputs (Z.to_nat n_out) d (o1 + k2) [])
      as [[outs o2]|e] eqn:Houts; [|discriminate].
    cbn [bind].
    destruct (Transaction.read_witnesses ins d o2) as [[ins' o3]|e] eqn:Hwit;
      [|discriminate].
    cbn [bind]. intros Heq. apply Ok_inj in Heq. subst f.
    cbn [Transaction.f_offset Transaction.f_inputs Transaction.f_outputs
         Transaction.f_n_inputs Transaction.f_n_outputs
         Transaction.f_is_segwit Transaction.f_offset_before] in *.
    pose proof (varint_bounds _ _ _ Hv1) as (Hn1 & Hk1 & _).
    pose proof (varint_bounds _ _ _ Hv2) as (Hn2 & Hk2 & _).
    assert (Hp1 : 0 <= 4 + 2 + k1) by lia.
    destruct (read_inputs_at d [] _ _ _ _ _ Hp1 Hins) as [Hm1 _].
    assert (Hp3 : 0 <= o1 + k2) by lia.
    destruct (read_outputs_at d [] _ _ _ _ _ Hp3 Houts) as [Hm2 _].
    assert (Hp4 : 0 <= o2) by lia.
    destruct (read_witnesses_at d [] _ _ _ _ Hp4 Hwit) as [Hm3 _].
    destruct (read_inputs_complete d _ _ _ _ _ Hp1 Hins ltac:(lia)
                                   (Forall_nil _)) as (Ci & Li & Si).
    destruct (read_outputs_complete d _ _ _ _ _ Hp3 Houts ltac:(lia)
                                    (Forall_nil _)) as (Co & Lo & So).
    destruct (same_fields_complete _ _ (read_witnesses_fields _ _ _ _ _ Hwit) Ci)
      as (Ci' & Li' & Si').
    exists k1, k2.
    split; [exact (varint_width _ _ _ Hv1)|].
    split; [exact (varint_width _ _ _ Hv2)|].
    cbn [List.length] in Li, Lo. unfold len.
    split; [lia|]. split; [lia|]. split; [exact Ci'|]. split; [exact Co|].
    cbv zeta. f_equal. rewrite Si'.
    change (inputs_size []) with 0 in Si.
    change (outputs_size []) with 0 in So. lia.
  - destruct (varint (drop 4 d)) as [[n_in k1]|e] eqn:Hv1; [|discriminate].
    cbn [bind].
    destruct (Transaction.read_inputs (Z.to_nat n_in) d (4 + k1) [])
      as [[ins o1]|e] eqn:Hins; [|discriminate].
    cbn [bind].
    destruct (varint (drop o1 d)) as [[n_out k2]|e] eqn:Hv2; [|discriminate].
    cbn [bind].
    destruct (Transaction.read_outputs (Z.to_nat n_out) d (o1 + k2) [])
      as [[outs o2]|e] eqn:Houts; [|discriminate].
    cbn [bind]. intros Heq. apply Ok_inj in Heq. subst f.
    cbn [Transaction.f_offset Transaction.f_inputs Transaction.f_outputs
         Transaction.f_n_inputs Transaction.f_n_outputs
         Transaction.f_is_segwit Transaction.f_offset_before] in *.
    pose proof (varint_bounds _ _ _ Hv1) as (Hn1 & Hk1 & _).
    pose proof (varint_bounds _ _ _ Hv2) as (Hn2 & Hk2 & _).
    assert (Hp1 : 0 <= 4 + k1) by lia.
    destruct (read_inputs_at d [] _ _ _ _ _ Hp1 Hins) as [Hm1 _].
    assert (Hp3 : 0 <= o1 + k2) by lia.
    destruct (read_outputs_at d [] _ _ _ _ _ Hp3 Houts) as [Hm2 _].
    destruct (read_inputs_complete d _ _ _ _ _ Hp1 Hins ltac:(lia)
                                   (Forall_nil _)) as (Ci & Li & Si).
    destruct (read_outputs_complete d _ _ _ _ _ Hp3 Houts ltac:(lia)
                                    (Forall_nil _)) as (Co & Lo & So).
    exists k1, k2.
    split; [exact (varint_width _ _ _ Hv1)|].
    split; [exact (varint_width _ _ _ Hv2)|].
    cbn [List.length] in Li, Lo. unfold len.
    split; [lia|]. split; [lia|].
    split; [eapply Forall_impl; [|exact Ci]; now intros ? [? _]|].
    split; [exact Co|].
    cbv zeta. split.
    + change (inputs_size []) with 0 in Si.
      change (outputs_size []) with 0 in So. lia.
    + eapply Forall_impl; [|exact Ci]. now intros ? [_ ?].
Qed.

Lemma Some_inj {A : Type} (a b : A) : Some a = Some b -> a = b.
Proof. now intros [= ->]. Qed.

Lemma uint32_of_four (data : bytes) :
  len data = 4 -> uint32 data = Ok (le_value data) /\ 0 <= le_value data < 2 ^ 32.
Proof.
  intros H4. pose proof (le_value_bound data) as Hb. rewrite H4 in Hb.
  unfold uint32, unpack_le. rewrite H4. split; [reflexivity|exact Hb].
Qed.

Lemma input_accessors (inp : TxInput.t) :
  input_complete inp ->
  (exists i, TxInput.transaction_index inp = Ok i /\ 0 <= i < 2 ^ 32) /\
  (exists s, TxInput.sequence_number inp = Ok s /\ 0 <= s < 2 ^ 32) /\
  len (Script.raw (TxInput.script inp)) = TxInput._script_length inp /\
  String.length (TxInput.transaction_hash inp) = 64%nat.
Proof.
  intros (HL & Hs & Hlen). unfold TxInput.size in Hlen.
  unfold TxInput.transaction_index, TxInput.sequence_number, TxInput.script,
    TxInput.transaction_hash, TxInput.size.
  cbn [Script.raw]. repeat split.
  - eexists. apply uint32_of_four. rewrite len_slice; lia.
  - eexists. apply uint32_of_four. rewrite len_slice; lia.
  - rewrite len_slice; lia.
  - unfold hexstring. rewrite hex_length, length_rev.
    pose proof (len_take 32 (TxInput.raw inp) ltac:(lia)) as Ht.
    unfold len in Ht at 1. lia.
Qed.

(** X12. In a parsed transaction the input list has [n_inputs] entries and
    every input is complete: its [raw] has exactly [size] bytes, its
    previous-output index and sequence number decode (below [2^32]), its
    script has the declared length and its previous-transaction hash shows
    64 characters.  Without the witness marker no input has a witness. *)
Theorem parsed_inputs_complete :
  forall (raw_data : bytes) (tx : Transaction.t),
    Transaction.from_bytes raw_data = Ok tx ->
    len (Transaction.inputs tx) = Transaction.n_inputs tx /\
    Forall (fun inp =>
              len (TxInput.raw inp) = TxInput.size inp /\
              (exists i, TxInput.transaction_index inp = Ok i /\ 0 <= i < 2 ^ 32) /\
              (exists s, TxInput.sequence_number inp = Ok s /\ 0 <= s < 2 ^ 32) /\
              len (Script.raw (TxInput.script inp)) = TxInput._script_length inp /\
              String.length (TxInput.transaction_hash inp) = 64%nat)
           (Transaction.inputs tx) /\
    (Transaction.is_segwit tx = false ->
     Forall (fun inp => TxInput.witnesses inp = []) (Transaction.inputs tx)).
Proof.
  intros raw_data tx Hrun.
  destruct (from_bytes_inv raw_data tx Hrun) as (f & Hwalk & Hend & ->).
  destruct (walk_structure raw_data f Hwalk Hend)
    as (k_in & k_out & _ & _ & Hni & _ & Ci & _ & Hbody).
  cbn [Transaction.inputs Transaction.n_inputs Transaction.is_segwit].
  split; [exact Hni|]. split.
  - eapply Forall_impl; [|exact Ci]. intros inp Hc.
    split; [exact (proj2 (proj2 Hc))|]. now apply input_accessors.
  - intros Hseg. rewrite Hseg in Hbody. exact (proj2 Hbody).
Qed.

Lemma parsed_inputs_complete_witness :
  Transaction.from_bytes legacy_tx = Ok legacy_parsed /\
  len (Transaction.inputs legacy_parsed) = 1 /\
  Forall (fun inp => TxInput.witnesses inp = [])
         (Transaction.inputs legacy_parsed).
Proof.
  assert (Hrun : Transaction.from_bytes legacy_tx = Ok legacy_parsed)
    by (vm_compute; reflexivity).
  destruct (parsed_inputs_complete legacy_tx legacy_parsed Hrun)
    as (Hn & _ & Hw).
  split; [exact Hrun|]. split; [exact Hn|]. apply Hw. reflexivity.
Defined.

(** X13. In a parsed transaction the output list has [n_outputs] entries,
    every output's value decodes to a number below [2^64] and its size is
    8 plus the width of its script length plus the script it holds; the
    version and the locktime decode, both below [2^32]. *)
Theorem parsed_outputs_complete :
  forall (raw_data : bytes) (tx : Transaction.t),
    Transaction.from_bytes raw_data = Ok tx ->
    len (Transaction.outputs tx) = Transaction.n_outputs tx /\
    Forall (fun out =>
              (exists v, TxOutput.value out = Ok v /\ 0 <= v < 2 ^ 64) /\
              exists k,
                (k = 1 \/ k = 3 \/ k = 5 \/ k = 9) /\
                TxOutput.size out
                = 8 + k + len (Script.raw (TxOutput.script out)))
           (Transaction.outputs tx) /\
    (exists v, Transaction.version tx = Ok v /\ 0 <= v < 2 ^ 32) /\
    (exists l, Transaction.locktime tx = Ok l /\ 0 <= l < 2 ^ 32).
Proof.
  intros raw_data tx Hrun.
  pose proof (from_bytes_raw_len raw_data tx Hrun) as Hlen.
  destruct (from_bytes_inv raw_data tx Hrun) as (f & Hwalk & Hend & ->).
  destruct (walk_structure raw_data f Hwalk Hend)
    as (k_in & k_out & _ & _ & _ & Hno & _ & Co & _).
  destruct (walk_at raw_data [] f Hwalk) as (Hoff & _ & _).
  cbn [Transaction.outputs Transaction.n_outputs Transaction.raw
       Transaction.size] in *.
  unfold Transaction.version, Transaction.locktime.
  cbn [Transaction.raw].
  split; [exact Hno|]. split; [|split].
  - eapply Forall_impl; [|exact Co]. intros out (Hv & k & Hk & Hsize).
    split; [|exists k; split; [exact Hk|exact Hsize]].
    unfold TxOutput.value. pose proof (le_value_bound (TxOutput._value_raw out)) as Hb.
    rewrite Hv in Hb. exists (le_value (TxOutput._value_raw out)).
    unfold uint64, unpack_le. rewrite Hv. split; [reflexivity|exact Hb].
  - eexists. apply uint32_of_four. rewrite len_take by lia. lia.
  - eexists. rewrite (last_n_slice _ _ Hlen) by lia.
    apply uint32_of_four. rewrite len_slice; lia.
Qed.

Lemma parsed_outputs_complete_witness :
  Transaction.from_bytes segwit_tx = Ok segwit_parsed /\
  len (Transaction.outputs segwit_parsed) = 1 /\
  (exists v, Transaction.version segwit_parsed = Ok v /\ 0 <= v < 2 ^ 32).
Proof.
  assert (Hrun : Transaction.from_bytes segwit_tx = Ok segwit_parsed)
    by (vm_compute; reflexivity).
  destruct (parsed_outputs_complete segwit_tx segwit_parsed Hrun)
    as (Hn & _ & Hv & _).
  split; [exact Hrun|]. split; [exact Hn|exact Hv].
Defined.

(** X14. The size of a parsed transaction is the sum of its parts: 4
    bytes of version, 2 of marker for a witness serialization, the two
    counts ([k_in] and [k_out] bytes wide), the inputs, the outputs, and
    the 4 bytes of locktime; for a witness serialization the witnesses
    lie between that body, which is [offset_before_witnesses], and the
    locktime. *)
Theorem transaction_size_accounting :
  forall (raw_data : bytes) (tx : Transaction.t),
    Transaction.from_bytes raw_data = Ok tx ->
    exists k_in k_out : Z,
      (k_in = 1 \/ k_in = 3 \/ k_in = 5 \/ k_in = 9) /\
      (k_out = 1 \/ k_out = 3 \/ k_out = 5 \/ k_out = 9) /\
      (Transaction.is_segwit tx = false ->
       Transaction.size tx
       = 4 + k_in + inputs_size (Transaction.inputs tx) + k_out
         + outputs_size (Transaction.outputs tx) + 4) /\
      (Transaction.is_segwit tx = true ->
       exists before : Z,
         Transaction._offset_before_tx_witnesses tx = Some before /\
         before = 4 + 2 + k_in + inputs_size (Transaction.inputs tx) + k_out
                  + outputs_size (Transaction.outputs tx) /\
         before + 4 <= Transaction.size tx).
Proof.
  intros raw_data tx Hrun.
  destruct (from_bytes_inv raw_data tx Hrun) as (f & Hwalk & Hend & ->).
  destruct (walk_structure raw_data f Hwalk Hend)
    as (k_in & k_out & Hk1 & Hk2 & _ & _ & _ & _ & Hbody).
  destruct (walk_at raw_data [] f Hwalk) as (_ & Hbefore & _).
  cbn [Transaction.inputs Transaction.outputs Transaction.size
       Transaction.is_segwit Transaction._offset_before_tx_witnesses].
  exists k_in, k_out. split; [exact Hk1|]. split; [exact Hk2|].
  cbv zeta in Hbody. destruct (Transaction.f_is_segwit f).
  - split; [discriminate|]. intros _.
    destruct Hbefore as (before & Hb & Hrange).
    rewrite Hb in Hbody. apply Some_inj in Hbody.
    exists before. split; [exact Hb|]. split; lia.
  - split; [|discriminate]. intros _. destruct Hbody as [Hoff _]. lia.
Qed.

Lemma transaction_size_accounting_witness :
  Transaction.from_bytes legacy_tx = Ok legacy_parsed /\
  exists k_in k_out : Z,
    Transaction.size legacy_parsed
    = 4 + k_in + inputs_size (Transaction.inputs legacy_parsed) + k_out
      + outputs_size (Transaction.outputs legacy_parsed) + 4.
Proof.
  assert (Hrun : Transaction.from_bytes legacy_tx = Ok legacy_parsed)
    by (vm_compute; reflexivity).
  destruct (transaction_size_accounting legacy_tx legacy_parsed Hrun)
    as (k_in & k_out & _ & _ & Hlegacy & _).
  split; [exact Hrun|]. exists k_in, k_out. apply Hlegacy. reflexivity.
Defined.

(** X15. The virtual size of a parsed transaction lies between a quarter
    of its size (rounded up) and its size, and is strictly below the size
    for every witness serialization. *)
Theorem vsize_bounds :
  forall (raw_data : bytes) (tx : Transaction.t),
    Transaction.from_bytes raw_data = Ok tx ->
    exists v : Z,
      Transaction.vsize tx = Ok v /\
      Transaction.size tx <= 4 * v /\
      v <= Transaction.size tx /\
      (Transaction.is_segwit tx = true -> v < Transaction.size tx).
Proof.
  intros raw_data tx Hrun.
  destruct (from_bytes_inv raw_data tx Hrun) as (f & Hwalk & Hend & ->).
  destruct (walk_at raw_data [] f Hwalk) as (Hoff & Hbefore & _).
  unfold Transaction.vsize.
  cbn [Transaction.is_segwit Transaction._offset_before_tx_witnesses
       Transaction.size].
  destruct (Transaction.f_is_segwit f).
  - destruct Hbefore as (before & -> & Hb). cbn [negb].
    eexists. split; [reflexivity|].
    match goal with |- context [Transaction.ceil_quarter ?w] =>
      pose proof (ceil_quarter_spec w) end.
    split; [lia|]. split; [lia|]. intros _. lia.
  - cbn [negb]. eexists. split; [reflexivity|].
    split; [lia|]. split; [lia|]. discriminate.
Qed.

Lemma vsize_bounds_witness :
  Transaction.from_bytes segwit_tx = Ok segwit_parsed /\
  exists v : Z,
    Transaction.vsize segwit_parsed = Ok v /\
    Transaction.size segwit_parsed <= 4 * v /\
    v <= Transaction.size segwit_parsed /\
    (Transaction.is_segwit segwit_parsed = true ->
     v < Transaction.size segwit_parsed).
Proof.
  assert (Hrun : Transaction.from_bytes segwit_tx = Ok segwit_parsed)
    by (vm_compute; reflexivity).
  split; [exact Hrun|]. exact (vsize_bounds segwit_tx segwit_parsed Hrun).
Defined.

(** ** transaction.py: coinbase and replace-by-fee *)

Lemma zero_hash_bytes (data : bytes) :
  hexstring data = str_mul "0" 64 <-> data = repeat x00 32.
Proof.
  change (str_mul "0" 64) with (hexstring (repeat x00 32)). split.
  - unfold hexstring. intros Heq. apply hex_inj in Heq.
    rewrite <- (rev_involutive data), Heq. reflexivity.
  - now intros ->.
Qed.

(** X16. [is_coinbase] holds exactly when some input spends the null
    transaction: the first 32 bytes of its raw data are 32 zero bytes. *)
Theorem is_coinbase_spec :
  forall tx : Transaction.t,
    Transaction.is_coinbase tx = true <->
    exists inp : TxInput.t,
      In inp (Transaction.inputs tx) /\
      take 32 (TxInput.raw inp) = repeat x00 32.
Proof.
  intros tx. unfold Transaction.is_coinbase. rewrite existsb_exists.
  split; intros (inp & Hin & Hzero); exists inp; (split; [exact Hin|]).
  - apply String.eqb_eq in Hzero. now apply zero_hash_bytes.
  - apply String.eqb_eq. now apply zero_hash_bytes.
Qed.

Lemma rbf_loop_spec (ins : list TxInput.t) :
  Forall input_complete ins ->
  exists b : bool,
    Transaction.rbf_loop ins = Ok b /\
    (b = true <->
     exists (inp : TxInput.t) (s : Z),
       In inp ins /\ TxInput.sequence_number inp = Ok s /\ s < 4294967294).
Proof.
  induction 1 as [|inp ins Hc _ IH]; cbn [Transaction.rbf_loop].
  - exists false. split; [reflexivity|]. split; [discriminate|].
    intros (? & ? & [] & _).
  - destruct (input_accessors inp Hc) as (_ & (s & Hs & _) & _).
    rewrite Hs. cbn [bind]. destruct (Z.ltb_spec s 4294967294) as [Hlt|Hge].
    + exists true. split; [reflexivity|]. split; [|reflexivity].
      intros _. exists inp, s. repeat split; [now left|exact Hs|exact Hlt].
    + destruct IH as (b & Hb & Hiff). exists b. split; [exact Hb|].
      rewrite Hiff. split.
      * intros (i & s' & Hin & Hs' & Hlt). exists i, s'.
        repeat split; [now right|exact Hs'|exact Hlt].
      * intros (i & s' & [<-|Hin] & Hs' & Hlt).
        -- rewrite Hs in Hs'. apply Ok_inj in Hs'. lia.
        -- exists i, s'. now repeat split.
Qed.

(** X17. On a parsed transaction [uses_replace_by_fee] always returns: it
    is true exactly when the transaction is not a coinbase and some input
    has a sequence number below [0xfffffffe]; a coinbase never signals
    replace-by-fee. *)
Theorem uses_replace_by_fee_spec :
  forall (raw_data : bytes) (tx : Transaction.t),
    Transaction.from_bytes raw_data = Ok tx ->
    exists b : bool,
      Transaction.uses_replace_by_fee tx = Ok b /\
      (b = true <->
       Transaction.is_coinbase tx = false /\
       exists (inp : TxInput.t) (s : Z),
         In inp (Transaction.inputs tx) /\
         TxInput.sequence_number inp = Ok s /\ s < 4294967294).
Proof.
  intros raw_data tx Hrun.
  destruct (from_bytes_inv raw_data tx Hrun) as (f & Hwalk & Hend & Htx).
  destruct (walk_structure raw_data f Hwalk Hend)
    as (_ & _ & _ & _ & _ & _ & Ci & _).
  assert (Hc : Forall input_complete (Transaction.inputs tx))
    by (subst tx; exact Ci).
  unfold Transaction.uses_replace_by_fee.
  destruct (Transaction.is_coinbase tx).
  - exists false. split; [reflexivity|]. split; [discriminate|].
    intros [? _]. discriminate.
  - destruct (rbf_loop_spec _ Hc) as (b & Hb & Hiff).
    exists b. split; [exact Hb|]. rewrite Hiff. split.
    + intros Hex. now split.
    + now intros [_ Hex].
Qed.

Lemma uses_replace_by_fee_spec_witness :
  Transaction.from_bytes legacy_tx = Ok legacy_parsed /\
  Transaction.is_coinbase legacy_parsed = true /\
  Transaction.uses_replace_by_fee legacy_parsed = Ok false.
Proof.
  assert (Hrun : Transaction.from_bytes legacy_tx = Ok legacy_parsed)
    by (vm_compute; reflexivity).
  destruct (uses_replace_by_fee_spec legacy_tx legacy_parsed Hrun)
    as (b & Hb & Hiff).
  split; [exact Hrun|]. split; [reflexivity|].
  rewrite Hb. destruct b; [|reflexivity].
  destruct (proj1 Hiff eq_refl) as [Hcb _]. discriminate Hcb.
Defined.

(** ** block.py: the transaction iterator *)

Lemma from_bytes_app (b t : bytes) (tx : Transaction.t) :
  Transaction.from_bytes b = Ok tx -> Transaction.from_bytes (b ++ t) = Ok tx.
Proof.
  intros Hrun.
  destruct (from_bytes_inv b tx Hrun) as (f & Hwalk & Hend & Htx).
  destruct (walk_at b t f Hwalk) as (_ & _ & Hext).
  unfold Transaction.from_bytes. rewrite (Hext Hend). cbn [bind]. cbv zeta.
  rewrite take_app by exact Hend.
  unfold Transaction.from_bytes in Hrun. rewrite Hwalk in Hrun. exact Hrun.
Qed.

Lemma slice_window {A : Type} (d : list A) (o w : Z) :
  slice d o (o + w) = take w (drop o d).
Proof. unfold slice. f_equal. lia. Qed.

Lemma split_window {A : Type} (d : list A) (w : Z) :
  d = take w d ++ drop w d.
Proof. unfold take, drop. now rewrite firstn_skipn. Qed.

Lemma ladder_finds (data : bytes) (o : Z) (tx : Transaction.t) :
  Transaction.from_bytes (drop o data) = Ok tx ->
  forall (fuel : nat) (j : Z),
    0 <= j -> (0 < fuel)%nat ->
    Transaction.size tx <= 1024 * 2 ^ (j + Z.of_nat fuel - 1) ->
    ladder fuel j data o = Some tx.
Proof.
  intros Hrun fuel. induction fuel as [|fuel IH]; intros j Hj Hfuel Hsize;
    [lia|].
  cbn [ladder]. cbv zeta. rewrite slice_window.
  assert (Hw : 0 < 1024 * 2 ^ j) by (pose proof (Z.pow_pos_nonneg 2 j); lia).
  destruct (Transaction.from_bytes (take (1024 * 2 ^ j) (drop o data)))
    as [tx'|e] eqn:Hwin.
  - apply from_bytes_app with (t := drop (1024 * 2 ^ j) (drop o data)) in Hwin.
    rewrite <- split_window, Hrun in Hwin. now apply Ok_inj in Hwin as ->.
  - destruct fuel as [|fuel].
    + exfalso. replace (j + Z.of_nat 1 - 1) with j in Hsize by lia.
      rewrite (split_window (drop o data) (1024 * 2 ^ j)) in Hrun.
      apply from_bytes_restrict in Hrun.
      * rewrite Hrun in Hwin. discriminate.
      * destruct (from_bytes_inv _ _ Hrun) as (f & _ & Hend & ->).
        cbn [Transaction.size] in *.
        rewrite <- (split_window (drop o data) (1024 * 2 ^ j)) in Hend.
        rewrite len_take by lia. lia.
    + apply IH; [lia|lia|].
      replace (j + 1 + Z.of_nat (S fuel) - 1)
        with (j + Z.of_nat (S (S fuel)) - 1) by lia.
      exact Hsize.
Qed.

Lemma ladder_none (data : bytes) (o : Z) (e : exn) :
  Transaction.from_bytes (drop o data) = Raise e ->
  forall (fuel : nat) (j : Z), ladder fuel j data o = None.
Proof.
  intros Hrun fuel. induction fuel as [|fuel IH]; intros j; [reflexivity|].
  cbn [ladder]. cbv zeta. rewrite slice_window.
  destruct (Transaction.from_bytes (take (1024 * 2 ^ j) (drop o data)))
    as [tx'|e'] eqn:Hwin; [|apply IH].
  apply from_bytes_app with (t := drop (1024 * 2 ^ j) (drop o data)) in Hwin.
  rewrite <- split_window, Hrun in Hwin. discriminate.
Qed.

Lemma ladder_widest (data : bytes) (o : Z) (tx : Transaction.t) :
  Transaction.from_bytes (drop o data) = Ok tx ->
  Transaction.size tx <= widest_slice ->
  ladder 20 0 data o = Some tx.
Proof.
  intros Hrun Hsize. apply ladder_finds; [exact Hrun|lia|lia|exact Hsize].
Qed.

Lemma block_loop_sequential (data : bytes) :
  forall (n : nat) (o : Z) (txs : list Transaction.t)
         (previous : option Transaction.t),
    sequential n data o = Ok txs ->
    Forall (fun tx => Transaction.size tx <= widest_slice) txs ->
    block_loop n data o previous = (txs, None) /\ List.length txs = n.
Proof.
  induction n as [|n IH]; intros o txs previous Hseq Hall.
  - cbn [sequential] in Hseq. apply Ok_inj in Hseq as <-. now split.
  - cbn [sequential] in Hseq.
    destruct (Transaction.from_bytes (drop o data)) as [tx|e] eqn:Htx;
      [|discriminate].
    cbn [bind] in Hseq.
    destruct (sequential n data (o + Transaction.size tx)) as [rest|e] eqn:Hrest;
      [|discriminate].
    cbn [bind] in Hseq. apply Ok_inj in Hseq as <-.
    apply Forall_cons_iff in Hall as [Hsize Hall].
    destruct (IH _ _ (Some tx) Hrest Hall) as [Hloop Hlen].
    cbn [block_loop]. cbv zeta.
    rewrite (ladder_widest data o tx Htx Hsize), Hloop.
    split; [reflexivity|]. cbn [List.length]. now rewrite Hlen.
Qed.

Lemma block_loop_bound (data : bytes) :
  forall (n : nat) (o : Z) (previous : Transaction.t)
         (txs : list Transaction.t) (e : option error),
    block_loop n data o (Some previous) = (txs, e) ->
    e = None /\ (List.length txs <= n)%nat.
Proof.
  induction n as [|n IH]; intros o previous txs e Hloop.
  - cbn [block_loop] in Hloop. inversion Hloop. split; [reflexivity|].
    cbn [List.length]. lia.
  - cbn [block_loop] in Hloop. cbv zeta in Hloop.
    destruct (ladder 20 0 data o) as [tx|].
    + destruct (block_loop n data (o + Transaction.size tx) (Some tx))
        as [rest e'] eqn:Hrest.
      destruct (IH _ _ _ _ Hrest) as [-> Hlen].
      inversion Hloop. split; [reflexivity|]. cbn [List.length]. lia.
    + destruct (block_loop n data (o + Transaction.size previous)
                           (Some previous)) as [rest e'] eqn:Hrest.
      destruct (IH _ _ _ _ Hrest) as [-> Hlen].
      inversion Hloop. subst. split; [reflexivity|]. lia.
Qed.

(** X18.  When the transactions of a block parse one after the other from
    the bytes that follow the count, and none is wider than the widest slice
    of the retry ladder (512 MiB), the iterator yields exactly those
    transactions, without an error, as many as the count announces;
    [Block.transactions] and [Block.n_transactions] agree with it. *)
Theorem block_transactions_sequential
        (raw_data : bytes) (n k : Z) (txs : list Transaction.t) :
  varint (drop 80 raw_data) = Ok (n, k) ->
  sequential (Z.to_nat n) (drop 80 raw_data) k = Ok txs ->
  Forall (fun tx => Transaction.size tx <= widest_slice) txs ->
  get_block_transactions raw_data = (txs, None) /\
  Block.transactions (Block.from_bytes raw_data) = Done txs /\
  Block.n_transactions (Block.from_bytes raw_data) = Ok n /\
  len txs = n.
Proof.
  intros Hn Hseq Hall.
  destruct (block_loop_sequential _ _ _ _ None Hseq Hall) as [Hloop Hlen].
  destruct (varint_bounds _ _ _ Hn) as [Hn0 _].
  assert (Hget : get_block_transactions raw_data = (txs, None)).
  { unfold get_block_transactions. cbv zeta. rewrite Hn. exact Hloop. }
  split; [exact Hget|]. split; [|split].
  - unfold Block.transactions, Block.from_bytes, Block.init.
    cbn [Block.raw]. now rewrite Hget.
  - unfold Block.n_transactions, Block.from_bytes, Block.init.
    cbn [Block.raw]. now rewrite Hn.
  - unfold len. rewrite Hlen. lia.
Qed.

Lemma block_transactions_sequential_witness :
  get_block_transactions sample_block = ([legacy_parsed; segwit_parsed], None)
  /\ Block.transactions (Block.from_bytes sample_block)
     = Done [legacy_parsed; segwit_parsed]
  /\ Block.n_transactions (Block.from_bytes sample_block) = Ok 2
  /\ len [legacy_parsed; segwit_parsed] = 2.
Proof.
  apply (block_transactions_sequential sample_block 2 1).
  - vm_compute. reflexivity.
  - vm_compute. reflexivity.
  - repeat constructor; vm_compute; discriminate.
Defined.

(** X19.  What the iterator does with a transaction that does not parse.
    If the first transaction of a block that announces at least one fails to
    parse, every slice of the ladder fails, nothing is yielded and the step
    to the next transaction reads a name that was never bound: the error is
    an UnboundLocalError, not the parser's.  Once a first transaction has
    parsed, the iteration cannot fail anymore: a later transaction that does
    not parse is skipped silently, so that at most (and possibly fewer than)
    the announced number is yielded. *)
Theorem block_transactions_failures (raw_data : bytes) (n k : Z) :
  varint (drop 80 raw_data) = Ok (n, k) ->
  0 < n ->
  (forall e : exn,
     Transaction.from_bytes (drop k (drop 80 raw_data)) = Raise e ->
     get_block_transactions raw_data = ([], Some UnboundLocalError)) /\
  (forall tx : Transaction.t,
     Transaction.from_bytes (drop k (drop 80 raw_data)) = Ok tx ->
     Transaction.size tx <= widest_slice ->
     exists rest : list Transaction.t,
       get_block_transactions raw_data = (tx :: rest, None) /\
       len (tx :: rest) <= n).
Proof.
  intros Hn Hpos.
  assert (Hsucc : exists m : nat, Z.to_nat n = S m)
    by (exists (Z.to_nat (n - 1)); lia).
  destruct Hsucc as [m Hm].
  unfold get_block_transactions. cbv zeta. rewrite Hn, Hm. split.
  - intros e Hfail. cbn [block_loop]. cbv zeta.
    now rewrite (ladder_none _ _ _ Hfail).
  - intros tx Hrun Hsize. cbn [block_loop]. cbv zeta.
    rewrite (ladder_widest _ _ _ Hrun Hsize).
    destruct (block_loop m (drop 80 raw_data) (k + Transaction.size tx)
                         (Some tx)) as [rest e] eqn:Hrest.
    destruct (block_loop_bound _ _ _ _ _ _ Hrest) as [-> Hlen].
    exists rest. split; [reflexivity|].
    rewrite len_cons. unfold len. lia.
Qed.

Lemma block_transactions_failures_witness :
  get_block_transactions sample_block_empty = ([], Some UnboundLocalError) /\
  exists rest : list Transaction.t,
    get_block_transactions sample_block_short = (legacy_parsed :: rest, None)
    /\ len (legacy_parsed :: rest) <= 2.
Proof.
  split.
  - destruct (block_transactions_failures sample_block_empty 1 1) as [Hfail _].
    + vm_compute. reflexivity.
    + lia.
    + eapply Hfail. vm_compute. reflexivity.
  - destruct (block_transactions_failures sample_block_short 2 1) as [_ Hskip].
    + vm_compute. reflexivity.
    + lia.
    + apply Hskip.
      * vm_compute. reflexivity.
      * vm_compute. discriminate.
Defined.

(** ** block_header.py *)

Lemma slice_take {A : Type} (d : list A) (n a b : Z) :
  0 <= a -> b <= n -> slice (take n d) a b = slice d a b.
Proof.
  intros Ha Hb. unfold slice, take, drop.
  rewrite skipn_firstn_comm, firstn_firstn. f_equal. lia.
Qed.

Lemma take_slice {A : Type} (d : list A) (n : Z) : take n d = slice d 0 n.
Proof. unfold slice, drop. cbn [Z.to_nat skipn]. now rewrite Z.sub_0_r. Qed.

Lemma header_field (raw_data : bytes) (a : Z) :
  0 <= a -> a + 4 <= 80 ->
  let field := slice (take 80 (take 80 raw_data)) a (a + 4) in
  (a + 4 <= len raw_data ->
   uint32 field = Ok (le_value (slice raw_data a (a + 4))) /\
   0 <= le_value (slice raw_data a (a + 4)) < 2 ^ 32) /\
  (len raw_data < a + 4 ->
   uint32 field
   = Raise (ValueError "Unable to decode data to uint32. Incorrect size.")).
Proof.
  intros Ha Hb field. unfold field.
  rewrite !slice_take by lia. split.
  - intros Hlen. apply uint32_of_four. rewrite len_slice; lia.
  - intros Hlen. unfold uint32.
    assert (Hshort : len (slice raw_data a (a + 4)) <> 4).
    { unfold slice. rewrite len_take by lia.
      pose proof (len_nonneg raw_data).
      destruct (Z.le_gt_cases a (len raw_data)).
      - rewrite len_drop by lia. lia.
      - rewrite len_drop by lia. lia. }
    now destruct (Z.eqb_spec (len (slice raw_data a (a + 4))) 4).
Qed.

Lemma header_hash (raw_data : bytes) (a : Z) :
  0 <= a -> a + 32 <= 80 -> a + 32 <= len raw_data ->
  let shown := hexstring (slice (take 80 (take 80 raw_data)) a (a + 32)) in
  shown = hexstring (slice raw_data a (a + 32)) /\ String.length shown = 64%nat.
Proof.
  intros Ha Hb Hlen shown. unfold shown. rewrite !slice_take by lia.
  split; [reflexivity|]. unfold hexstring.
  rewrite hex_length, length_rev, length_slice by lia.
  replace (a + 32 - a) with 32 by lia. reflexivity.
Qed.

(** X20.  The header of a block reads the first 80 bytes of the block and
    nothing else.  For a block of at least 80 bytes, version, timestamp
    (the seconds handed to the date conversion), bits and nonce are the
    little-endian values, below [2^32], of bytes 0-4, 68-72, 72-76 and 76-80
    of the block, and the previous block hash and the merkle root are the
    64 characters that show bytes 4-36 and 36-68 back to front.  For a
    shorter block the header is still built, and it is the nonce that fails,
    with the ValueError of [uint32]. *)
Theorem block_header_fields (raw_data : bytes) :
  let h := Block.header (Block.from_bytes raw_data) in
  (80 <= len raw_data ->
   BlockHeader.raw h = take 80 raw_data /\
   BlockHeader.version h = Ok (le_value (slice raw_data 0 4)) /\
   BlockHeader.timestamp h = Ok (le_value (slice raw_data 68 72)) /\
   BlockHeader.bits h = Ok (le_value (slice raw_data 72 76)) /\
   BlockHeader.nonce h = Ok (le_value (slice raw_data 76 80)) /\
   (forall a : Z, 0 <= a <= 76 ->
                  0 <= le_value (slice raw_data a (a + 4)) < 2 ^ 32) /\
   BlockHeader.previous_block_hash h = hexstring (slice raw_data 4 36) /\
   BlockHeader.merkle_root h = hexstring (slice raw_data 36 68) /\
   String.length (BlockHeader.previous_block_hash h) = 64%nat /\
   String.length (BlockHeader.merkle_root h) = 64%nat) /\
  (len raw_data < 80 ->
   BlockHeader.nonce h
   = Raise (ValueError "Unable to decode data to uint32. Incorrect size.")).
Proof.
  intros h.
  unfold h, Block.header, Block.from_bytes, Block.init, BlockHeader.from_bytes,
    BlockHeader.version, BlockHeader.timestamp, BlockHeader.bits,
    BlockHeader.nonce, BlockHeader.previous_block_hash,
    BlockHeader.merkle_root.
  cbn [Block.raw BlockHeader.raw]. split.
  - intros Hlen.
    split; [unfold take; rewrite firstn_firstn; reflexivity|].
    rewrite (take_slice (take 80 (take 80 raw_data)) 4).
    split; [apply (header_field raw_data 0); lia|].
    split; [apply (header_field raw_data 68); lia|].
    split; [apply (header_field raw_data 72); lia|].
    split; [apply (header_field raw_data 76); lia|].
    split; [intros a Ha; apply (header_field raw_data a); lia|].
    split; [apply (header_hash raw_data 4); lia|].
    split; [apply (header_hash raw_data 36); lia|].
    split; [apply (header_hash raw_data 4); lia|].
    apply (header_hash raw_data 36); lia.
  - intros Hlen. apply (header_field raw_data 76); lia.
Qed.

Lemma block_header_fields_witness :
  BlockHeader.version (Block.header (Block.from_bytes sample_block)) = Ok 1 /\
  BlockHeader.timestamp (Block.header (Block.from_bytes sample_block))
  = Ok 1231006505 /\
  BlockHeader.nonce (Block.header (Block.from_bytes sample_block))
  = Ok 497822588 /\
  BlockHeader.nonce (Block.header (Block.from_bytes (take 79 sample_block)))
  = Raise (ValueError "Unable to decode data to uint32. Incorrect size.").
Proof.
  destruct (block_header_fields sample_block) as [Hfull _].
  destruct (block_header_fields (take 79 sample_block)) as [_ Hshort].
  destruct Hfull as (_ & Hv & Ht & _ & Hn & _); [vm_compute; discriminate|].
  split; [exact Hv|]. split; [exact Ht|]. split; [exact Hn|].
  apply Hshort. vm_compute. reflexivity.
Defined.

(** ** blockchain.py: the block files *)

Lemma byte_val_byte_of (n : Z) : byte_val (byte_of n) = n mod 256.
Proof.
  unfold byte_val, byte_of.
  pose proof (Z.mod_pos_bound n 256 ltac:(lia)) as Hr.
  destruct (Byte.of_N (Z.to_N (n mod 256))) as [b|] eqn:Hb.
  - apply Byte.to_of_N in Hb. rewrite Hb. lia.
  - apply Byte.of_N_None_iff in Hb. lia.
Qed.

Lemma len_le_bytes (k : nat) (n : Z) : len (le_bytes k n) = Z.of_nat k.
Proof.
  revert n. induction k as [|k IH]; intros n; cbn [le_bytes].
  - reflexivity.
  - rewrite len_cons, IH. lia.
Qed.

Lemma le_value_le_bytes (k : nat) :
  forall n : Z, 0 <= n < 256 ^ Z.of_nat k -> le_value (le_bytes k n) = n.
Proof.
  induction k as [|k IH]; intros n Hn; cbn [le_bytes le_value].
  - change (256 ^ Z.of_nat 0) with 1 in Hn. lia.
  - rewrite byte_val_byte_of, IH.
    + pose proof (Z.div_mod n 256 ltac:(lia)). lia.
    + replace (Z.of_nat (S k)) with (1 + Z.of_nat k) in Hn by lia.
      rewrite Z.pow_add_r in Hn by lia. change (256 ^ 1) with 256 in Hn.
      split; [apply Z.div_pos; lia|].
      apply Z.div_lt_upper_bound; lia.
Qed.

Lemma bytes_eqb_eq (a b : bytes) : bytes_eqb a b = true <-> a = b.
Proof.
  revert b. induction a as [|x a IH]; intros [|y b]; cbn [bytes_eqb];
    try (split; [discriminate|discriminate]); [now split|].
  rewrite andb_true_iff, IH. split.
  - intros [Hxy ->]. f_equal.
    destruct (Byte.eqb x y) eqn:E; [|discriminate].
    now apply Byte.byte_dec_bl in E.
  - intros [= -> ->]. split; [|reflexivity].
    now apply Byte.byte_dec_lb.
Qed.

Lemma drop_len_app {A : Type} (pre t : list A) (a : Z) :
  len pre = a -> drop a (pre ++ t) = t.
Proof.
  intros <-. rewrite drop_app by lia.
  now rewrite drop_short by lia.
Qed.

Lemma take_all {A : Type} (x : list A) (n : Z) : len x <= n -> take n x = x.
Proof. intros Hn. unfold take. apply firstn_all2. unfold len in Hn. lia. Qed.

Lemma slice_at {A : Type} (pre x rest : list A) (a b : Z) :
  len pre = a -> len x = b - a -> slice (pre ++ x ++ rest) a b = x.
Proof.
  intros Ha Hx. unfold slice. rewrite (drop_len_app pre _ a Ha).
  rewrite take_app by lia. apply take_all. lia.
Qed.

Lemma slice_to_end {A : Type} (pre x : list A) (a b : Z) :
  len pre = a -> len x <= b - a -> slice (pre ++ x) a b = x.
Proof.
  intros Ha Hx. unfold slice. rewrite (drop_len_app pre _ a Ha).
  now apply take_all.
Qed.

Lemma len_frame (block : bytes) : len (frame block) = 8 + len block.
Proof.
  unfold frame. rewrite !len_app, len_le_bytes.
  change (len BITCOIN_CONSTANT) with 4. lia.
Qed.

Lemma framed_cons (block : bytes) (blocks : list bytes) :
  framed (block :: blocks) = frame block ++ framed blocks.
Proof. reflexivity. Qed.

Lemma framed_app (a b : list bytes) : framed (a ++ b) = framed a ++ framed b.
Proof. unfold framed. now rewrite map_app, concat_app. Qed.

Lemma unpack_le_nonneg (sz size : Z) (data : bytes) :
  unpack_le sz data = Ok size -> 0 <= size.
Proof.
  unfold unpack_le. destruct (len data =? sz); [|discriminate].
  intros H. apply Ok_inj in H as <-. apply le_value_nonneg.
Qed.

Lemma loop_exit (fuel : nat) (raw_data : bytes) (o : Z) :
  len raw_data - 4 <= o -> get_blocks_loop fuel raw_data o = ([], None).
Proof.
  intros Ho. destruct fuel as [|fuel]; cbn [get_blocks_loop]; [reflexivity|].
  now destruct (Z.ltb_spec o (len raw_data - 4)); [lia|].
Qed.

(** The loop never runs out of turns: any two stocks of at least the number
    of bytes left give the same result. *)
Lemma loop_fuel (raw_data : bytes) :
  forall (fuel1 fuel2 : nat) (o : Z),
    len raw_data - 4 - o <= Z.of_nat fuel1 ->
    len raw_data - 4 - o <= Z.of_nat fuel2 ->
    get_blocks_loop fuel1 raw_data o = get_blocks_loop fuel2 raw_data o.
Proof.
  induction fuel1 as [|fuel1 IH]; intros fuel2 o H1 H2.
  - now rewrite !loop_exit by lia.
  - destruct fuel2 as [|fuel2]; [now rewrite !loop_exit by lia|].
    cbn [get_blocks_loop].
    destruct (Z.ltb_spec o (len raw_data - 4)); [|reflexivity].
    destruct (bytes_eqb (slice raw_data o (o + 4)) BITCOIN_CONSTANT).
    + cbv zeta.
      destruct (unpack_le 4 (slice raw_data (o + 4) (o + 4 + 4)))
        as [size|e] eqn:Hsize; [|reflexivity].
      apply unpack_le_nonneg in Hsize.
      now rewrite (IH fuel2 (o + 4 + (4 + size))) by lia.
    + apply IH; lia.
Qed.

Lemma loop_step_block (fuel : nat) (raw_data : bytes) (o size : Z) :
  o < len raw_data - 4 ->
  slice raw_data o (o + 4) = BITCOIN_CONSTANT ->
  unpack_le 4 (slice raw_data (o + 4) (o + 4 + 4)) = Ok size ->
  get_blocks_loop (S fuel) raw_data o
  = (slice raw_data (o + 8) (o + 8 + size)
       :: fst (get_blocks_loop fuel raw_data (o + 8 + size)),
     snd (get_blocks_loop fuel raw_data (o + 8 + size))).
Proof.
  intros Ho Hmagic Hsize. cbn [get_blocks_loop].
  destruct (Z.ltb_spec o (len raw_data - 4)); [|lia].
  rewrite Hmagic.
  change (bytes_eqb BITCOIN_CONSTANT BITCOIN_CONSTANT) with true.
  cbv iota zeta. rewrite Hsize.
  replace (o + 4 + (4 + size)) with (o + 8 + size) by lia.
  replace (o + 8 + size - size) with (o + 8) by lia.
  now destruct (get_blocks_loop fuel raw_data (o + 8 + size)).
Qed.

Lemma frame_parts (pre block rest : bytes) :
  pre ++ frame block ++ rest
  = (pre ++ BITCOIN_CONSTANT) ++ le_bytes 4 (len block) ++ block ++ rest /\
  pre ++ frame block ++ rest
  = pre ++ BITCOIN_CONSTANT ++ le_bytes 4 (len block) ++ block ++ rest /\
  pre ++ frame block ++ rest
  = (pre ++ BITCOIN_CONSTANT ++ le_bytes 4 (len block)) ++ block ++ rest.
Proof. unfold frame. now rewrite <- !app_assoc. Qed.

Lemma size_field (n : Z) :
  0 <= n < 2 ^ 32 -> unpack_le 4 (le_bytes 4 n) = Ok n.
Proof.
  intros Hn. unfold unpack_le. rewrite len_le_bytes.
  change (Z.of_nat 4 =? 4) with true. cbv iota.
  now rewrite le_value_le_bytes by (change (256 ^ Z.of_nat 4) with (2 ^ 32); lia).
Qed.

Lemma loop_frame (fuel : nat) (pre block rest : bytes) :
  len block < 2 ^ 32 ->
  get_blocks_loop (S fuel) (pre ++ frame block ++ rest) (len pre)
  = (block :: fst (get_blocks_loop fuel (pre ++ frame block ++ rest)
                                   (len pre + 8 + len block)),
     snd (get_blocks_loop fuel (pre ++ frame block ++ rest)
                          (len pre + 8 + len block))).
Proof.
  intros Hsmall. pose proof (len_nonneg block) as Hb.
  pose proof (len_nonneg rest) as Hr.
  destruct (frame_parts pre block rest) as (P1 & P2 & P3).
  assert (Hblock : slice (pre ++ frame block ++ rest)
                         (len pre + 8) (len pre + 8 + len block) = block).
  { rewrite P3. apply slice_at; [|lia].
    rewrite !len_app, len_le_bytes. change (len BITCOIN_CONSTANT) with 4. lia. }
  rewrite (loop_step_block fuel _ (len pre) (len block)).
  - now rewrite Hblock.
  - rewrite !len_app, len_frame. lia.
  - rewrite P2. apply slice_at; [reflexivity|].
    change (len BITCOIN_CONSTANT) with 4. lia.
  - rewrite P1, slice_at.
    + apply size_field. lia.
    + rewrite len_app. reflexivity.
    + rewrite len_le_bytes. lia.
Qed.

Lemma loop_framed (blocks : list bytes) :
  Forall (fun block => len block < 2 ^ 32) blocks ->
  forall (pre rest : bytes) (fuel : nat),
    get_blocks_loop (List.length blocks + fuel)
                    (pre ++ framed blocks ++ rest) (len pre)
    = (blocks ++ fst (get_blocks_loop fuel (pre ++ framed blocks ++ rest)
                                      (len pre + len (framed blocks))),
       snd (get_blocks_loop fuel (pre ++ framed blocks ++ rest)
                            (len pre + len (framed blocks)))).
Proof.
  induction 1 as [|block blocks Hsmall _ IH]; intros pre rest fuel.
  - change (len (framed [])) with 0. rewrite Z.add_0_r.
    cbn [List.length Nat.add app].
    apply surjective_pairing.
  - rewrite framed_cons. cbn [List.length Nat.add].
    rewrite <- (app_assoc (frame block)).
    rewrite loop_frame by exact Hsmall.
    assert (Hraw : pre ++ frame block ++ framed blocks ++ rest
                   = (pre ++ frame block) ++ framed blocks ++ rest)
      by now rewrite <- app_assoc.
    assert (Hoff : len pre + 8 + len block = len (pre ++ frame block))
      by (rewrite len_app, len_frame; lia).
    rewrite Hraw, Hoff, IH.
    cbn [fst snd app].
    replace (len (pre ++ frame block) + len (framed blocks))
      with (len pre + len (frame block ++ framed blocks))
      by (rewrite !len_app; lia).
    reflexivity.
Qed.

(** A file that starts with framed blocks: the blocks are yielded, and the
    loop goes on behind the last frame. *)
Lemma get_blocks_after (blocks : list bytes) (rest : bytes) (fuel : nat) :
  Forall (fun block => len block < 2 ^ 32) blocks ->
  framed blocks ++ rest <> [] ->
  len (framed blocks ++ rest) <= Z.of_nat fuel ->
  get_blocks (framed blocks ++ rest)
  = (blocks ++ fst (get_blocks_loop fuel (framed blocks ++ rest)
                                    (len (framed blocks))),
     snd (get_blocks_loop fuel (framed blocks ++ rest)
                          (len (framed blocks)))).
Proof.
  intros Hsmall Hfile Hfuel. unfold get_blocks.
  destruct (Z.eqb_spec (len (framed blocks ++ rest)) 0) as [Hz|_].
  - destruct (framed blocks ++ rest); [contradiction|].
    rewrite len_cons in Hz. pose proof (len_nonneg l). lia.
  - rewrite (loop_fuel _ _ (List.length blocks + fuel) 0) by lia.
    apply (loop_framed blocks Hsmall [] rest fuel).
Qed.

Lemma loop_padding (padding : bytes) :
  Forall (fun b => b <> xf9) padding ->
  forall (pre : bytes) (fuel : nat),
    get_blocks_loop fuel (pre ++ padding) (len pre) = ([], None).
Proof.
  induction 1 as [|b padding Hb _ IH]; intros pre fuel.
  - apply loop_exit. rewrite app_nil_r. lia.
  - destruct fuel as [|fuel]; [reflexivity|]. cbn [get_blocks_loop].
    destruct (Z.ltb_spec (len pre) (len (pre ++ b :: padding) - 4));
      [|reflexivity].
    assert (Hwin : bytes_eqb (slice (pre ++ b :: padding) (len pre) (len pre + 4))
                             BITCOIN_CONSTANT = false).
    { unfold slice. rewrite (drop_len_app pre _ (len pre) eq_refl).
      replace (len pre + 4 - len pre) with 4 by lia.
      unfold take. change (Z.to_nat 4) with 4%nat.
      cbn [firstn BITCOIN_CONSTANT bytes_eqb].
      destruct (Byte.eqb b xf9) eqn:E; [|reflexivity].
      apply Byte.byte_dec_bl in E. contradiction. }
    rewrite Hwin.
    replace (pre ++ b :: padding) with ((pre ++ [b]) ++ padding)
      by now rewrite <- app_assoc.
    replace (len pre + 1) with (len (pre ++ [b]))
      by (rewrite len_app; reflexivity).
    apply IH.
Qed.

Lemma framed_nonempty (blocks : list bytes) (rest : bytes) :
  blocks <> [] -> framed blocks ++ rest <> [].
Proof.
  destruct blocks as [|block blocks]; [contradiction|]. intros _.
  rewrite framed_cons. unfold frame. discriminate.
Qed.

(** X21.  [get_blocks] reads back what the block files hold: on a file made
    of blocks, each written as the separating constant, its length in four
    little-endian bytes and its bytes, followed by padding in which the
    first byte of the constant does not occur (the zeros that bitcoind
    preallocates, or nothing), it yields exactly those blocks, in order and
    without an error, whatever the blocks contain. *)
Theorem get_blocks_framed (blocks : list bytes) (padding : bytes) :
  blocks <> [] ->
  Forall (fun block => len block < 2 ^ 32) blocks ->
  Forall (fun b => b <> xf9) padding ->
  get_blocks (framed blocks ++ padding) = (blocks, None).
Proof.
  intros Hne Hsmall Hpad.
  rewrite (get_blocks_after blocks padding
             (Z.to_nat (len (framed blocks ++ padding))) Hsmall
             (framed_nonempty blocks padding Hne)) by lia.
  rewrite (loop_padding padding Hpad (framed blocks)).
  cbn [fst snd]. now rewrite app_nil_r.
Qed.

Lemma get_blocks_framed_witness :
  get_blocks (framed sample_blocks ++ repeat x00 16) = (sample_blocks, None).
Proof.
  apply (get_blocks_framed sample_blocks (repeat x00 16)).
  - discriminate.
  - repeat constructor; vm_compute; reflexivity.
  - repeat constructor; discriminate.
Defined.

(** X22.  What [get_blocks] does with a file that is cut short, after the
    blocks that are whole.  A last block that announces more bytes than the
    file holds is yielded with the bytes that are there, without an error;
    the constant followed by one to three bytes of a length ends the
    iteration with [struct.error]; and a tail of at most four bytes, the
    constant itself included, is dropped silently.  An empty file is
    refused with a ValueError before anything is read. *)
Theorem get_blocks_truncated (blocks : list bytes) :
  Forall (fun block => len block < 2 ^ 32) blocks ->
  (forall (n : Z) (part : bytes),
     len part < n < 2 ^ 32 ->
     get_blocks (framed blocks ++ BITCOIN_CONSTANT ++ le_bytes 4 n ++ part)
     = (blocks ++ [part], None)) /\
  (forall s : bytes,
     1 <= len s <= 3 ->
     get_blocks (framed blocks ++ BITCOIN_CONSTANT ++ s)
     = (blocks, Some (Exn StructError))) /\
  (forall s : bytes,
     blocks <> [] -> len s <= 4 ->
     get_blocks (framed blocks ++ s) = (blocks, None)) /\
  get_blocks [] = ([], Some (Exn (ValueError "cannot mmap an empty file"))).
Proof.
  intros Hsmall. split; [|split; [|split; [|reflexivity]]].
  - intros n part Hn. pose proof (len_nonneg part) as Hp.
    set (tail := BITCOIN_CONSTANT ++ le_bytes 4 n ++ part).
    rewrite (get_blocks_after blocks tail
               (S (Z.to_nat (len (framed blocks ++ tail)))) Hsmall);
      [|unfold tail; destruct (framed blocks); discriminate|lia].
    set (pre := framed blocks).
    assert (Hlen : len (pre ++ tail) = len pre + 8 + len part).
    { unfold tail. rewrite !len_app, len_le_bytes.
      change (len BITCOIN_CONSTANT) with 4. lia. }
    rewrite (loop_step_block _ _ (len pre) n).
    + assert (Hpart : slice (pre ++ tail) (len pre + 8) (len pre + 8 + n)
                      = part).
      { unfold tail.
        replace (pre ++ BITCOIN_CONSTANT ++ le_bytes 4 n ++ part)
          with ((pre ++ BITCOIN_CONSTANT ++ le_bytes 4 n) ++ part)
          by now rewrite <- !app_assoc.
        apply slice_to_end; [|lia].
        rewrite !len_app, len_le_bytes.
        change (len BITCOIN_CONSTANT) with 4. lia. }
      rewrite Hpart, loop_exit by lia. reflexivity.
    + lia.
    + unfold tail. apply slice_at; [reflexivity|].
      change (len BITCOIN_CONSTANT) with 4. lia.
    + unfold tail.
      replace (pre ++ BITCOIN_CONSTANT ++ le_bytes 4 n ++ part)
        with ((pre ++ BITCOIN_CONSTANT) ++ le_bytes 4 n ++ part)
        by now rewrite <- !app_assoc.
      rewrite slice_at.
      * apply size_field. lia.
      * rewrite len_app. reflexivity.
      * rewrite len_le_bytes. lia.
  - intros s Hs.
    set (tail := BITCOIN_CONSTANT ++ s).
    rewrite (get_blocks_after blocks tail
               (S (Z.to_nat (len (framed blocks ++ tail)))) Hsmall);
      [|unfold tail; destruct (framed blocks); discriminate|lia].
    set (pre := framed blocks).
    assert (Hlen : len (pre ++ tail) = len pre + 4 + len s).
    { unfold tail. rewrite !len_app. change (len BITCOIN_CONSTANT) with 4. lia. }
    cbn [get_blocks_loop].
    destruct (Z.ltb_spec (len pre) (len (pre ++ tail) - 4)); [|lia].
    assert (Hmagic : slice (pre ++ tail) (len pre) (len pre + 4)
                     = BITCOIN_CONSTANT).
    { unfold tail. apply slice_at; [reflexivity|].
      change (len BITCOIN_CONSTANT) with 4. lia. }
    rewrite Hmagic.
    change (bytes_eqb BITCOIN_CONSTANT BITCOIN_CONSTANT) with true.
    cbv iota zeta.
    assert (Hsize : slice (pre ++ tail) (len pre + 4) (len pre + 4 + 4) = s).
    { unfold tail. rewrite app_assoc. apply slice_to_end; [|lia].
      rewrite len_app. reflexivity. }
    rewrite Hsize. unfold unpack_le.
    destruct (Z.eqb_spec (len s) 4); [lia|].
    cbn [fst snd]. now rewrite app_nil_r.
  - intros s Hne Hs.
    rewrite (get_blocks_after blocks s
               (Z.to_nat (len (framed blocks ++ s))) Hsmall
               (framed_nonempty blocks s Hne)) by lia.
    rewrite loop_exit by (rewrite len_app; lia).
    cbn [fst snd]. now rewrite app_nil_r.
Qed.

Lemma get_blocks_truncated_witness :
  get_blocks (framed [sample_block]
              ++ BITCOIN_CONSTANT ++ le_bytes 4 300 ++ sample_block_short)
  = ([sample_block; sample_block_short], None) /\
  get_blocks (framed [sample_block] ++ BITCOIN_CONSTANT ++ [x10; x00])
  = ([sample_block], Some (Exn StructError)) /\
  get_blocks (framed [sample_block] ++ BITCOIN_CONSTANT)
  = ([sample_block], None).
Proof.
  assert (Hsmall : Forall (fun block : bytes => len block < 2 ^ 32)
                          [sample_block])
    by (repeat constructor; vm_compute; reflexivity).
  destruct (get_blocks_truncated [sample_block] Hsmall)
    as (Hpart & Hsize & Htail & _).
  split; [|split].
  - apply (Hpart 300 sample_block_short). vm_compute. split; reflexivity.
  - apply (Hsize [x10; x00]). vm_compute. split; discriminate.
  - apply (Htail BITCOIN_CONSTANT); [discriminate|]. vm_compute. discriminate.
Defined.

(** ** blockchain.py: one block at a position *)

Lemma get_block_frame (pre block rest : bytes) :
  len block < 2 ^ 32 ->
  get_block (pre ++ frame block ++ rest) (len pre + 8) = Done block.
Proof.
  intros Hsmall. pose proof (len_nonneg block) as Hb.
  pose proof (len_nonneg pre) as Hp.
  destruct (frame_parts pre block rest) as (P1 & _ & P3).
  unfold get_block.
  destruct (Z.ltb_spec (len pre + 8 - 4) 0); [lia|].
  assert (Hsize : slice (pre ++ frame block ++ rest) (len pre + 8 - 4)
                        (len pre + 8) = le_bytes 4 (len block)).
  { rewrite P1. apply slice_at.
    - rewrite len_app. change (len BITCOIN_CONSTANT) with 4. lia.
    - rewrite len_le_bytes. lia. }
  assert (Hblock : slice (pre ++ frame block ++ rest) (len pre + 8)
                         (len pre + 8 + len block) = block).
  { rewrite P3. apply slice_at; [|lia].
    rewrite !len_app, len_le_bytes. change (len BITCOIN_CONSTANT) with 4. lia. }
  rewrite Hsize, size_field by lia. cbn [lift obind].
  now rewrite Hblock.
Qed.

Lemma nth_error_parts {A : Type} (l : list A) (i : nat) (x : A) :
  nth_error l i = Some x -> l = firstn i l ++ x :: skipn (S i) l.
Proof.
  revert i. induction l as [|y l IH]; intros [|i] Hnth;
    try discriminate.
  - cbn in Hnth. now apply Some_inj in Hnth as ->.
  - cbn [nth_error] in Hnth. cbn [firstn skipn app]. f_equal.
    now apply IH.
Qed.

(** X23.  [get_block] finds what [get_blocks] yields: in a file of framed
    blocks (with anything behind them) the block number [i] is read back
    whole at the position 8 bytes after the start of its frame, the first
    one at the default position 8.  A position of at least 4 behind the end
    of the file fails with [struct.error], since fewer than four bytes are
    left for the length. *)
Theorem get_block_position (blocks : list bytes) (rest : bytes) :
  Forall (fun block => len block < 2 ^ 32) blocks ->
  (forall (i : nat) (block : bytes),
     nth_error blocks i = Some block ->
     get_block (framed blocks ++ rest) (data_pos blocks i) = Done block) /\
  data_pos blocks 0 = 8 /\
  (forall offset : Z,
     4 <= offset ->
     len (framed blocks ++ rest) < offset ->
     get_block (framed blocks ++ rest) offset = Fail (Exn StructError)).
Proof.
  intros Hsmall. split; [|split].
  - intros i block Hnth. unfold data_pos.
    assert (Hin : len block < 2 ^ 32).
    { rewrite Forall_forall in Hsmall. apply Hsmall.
      now apply nth_error_In with i. }
    rewrite (nth_error_parts blocks i block Hnth) at 1.
    rewrite framed_app, framed_cons, <- !app_assoc.
    now apply get_block_frame.
  - reflexivity.
  - intros offset Hseek Hoff. set (file := framed blocks ++ rest) in *.
    pose proof (len_nonneg file) as Hf. unfold get_block.
    destruct (Z.ltb_spec (offset - 4) 0); [lia|].
    assert (Hshort : len (slice file (offset - 4) offset) <> 4).
    { unfold slice. rewrite len_take by lia.
      destruct (Z.le_gt_cases (offset - 4) (len file)).
      - rewrite len_drop by lia. lia.
      - rewrite len_drop by lia. lia. }
    unfold unpack_le.
    now destruct (Z.eqb_spec (len (slice file (offset - 4) offset)) 4).
Qed.

Lemma get_block_position_witness :
  get_block (framed sample_blocks ++ repeat x00 16) (data_pos sample_blocks 1)
  = Done sample_block_short /\
  get_block (framed sample_blocks ++ repeat x00 16) 1000
  = Fail (Exn StructError).
Proof.
  destruct (get_block_position sample_blocks (repeat x00 16))
    as (Hread & _ & Hend).
  - repeat constructor; vm_compute; reflexivity.
  - split.
    + apply Hread. reflexivity.
    + apply Hend; [lia|]. vm_compute. reflexivity.
Defined.

(** ** script.py and output.py: templates and addresses *)

Lemma is_pubkey_ops_true (ops : list operation) :
  Script.is_pubkey_ops ops = Ok true <->
  exists key : operation,
    ops = [key; OpInt OP_CHECKSIG] /\ is_public_key key = true.
Proof.
  unfold Script.is_pubkey_ops, index_back. split.
  - destruct (Z.eqb_spec (len ops) 2) as [Hlen|Hlen].
    + destruct ops as [|key ops]; [discriminate|].
      destruct ops as [|last ops]; [discriminate|].
      destruct ops as [|o ops];
        [|rewrite !len_cons in Hlen; pose proof (len_nonneg ops); lia].
      change (index [key; last] (len [key; last] - 1)) with (Ok last).
      change (index [key; last] 0) with (Ok key).
      cbn [bind andb]. intros Hrun. apply Ok_inj in Hrun.
      apply andb_true_iff in Hrun as [Hop Hkey].
      apply op_eq_true in Hop as ->. now exists key.
    + destruct (index ops (len ops - 1)); [|discriminate]. cbn [bind].
      destruct (index ops 0); [|discriminate]. cbn [bind andb].
      discriminate.
  - intros (key & -> & Hkey).
    change (index [key; OpInt OP_CHECKSIG]
                  (len [key; OpInt OP_CHECKSIG] - 1))
      with (Ok (OpInt OP_CHECKSIG)).
    change (index [key; OpInt OP_CHECKSIG] 0) with (Ok key).
    cbn [bind]. rewrite Hkey. reflexivity.
Qed.

Lemma is_pubkeyhash_ops_true (raw_len : Z) (ops : list operation) :
  Script.is_pubkeyhash_ops raw_len ops = Ok true ->
  raw_len = 25 /\ 4 <= len ops /\
  index ops 0 = Ok (OpInt OP_DUP) /\
  index ops 1 = Ok (OpInt OP_HASH160) /\
  index_back ops 2 = Ok (OpInt OP_EQUALVERIFY) /\
  index_back ops 1 = Ok (OpInt OP_CHECKSIG).
Proof.
  unfold Script.is_pubkeyhash_ops. intros Hrun.
  destruct (index ops 0) as [o0|] eqn:H0; [|discriminate].
  cbn [bind] in Hrun.
  destruct (index ops 1) as [o1|] eqn:H1; [|discriminate].
  cbn [bind] in Hrun.
  destruct (index_back ops 2) as [o2|] eqn:H2; [|discriminate].
  cbn [bind] in Hrun.
  destruct (index_back ops 1) as [o3|] eqn:H3; [|discriminate].
  cbn [bind] in Hrun. apply Ok_inj in Hrun.
  repeat (apply andb_true_iff in Hrun as [Hrun ?]).
  repeat match goal with
         | Hop : op_eq _ _ = true |- _ => apply op_eq_true in Hop; subst
         end.
  apply Z.eqb_eq in Hrun.
  split; [exact Hrun|]. split; [|now repeat split].
  pose proof (index_in_range _ _ _ H1) as Hlen.
  unfold index_back in H2.
  destruct (Z.eq_dec (len ops) 2) as [E|E].
  { rewrite E in H2. change (2 - 2) with 0 in H2.
    rewrite H0 in H2. discriminate. }
  destruct (Z.eq_dec (len ops) 3) as [E3|E3].
  { rewrite E3 in H2. change (3 - 2) with 1 in H2.
    rewrite H1 in H2. discriminate. }
  lia.
Qed.

Lemma pubkeyhash_not_multisig (raw_len : Z) (ops : list operation) :
  Script.is_pubkeyhash_ops raw_len ops = Ok true ->
  Script.is_multisig_ops ops = Ok false.
Proof.
  intros Hrun.
  destruct (is_pubkeyhash_ops_true raw_len ops Hrun)
    as (_ & Hlen & H0 & H1 & _).
  unfold Script.is_multisig_ops.
  destruct (Z.ltb_spec (len ops) 4); [reflexivity|].
  rewrite H0. cbn [bind].
  change (Z.to_nat OP_DUP) with (S 117). cbn [Script.multisig_keys].
  change (1 + 0) with 1. rewrite H1. reflexivity.
Qed.

Lemma pubkey_not_multisig (ops : list operation) :
  Script.is_pubkey_ops ops = Ok true ->
  Script.is_multisig_ops ops = Ok false.
Proof.
  intros Hrun. apply is_pubkey_ops_true in Hrun as (key & -> & _).
  reflexivity.
Qed.

Lemma index_exists {A : Type} (l : list A) (i : Z) :
  0 <= i < len l -> exists x : A, index l i = Ok x.
Proof.
  intros Hi. unfold index. destruct (Z.ltb_spec i 0); [lia|].
  destruct (nth_error l (Z.to_nat i)) as [x|] eqn:Hnth; [now exists x|].
  apply nth_error_None in Hnth. unfold len in Hi. lia.
Qed.

(** What a returned script type says about the predicates, which are
    tried in a fixed order. *)
Lemma script_type_inv {L : Bitcoinlib} (out : TxOutput.t) (ty : ScriptType) :
  TxOutput.script_type out = Ok ty ->
  let s := TxOutput.script out in
  match ty with
  | invalid => Script.is_valid s = false
  | pubkeyhash => Script.is_valid s = true /\ Script.is_pubkeyhash s = Ok true
  | pubkey =>
    Script.is_valid s = true /\ Script.is_pubkeyhash s = Ok false /\
    Script.is_pubkey s = Ok true
  | p2sh =>
    Script.is_valid s = true /\ Script.is_pubkeyhash s = Ok false /\
    Script.is_pubkey s = Ok false /\ Script.is_p2sh s = true
  | multisig =>
    Script.is_valid s = true /\ Script.is_pubkeyhash s = Ok false /\
    Script.is_pubkey s = Ok false /\ Script.is_p2sh s = false /\
    Script.is_multisig s = Ok true
  | OP_RETURN_type =>
    Script.is_valid s = true /\ Script.is_pubkeyhash s = Ok false /\
    Script.is_pubkey s = Ok false /\ Script.is_p2sh s = false /\
    Script.is_multisig s = Ok false /\ Script.is_return s = true
  | p2wpkh =>
    Script.is_valid s = true /\ Script.is_pubkeyhash s = Ok false /\
    Script.is_pubkey s = Ok false /\ Script.is_p2sh s = false /\
    Script.is_multisig s = Ok false /\ Script.is_return s = false /\
    Script.is_p2wpkh s = true
  | p2wsh =>
    Script.is_valid s = true /\ Script.is_pubkeyhash s = Ok false /\
    Script.is_pubkey s = Ok false /\ Script.is_p2sh s = false /\
    Script.is_multisig s = Ok false /\ Script.is_return s = false /\
    Script.is_p2wpkh s = false /\ Script.is_p2wsh s = true
  | unknown =>
    Script.is_valid s = true /\ Script.is_pubkeyhash s = Ok false /\
    Script.is_pubkey s = Ok false /\ Script.is_p2sh s = false /\
    Script.is_multisig s = Ok false /\ Script.is_return s = false /\
    Script.is_p2wpkh s = false /\ Script.is_p2wsh s = false
  end.
Proof.
  intros Hty. cbv zeta. unfold TxOutput.script_type in Hty.
  set (s := TxOutput.script out) in *. clearbody s.
  destruct (Script.is_valid s); cbn [negb] in Hty;
    [|apply Ok_inj in Hty; now subst ty].
  destruct (Script.is_pubkeyhash s) as [[|]|e]; cbn [bind] in Hty;
    [apply Ok_inj in Hty; now subst ty| |discriminate].
  destruct (Script.is_pubkey s) as [[|]|e]; cbn [bind] in Hty;
    [apply Ok_inj in Hty; now subst ty| |discriminate].
  destruct (Script.is_p2sh s);
    [apply Ok_inj in Hty; now subst ty|].
  destruct (Script.is_multisig s) as [[|]|e]; cbn [bind] in Hty;
    [apply Ok_inj in Hty; now subst ty| |discriminate].
  destruct (Script.is_return s);
    [apply Ok_inj in Hty; now subst ty|].
  destruct (Script.is_p2wpkh s);
    [apply Ok_inj in Hty; now subst ty|].
  destruct (Script.is_p2wsh s); apply Ok_inj in Hty; now subst ty.
Qed.

Lemma index_1_cases {A : Type} (l : list A) :
  (len l < 2 /\ index l 1 = Raise IndexError) \/
  exists x : A, index l 1 = Ok x.
Proof.
  destruct (Z.lt_ge_cases (len l) 2) as [Hlt|Hge].
  - left. split; [exact Hlt|]. apply index_short. lia.
  - right. apply index_exists. lia.
Qed.

(** X24.  What [addresses] holds, for every script type that [script_type]
    returns.  A pubkey output is the two operations [<key> OP_CHECKSIG] and
    has the one address of the key, base58-check of HASH160(key) with
    version byte 0x00; a pubkeyhash output has at least four operations and
    the one address built from [operations[2]], whatever that operation is;
    a multisig output has the addresses of [operations[1:1+N]]; p2sh, p2wpkh
    and p2wsh outputs have the one address built from [operations[1]], or
    raise IndexError when the script has fewer than two operations; every
    other output (OP_RETURN, unknown, invalid) has no address. *)
Theorem addresses_by_type
        (H : Hashlib) (L : Bitcoinlib) (out : TxOutput.t) (ty : ScriptType) :
  TxOutput.script_type out = Ok ty ->
  let ops := Script.operations (TxOutput.script out) in
  match ty with
  | pubkey =>
    exists key : bytes,
      ops = [OpBytes key; OpInt OP_CHECKSIG] /\
      TxOutput.addresses out = Ok [Address.from_public_key (OpBytes key)] /\
      Address.address (Address.from_public_key (OpBytes key))
      = Ok (base58_encode
              ([x00] ++ hash160 key
               ++ take 4 (sha256_2 ([x00] ++ hash160 key))))
  | pubkeyhash =>
    4 <= len ops /\
    exists o : operation,
      index ops 2 = Ok o /\
      TxOutput.addresses out = Ok [Address.from_hash160 o normal]
  | multisig =>
    exists n : Z,
      index_back ops 2 = Ok (OpInt n) /\
      TxOutput.addresses out
      = Ok (map Address.from_public_key (TxOutput.pyslice ops 1 (1 + n)))
  | p2sh =>
    (len ops < 2 /\ TxOutput.addresses out = Raise IndexError) \/
    exists o : operation,
      index ops 1 = Ok o /\
      TxOutput.addresses out = Ok [Address.from_hash160 o p2sh_address]
  | p2wpkh | p2wsh =>
    (len ops < 2 /\ TxOutput.addresses out = Raise IndexError) \/
    exists o : operation,
      index ops 1 = Ok o /\
      TxOutput.addresses out = Ok [Address.from_bech32 o 0]
  | unknown | invalid | OP_RETURN_type => TxOutput.addresses out = Ok []
  end.
Proof.
  intros Hty ops. pose proof (script_type_inv out ty Hty) as Hinv.
  cbv zeta in Hinv. unfold TxOutput.addresses. rewrite Hty. cbn [bind].
  fold ops. destruct ty; try reflexivity.
  - destruct Hinv as (_ & Hpkh). unfold Script.is_pubkeyhash in Hpkh.
    fold ops in Hpkh.
    destruct (is_pubkeyhash_ops_true _ _ Hpkh) as (_ & Hlen & _).
    split; [exact Hlen|].
    destruct (index_exists ops 2 ltac:(lia)) as [o Ho].
    exists o. split; [exact Ho|]. now rewrite Ho.
  - destruct Hinv as (_ & _ & Hpk). unfold Script.is_pubkey in Hpk.
    fold ops in Hpk. apply is_pubkey_ops_true in Hpk as (key & Hops & Hkey).
    destruct key as [n|key]; [discriminate|].
    exists key. split; [exact Hops|]. split; [now rewrite Hops|].
    apply pubkey_address.
  - destruct (index_1_cases ops) as [[Hlen Hidx]|[o Ho]].
    + left. split; [exact Hlen|]. now rewrite Hidx.
    + right. exists o. split; [exact Ho|]. now rewrite Ho.
  - destruct Hinv as (_ & _ & _ & _ & Hms). unfold Script.is_multisig in Hms.
    fold ops in Hms. apply is_multisig_ops_true in Hms.
    destruct Hms as (_ & M & N & _ & _ & H2 & _).
    exists N. split; [exact H2|]. now rewrite H2.
  - destruct (index_1_cases ops) as [[Hlen Hidx]|[o Ho]].
    + left. split; [exact Hlen|]. now rewrite Hidx.
    + right. exists o. split; [exact Ho|]. now rewrite Ho.
  - destruct (index_1_cases ops) as [[Hlen Hidx]|[o Ho]].
    + left. split; [exact Hlen|]. now rewrite Hidx.
    + right. exists o. split; [exact Ho|]. now rewrite Ho.
Qed.

Lemma addresses_by_type_witness :
  4 <= len (@Script.operations bitcoinlib (TxOutput.script pay_to_key_hash)) /\
  exists o : operation,
    index (@Script.operations bitcoinlib (TxOutput.script pay_to_key_hash)) 2
    = Ok o /\
    @TxOutput.addresses bitcoinlib pay_to_key_hash
    = Ok [Address.from_hash160 o normal].
Proof.
  apply (addresses_by_type plain_hashlib bitcoinlib pay_to_key_hash pubkeyhash).
  vm_compute. reflexivity.
Defined.

(** X25.  [is_unknown] answers the opposite of its name.  For a valid
    script whose type [script_type] returns, it returns true for every
    template (pubkeyhash, pubkey, multisig, OP_RETURN, p2wpkh, p2wsh) and
    false for the type unknown; for a p2sh script it returns true as well,
    unless [is_multisig], which [script_type] does not evaluate for such a
    script, raises. *)
Theorem is_unknown_known
        (L : Bitcoinlib) (out : TxOutput.t) (ty : ScriptType) :
  TxOutput.script_type out = Ok ty ->
  ty <> invalid ->
  (ty <> p2sh ->
   Script.is_unknown (TxOutput.script out) = Ok (is_template ty)) /\
  (ty = p2sh ->
   Script.is_unknown (TxOutput.script out) = Ok true \/
   exists e : exn,
     Script.is_multisig (TxOutput.script out) = Raise e /\
     Script.is_unknown (TxOutput.script out) = Raise e).
Proof.
  intros Hty Hvalid. pose proof (script_type_inv out ty Hty) as Hinv.
  cbv zeta in Hinv. unfold Script.is_unknown.
  set (s := TxOutput.script out) in *.
  destruct ty; try contradiction.
  - destruct Hinv as (_ & -> & -> & -> & -> & -> & -> & ->).
    split; [reflexivity|discriminate].
  - destruct Hinv as (_ & Hpkh). rewrite Hpkh. cbn [bind].
    unfold Script.is_pubkeyhash in Hpkh. unfold Script.is_multisig.
    rewrite (pubkeyhash_not_multisig _ _ Hpkh).
    split; [reflexivity|discriminate].
  - destruct Hinv as (_ & -> & Hpk). rewrite Hpk. cbn [bind].
    unfold Script.is_pubkey in Hpk. unfold Script.is_multisig.
    rewrite (pubkey_not_multisig _ Hpk).
    split; [reflexivity|discriminate].
  - destruct Hinv as (_ & -> & -> & ->). cbn [bind].
    split; [contradiction|]. intros _.
    destruct (Script.is_multisig s) as [b|e].
    + left. cbn [bind orb]. reflexivity.
    + right. exists e. now split.
  - destruct Hinv as (_ & -> & -> & -> & ->).
    split; [reflexivity|discriminate].
  - destruct Hinv as (_ & -> & -> & -> & -> & ->). cbn [bind orb].
    split; [|discriminate]. cbn [is_template].
    now destruct (Script.is_p2wpkh s), (Script.is_p2wsh s).
  - destruct Hinv as (_ & -> & -> & -> & -> & -> & ->).
    split; [reflexivity|discriminate].
  - destruct Hinv as (_ & -> & -> & -> & -> & -> & -> & ->).
    split; [reflexivity|discriminate].
Qed.

Lemma is_unknown_known_witness :
  @Script.is_unknown bitcoinlib (TxOutput.script pay_to_key_hash) = Ok true.
Proof.
  apply (is_unknown_known bitcoinlib pay_to_key_hash pubkeyhash).
  - vm_compute. reflexivity.
  - discriminate.
  - discriminate.
Defined.
